(** * cosima2TTE: the Cosima log reader, the run merge and the TTE builder

    A shallow embedding of the notebook's [Hit] and [CosimaSim] classes
    ([open], [merge], [to_TTE]) and of the library calls they make.

    Conventions of the model:
    - text is ASCII: a character is an [ascii], a line a [string];
    - a Python [float] (and the value of an astropy [Quantity], whose unit is
      fixed by the code: seconds for times, keV for energies) is a binary64
      number, [spec_float] with [prec = 53] and [emax = 1024];
    - a Python [int] is a [Z];
    - a raised exception is a value of [error]; a call that can raise returns
      a [result];
    - [Hit] objects live in a store and are named by their address, because
      [merge] writes to hits that two runs can both reference;
    - [np.argsort] is a parameter of [merge], and two sorts are given for
      it: numpy's default introsort ([npy_aquicksort], with its insertion
      sort and its heap sort), which is what the notebook runs and which is
      proved here to sort, and an insertion sort as [kind='stable'] would
      run. Properties of [merge] that need no more than a permutation of the
      indices are proved for every such [np.argsort]. *)

From Stdlib Require Import ZArith Ascii String Floats.SpecFloat.
From stdpp Require Import base strings list gmap sorting.

Local Open Scope string_scope.
Local Open Scope list_scope.

(** ** Binary64 numbers *)

Module F64.

Definition prec : Z := 53.
Definition emax : Z := 1024.

Definition add : spec_float -> spec_float -> spec_float := SFadd prec emax.

(** [x < y] and [x > y]; both are [false] as soon as one side is NaN. *)
Definition lt (x y : spec_float) : bool := SFltb x y.
Definition gt (x y : spec_float) : bool := SFltb y x.
Definition le (x y : spec_float) : bool := SFleb x y.
Definition eq (x y : spec_float) : bool := SFeqb x y.

Definition is_nan (x : spec_float) : bool :=
  match x with S754_nan => true | _ => false end.

(** [float(z)] for an integer [z] *)
Definition of_int (z : Z) : spec_float := binary_normalize prec emax z 0 false.

(** The value [(-1)^s * m * 10^e], rounded to nearest even. *)
Definition of_decimal (s : bool) (m : N) (e : Z) : spec_float :=
  match m with
  | N0 => S754_zero s
  | Npos p =>
      match e with
      | Zneg k =>
          SFdiv prec emax (S754_finite s p 0%Z) (S754_finite false (10 ^ k)%positive 0%Z)
      | _ =>
          binary_normalize prec emax ((if s then Z.neg p else Z.pos p) * 10 ^ e)%Z 0 s
      end
  end.

End F64.

Abbreviation float := spec_float.

(** ** Python strings *)

Module Py.

(** [str.isspace] on one ASCII character. *)
Definition isspace (c : ascii) : bool :=
  let n := nat_of_ascii c in
  (Nat.leb 9 n && Nat.leb n 13) || (Nat.leb 28 n && Nat.leb n 32).

Definition snoc (s : string) (c : ascii) : string := s +:+ String c "".

(** [s[0:2]] *)
Definition prefix2 (s : string) : string :=
  match s with
  | String a (String b _) => String a (String b "")
  | _ => s
  end.

(** [s.split()]: maximal runs of non-blank characters. [cur] is the token
    being read. *)
Fixpoint split_go (s cur : string) : list string :=
  match s with
  | "" => if String.eqb cur "" then [] else [cur]
  | String c s' =>
      if isspace c
      then (if String.eqb cur "" then split_go s' "" else cur :: split_go s' "")
      else split_go s' (snoc cur c)
  end.

Definition split (s : string) : list string := split_go s "".

(** [s.split(sep)] for a one-character separator: empty fields are kept. *)
Fixpoint split_on_go (sep : ascii) (s cur : string) : list string :=
  match s with
  | "" => [cur]
  | String c s' =>
      if Ascii.eqb c sep
      then cur :: split_on_go sep s' ""
      else split_on_go sep s' (snoc cur c)
  end.

Definition split_on (sep : ascii) (s : string) : list string :=
  split_on_go sep s "".

Fixpoint lstrip (s : string) : string :=
  match s with
  | String c s' => if isspace c then lstrip s' else s
  | "" => ""
  end.

Definition rstrip (s : string) : string :=
  String.rev (lstrip (String.rev s)).

(** [s.strip()] *)
Definition strip (s : string) : string := rstrip (lstrip s).

Definition is_digit (c : ascii) : bool :=
  let n := nat_of_ascii c in Nat.leb 48 n && Nat.leb n 57.

Definition digit_val (c : ascii) : N := N.of_nat (nat_of_ascii c - 48).

Definition lower (c : ascii) : ascii :=
  let n := nat_of_ascii c in
  if Nat.leb 65 n && Nat.leb n 90 then ascii_of_nat (n + 32) else c.

Fixpoint lower_string (s : string) : string :=
  match s with
  | "" => ""
  | String c s' => String (lower c) (lower_string s')
  end.

(** Underscores in a numeric literal: allowed only between two digits.
    Returns the literal with its underscores removed. [prev] is the
    character before [s]. *)
Fixpoint drop_underscores (prev : option ascii) (s : string) : option string :=
  match s with
  | "" =>
      match prev with
      | Some "_"%char => None
      | _ => Some ""
      end
  | String c s' =>
      if Ascii.eqb c "_"
      then match prev with
           | Some p => if is_digit p then drop_underscores (Some c) s' else None
           | None => None
           end
      else match prev with
           | Some "_"%char =>
               if is_digit c
               then String c <$> drop_underscores (Some c) s'
               else None
           | _ => String c <$> drop_underscores (Some c) s'
           end
  end.

(** Reads a maximal run of digits: its value continuing [acc], how many
    digits were read, and the rest. *)
Fixpoint digits (acc : N) (n : nat) (s : string) : N * nat * string :=
  match s with
  | String c s' =>
      if is_digit c then digits (10 * acc + digit_val c)%N (S n) s'
      else (acc, n, s)
  | "" => (acc, n, s)
  end.

(** An optional sign: [true] for minus. *)
Definition sign (s : string) : bool * string :=
  match s with
  | String "-" s' => (true, s')
  | String "+" s' => (false, s')
  | _ => (false, s)
  end.

(** [int(s)] in base 10; [None] is [ValueError]. *)
Definition int (s : string) : option Z :=
  s0 ← drop_underscores None (strip s);
  let '(neg, s1) := sign s0 in
  let '(v, n, rest) := digits 0%N 0 s1 in
  if Nat.eqb n 0 then None
  else if String.eqb rest "" then Some (if neg then Z.opp (Z.of_N v) else Z.of_N v)
  else None.

(** The exponent part of a float literal, [e] or [E], a sign and digits;
    the empty string is exponent zero. *)
Definition exponent (s : string) : option Z :=
  match s with
  | "" => Some 0%Z
  | String c s' =>
      if Ascii.eqb (lower c) "e"
      then let '(neg, s1) := sign s' in
           let '(v, n, rest) := digits 0%N 0 s1 in
           if Nat.eqb n 0 then None
           else if String.eqb rest "" then Some (if neg then Z.opp (Z.of_N v) else Z.of_N v)
           else None
      else None
  end.

(** [float(s)]; [None] is [ValueError]. *)
Definition float_of_string (s : string) : option float :=
  s0 ← drop_underscores None (strip s);
  let '(neg, s1) := sign s0 in
  let w := lower_string s1 in
  if String.eqb w "inf" || String.eqb w "infinity" then Some (S754_infinity neg)
  else if String.eqb w "nan" then Some S754_nan
  else
    let '(ip, n1, s2) := digits 0%N 0 s1 in
    let '(m, n2, s3) :=
      match s2 with
      | String "." s2' => digits ip 0 s2'
      | _ => (ip, 0, s2)
      end in
    if Nat.eqb (n1 + n2) 0 then None
    else e ← exponent s3; Some (F64.of_decimal neg m (e - Z.of_nat n2)%Z).

End Py.

(** ** Exceptions *)

Inductive error : Type :=
  | IndexError                (* an index past the end of a list or array *)
  | ValueError                (* [float] or [int] of a malformed literal *)
  | KeyError (k : string)     (* [detector_dict[k]] with [k] absent *)
  | UnboundLocalError         (* the local [time] read before any assignment *)
  | InputError                (* [raise InputError(...)], the NF/IN case; the
                                 notebook binds no such name, so what surfaces
                                 at run time is the NameError of that line *)
  | AssertionError (k : string) (* [assert ..., "<k> key not found in ..."] *)
  | TypeError.                (* arithmetic or comparison on [None] *)

Inductive result (A : Type) : Type :=
  | Ok (a : A)
  | Raise (e : error).
Arguments Ok {A} a.
Arguments Raise {A} e.

#[global] Instance result_ret : MRet result := fun A a => Ok a.
#[global] Instance result_bind : MBind result := fun A B f r =>
  match r with
  | Ok a => f a
  | Raise e => Raise e
  end.

Definition or_raise {A : Type} (e : error) (o : option A) : result A :=
  match o with
  | Some a => Ok a
  | None => Raise e
  end.

(** ** Hits, the object store and runs *)

Record Hit : Type := mkHit {
  time : float;
  detector : string;
  energy : float
}.

(** [Hit.__lt__] *)
Definition Hit_lt (self other : Hit) : bool := F64.lt (time self) (time other).

(** The address of a [Hit] object; the store is indexed by address and a new
    object takes the next free one. *)
Abbreviation loc := nat.
Abbreviation heap := (list Hit).

Definition alloc (h : heap) (v : Hit) : loc * heap := (List.length h, (h ++ [v])%list).

Record CosimaSim : Type := mkSim {
  tstart : option float;
  tstop : option float;
  nthrown : option Z;
  hits : list loc
}.

(** [CosimaSim.__init__] *)
Definition CosimaSim_init : CosimaSim :=
  {| tstart := None; tstop := None; nthrown := None; hits := [] |}.

(** ** [CosimaSim.open] *)

(** numpy keeps strings in fixed-width cells padded with NUL, so an element
    read back from [np.array(list_of_str)] has lost its trailing NULs. *)
Fixpoint lstrip_nul (s : string) : string :=
  match s with
  | String c s' => if Ascii.eqb c zero then lstrip_nul s' else s
  | "" => ""
  end.

Definition np_str (s : string) : string :=
  String.rev (lstrip_nul (String.rev s)).

(** [np.array(fields)[[1,2,4]]] *)
Definition take_1_2_4 (fields : list string) : result (string * string * string) :=
  match fields !! 1, fields !! 2, fields !! 4 with
  | Some x, Some y, Some e => Ok (np_str x, np_str y, np_str e)
  | _, _, _ => Raise IndexError
  end.

(** [float(line.split()[1])] and [int(line.split()[1])] *)
Definition float_field (line : string) : result float :=
  tok ← or_raise IndexError (Py.split line !! 1);
  or_raise ValueError (Py.float_of_string tok).

Definition int_field (line : string) : result Z :=
  tok ← or_raise IndexError (Py.split line !! 1);
  or_raise ValueError (Py.int tok).

(** The variables of [open] that live across iterations of its loop, with
    the object store. [local_time] is the local [time], unbound until the
    first TI record. *)
Record frame : Type := mkFrame {
  store : heap;
  obj : CosimaSim;
  in_events : bool;
  local_time : option float
}.

Definition set_tstart (t : float) (fr : frame) : frame :=
  mkFrame (store fr)
    (mkSim (Some t) (tstop (obj fr)) (nthrown (obj fr)) (hits (obj fr)))
    (in_events fr) (local_time fr).

Definition set_tstop (t : float) (fr : frame) : frame :=
  mkFrame (store fr)
    (mkSim (tstart (obj fr)) (Some t) (nthrown (obj fr)) (hits (obj fr)))
    (in_events fr) (local_time fr).

Definition set_nthrown (n : Z) (fr : frame) : frame :=
  mkFrame (store fr)
    (mkSim (tstart (obj fr)) (tstop (obj fr)) (Some n) (hits (obj fr)))
    (in_events fr) (local_time fr).

Definition set_in_events (b : bool) (fr : frame) : frame :=
  mkFrame (store fr) (obj fr) b (local_time fr).

Definition set_local_time (t : float) (fr : frame) : frame :=
  mkFrame (store fr) (obj fr) (in_events fr) (Some t).

(** [obj.hits = np.append(obj.hits, Hit(detector, time, energy))] *)
Definition append_hit (v : Hit) (fr : frame) : frame :=
  let '(l, h') := alloc (store fr) v in
  mkFrame h'
    (mkSim (tstart (obj fr)) (tstop (obj fr)) (nthrown (obj fr)) (hits (obj fr) ++ [l])%list)
    (in_events fr) (local_time fr).

Section Open.

Variable detector_dict : gmap string string.
Variable time_shift : float.

(** The chain [if key == 'TB': ... elif ...] that ends the loop body. *)
Definition global_keys (key line : string) (fr : frame) : result frame :=
  if String.eqb key "TB" then
    t ← float_field line; Ok (set_tstart (F64.add t time_shift) fr)
  else if String.eqb key "SE" then
    Ok (set_in_events true fr)
  else if String.eqb key "TE" then
    t ← float_field line; Ok (set_tstop (F64.add t time_shift) fr)
  else if String.eqb key "TS" then
    n ← int_field line; Ok (set_nthrown n fr)
  else if String.eqb key "NF" || String.eqb key "IN" then
    Raise InputError
  else Ok fr.

(** The statements under [if key != "HT": continue] for an HT record. *)
Definition read_hit (line : string) (fr : frame) : result frame :=
  '(x, y, e) ← take_1_2_4 (Py.split_on ";" line);
  let k := Py.strip x +:+ "," +:+ Py.strip y in
  d ← or_raise (KeyError k) (detector_dict !! k);
  en ← or_raise ValueError (Py.float_of_string e);
  t ← or_raise UnboundLocalError (local_time fr);
  Ok (append_hit (mkHit t d en) fr).

(** One iteration of the [while True] loop, for a line that is not empty. *)
Definition step (fr : frame) (line : string) : result frame :=
  let key := Py.prefix2 line in
  if in_events fr then
    if String.eqb key "EN" then Ok (set_in_events false fr)
    else
      fr1 ← (if String.eqb key "TI"
             then t ← float_field line; Ok (set_local_time (F64.add t time_shift) fr)
             else Ok fr);
      if negb (String.eqb key "HT") then Ok fr1
      else fr2 ← read_hit line fr1; global_keys key line fr2
  else global_keys key line fr.

(** The loop: [lines] are the successive results of [file.readline()];
    the empty string is the end of the file. *)
Fixpoint scan (fr : frame) (lines : list string) : result frame :=
  match lines with
  | [] => Ok fr
  | line :: rest =>
      if String.eqb line "" then Ok fr
      else fr' ← step fr line; scan fr' rest
  end.

(** The three [assert]s after the loop (the interpreter runs them: it is not
    started with [-O]). *)
Definition check_fields (sim : CosimaSim) : result CosimaSim :=
  match tstart sim with
  | None => Raise (AssertionError "TB")
  | Some _ =>
      match tstop sim with
      | None => Raise (AssertionError "TE")
      | Some _ =>
          match nthrown sim with
          | None => Raise (AssertionError "TS")
          | Some _ => Ok sim
          end
      end
  end.

Definition init_frame (h : heap) : frame := mkFrame h CosimaSim_init false None.

Definition open (h : heap) (lines : list string) : result (CosimaSim * heap) :=
  fr ← scan (init_frame h) lines;
  sim ← check_fields (obj fr);
  Ok (sim, store fr).

End Open.

(** ** [CosimaSim.merge] *)

(** Python's [min(a, b)] and [max(a, b)]: the first argument is kept unless
    the second compares strictly better. *)
Definition py_min (a b : float) : float := if F64.lt b a then b else a.
Definition py_max (a b : float) : float := if F64.gt b a then b else a.

(** [hit.time = hit.time + shift], on the object itself *)
Definition shift_hit (shift : float) (v : Hit) : Hit :=
  mkHit (F64.add (time v) shift) (detector v) (energy v).

(** The array of objects behind a sequence of addresses: the hit values a
    run holds, read through the store. *)
Definition objects (h : heap) (ls : list loc) : list Hit :=
  omap (fun l => h !! l) ls.

(** The loop [for hit in sim2.hits]: writes the shifted time into each hit of
    [sim2] and appends that same object to [self.hits]. *)
Fixpoint merge_loop (shift : float) (todo : list loc) (h : heap) (self_hits : list loc)
  : heap * list loc :=
  match todo with
  | [] => (h, self_hits)
  | hit :: rest =>
      merge_loop shift rest (alter (shift_hit shift) hit h) (self_hits ++ [hit])%list
  end.

Section Merge.

(** [np.argsort] of an object array, with the default [kind]: the elements
    are compared with [Hit.__lt__]. *)
Variable argsort : list Hit -> list nat.

Definition merge (h : heap) (self sim2 : CosimaSim) (shift : float)
  : result (CosimaSim * heap) :=
  (* self.tstart = min(self.tstart, sim2.tstart + shift) *)
  a1 ← or_raise TypeError (tstart self);
  b1 ← or_raise TypeError (tstart sim2);
  let self_tstart := py_min a1 (F64.add b1 shift) in
  (* self.tstop = max(self.tstop, sim2.tstop + shift) *)
  a2 ← or_raise TypeError (tstop self);
  b2 ← or_raise TypeError (tstop sim2);
  let self_tstop := py_max a2 (F64.add b2 shift) in
  (* self.nthrown += sim2.nthrown *)
  n1 ← or_raise TypeError (nthrown self);
  n2 ← or_raise TypeError (nthrown sim2);
  let self_nthrown := (n1 + n2)%Z in
  (* for hit in sim2.hits: ... *)
  let '(h', self_hits) := merge_loop shift (hits sim2) h (hits self) in
  (* hits_sort = np.argsort(self.hits) *)
  let hits_sort := argsort (objects h' self_hits) in
  (* self.hits = [self.hits[n] for n in hits_sort] *)
  self_hits ← or_raise IndexError (mapM (fun n => self_hits !! n) hits_sort);
  Ok (mkSim (Some self_tstart) (Some self_tstop) (Some self_nthrown) self_hits, h').

End Merge.

(** ** [np.argsort] *)

(** Two sorts that can stand for [np.argsort]. *)
Module Npysort.

Section Indirect.

(** The array being sorted; the sort moves indices into it and looks at
    the elements only through [cmp(v[i], v[j]) < 0]. *)
Variable v : list Hit.

Definition lt (i j : nat) : bool :=
  match v !! i, v !! j with
  | Some x, Some y => Hit_lt x y
  | _, _ => false
  end.

(** *** An insertion sort, as [kind='stable'] would order the indices *)

Fixpoint insert (i : nat) (sorted : list nat) : list nat :=
  match sorted with
  | [] => [i]
  | j :: rest => if lt j i then j :: insert i rest else i :: j :: rest
  end.

Definition insertion_argsort : list nat :=
  foldr insert [] (seq 0 (List.length v)).

(** *** The default [kind], numpy's indirect introsort [npy_aquicksort]

    [tosort] is the index array, [pl], [pr], [pm], [pi], [pj], [pk]
    are positions in it. *)

Definition get (tosort : list nat) (p : nat) : nat := nth p tosort 0.

Definition INTP_SWAP (tosort : list nat) (p q : nat) : list nat :=
  <[q := get tosort p]> (<[p := get tosort q]> tosort).

(** [while (pj > pl && cmp(vp, v[*pk]) < 0) { *pj-- = *pk--; } *pj = vi;]
    with [pk = pj - 1] throughout *)
Fixpoint insertion_shift (tosort : list nat) (pl pj vi : nat) : list nat :=
  match pj with
  | O => <[pj := vi]> tosort
  | S pk =>
      if Nat.ltb pl pj && lt vi (get tosort pk)
      then insertion_shift (<[pj := get tosort pk]> tosort) pl pk vi
      else <[pj := vi]> tosort
  end.

(** [for (pi = pl + 1; pi <= pr; ++pi)], [count] iterations left *)
Fixpoint insertion_loop (count : nat) (tosort : list nat) (pl pi : nat) : list nat :=
  match count with
  | O => tosort
  | S count' =>
      insertion_loop count' (insertion_shift tosort pl pi (get tosort pi)) pl (S pi)
  end.

Definition insertion_sort (tosort : list nat) (pl pr : nat) : list nat :=
  insertion_loop (pr - pl) tosort pl (S pl).

(** The sift-down of [npy_aheapsort], on the 1-based array [a]: the
    position [i] is free, [tmp] is the index to place, [j] the child
    to look at, [n] the heap size. *)
Fixpoint sift (fuel : nat) (a : list nat) (tmp i j n : nat) : list nat :=
  match fuel with
  | O => <[i := tmp]> a
  | S fuel' =>
      if Nat.leb j n then
        let j := if Nat.ltb j n && lt (get a j) (get a (S j)) then S j else j in
        if lt tmp (get a j)
        then sift fuel' (<[i := get a j]> a) tmp j (j + j) n
        else <[i := tmp]> a
      else <[i := tmp]> a
  end.

(** [for (l = n >> 1; l > 0; --l)] *)
Fixpoint heapify (l : nat) (a : list nat) (n : nat) : list nat :=
  match l with
  | O => a
  | S l' => heapify l' (sift n a (get a l) l (l + l) n) n
  end.

(** [for (; n > 1;)] *)
Fixpoint heap_extract (n : nat) (a : list nat) : list nat :=
  match n with
  | S (S _ as n') =>
      let tmp := get a n in
      let a := <[n := get a 1]> a in
      heap_extract n' (sift n' a tmp 1 2 n')
  | _ => a
  end.

(** [npy_aheapsort(vv, pl, pr - pl + 1, varr)]: the segment is sorted
    through [a = tosort - 1], so it is moved to positions [1..n] here. *)
Definition aheapsort (tosort : list nat) (pl pr : nat) : list nat :=
  let n := S pr - pl in
  let a := 0 :: take n (drop pl tosort) in
  let a := heap_extract n (heapify (Nat.div2 n) a n) in
  (take pl tosort ++ drop 1 a ++ drop (pl + n) tosort)%list.

(** [do { ++pi; } while (cmp(v[*pi], vp) < 0);] *)
Fixpoint scan_up (fuel : nat) (tosort : list nat) (vp pi : nat) : nat :=
  match fuel with
  | O => S pi
  | S fuel' =>
      if lt (get tosort (S pi)) vp then scan_up fuel' tosort vp (S pi) else S pi
  end.

(** [do { --pj; } while (cmp(vp, v[*pj]) < 0);] *)
Fixpoint scan_down (fuel : nat) (tosort : list nat) (vp pj : nat) : nat :=
  match fuel with
  | O => pred pj
  | S fuel' =>
      if lt vp (get tosort (pred pj)) then scan_down fuel' tosort vp (pred pj)
      else pred pj
  end.

(** The [for (;;)] loop of the partition; returns the array and [pi]. *)
Fixpoint partition_loop (fuel : nat) (tosort : list nat) (vp pi pj : nat)
  : list nat * nat :=
  match fuel with
  | O => (tosort, pi)
  | S fuel' =>
      let pi := scan_up (List.length tosort) tosort vp pi in
      let pj := scan_down (List.length tosort) tosort vp pj in
      if Nat.leb pj pi then (tosort, pi)
      else partition_loop fuel' (INTP_SWAP tosort pi pj) vp pi pj
  end.

(** The body of [while ((pr - pl) > SMALL_QUICKSORT)] up to the second
    swap with [pk]; returns the array and the pivot's position. *)
Definition partition (tosort : list nat) (pl pr : nat) : list nat * nat :=
  let pm := pl + Nat.div2 (pr - pl) in
  let tosort := if lt (get tosort pm) (get tosort pl) then INTP_SWAP tosort pm pl else tosort in
  let tosort := if lt (get tosort pr) (get tosort pm) then INTP_SWAP tosort pr pm else tosort in
  let tosort := if lt (get tosort pm) (get tosort pl) then INTP_SWAP tosort pm pl else tosort in
  let vp := get tosort pm in
  let pi := pl in
  let pj := pr - 1 in
  let tosort := INTP_SWAP tosort pm pj in
  let '(tosort, pi) := partition_loop (List.length tosort) tosort vp pi pj in
  let pk := pr - 1 in
  (INTP_SWAP tosort pi pk, pi).

(** Segments of 17 and more elements are partitioned ([pr - pl > 15]);
    shorter ones go to the insertion sort. *)
Definition SMALL_QUICKSORT : nat := 15.

(** [npy_get_msb] *)
Definition npy_get_msb (unum : nat) : Z := Z.log2 (Z.of_nat unum).

(** The inner [while] loop from [(pl, pr)] with depth [cdepth]: the
    partitions pushed on the stack, then the segment left for the
    insertion sort. *)
Fixpoint quick_loop (fuel : nat) (tosort : list nat) (pl pr : nat) (cdepth : Z)
    (stack : list (nat * nat * Z)) : list nat * nat * nat * list (nat * nat * Z) :=
  match fuel with
  | O => (tosort, pl, pr, stack)
  | S fuel' =>
      if Nat.ltb SMALL_QUICKSORT (pr - pl) then
        let '(tosort, pi) := partition tosort pl pr in
        let cdepth := (cdepth - 1)%Z in
        if Nat.ltb (pi - pl) (pr - pi)
        then quick_loop fuel' tosort pl (pi - 1) cdepth ((pi + 1, pr, cdepth) :: stack)
        else quick_loop fuel' tosort (pi + 1) pr cdepth ((pl, pi - 1, cdepth) :: stack)
      else (tosort, pl, pr, stack)
  end.

(** The outer [while (1)] loop. *)
Fixpoint outer_loop (fuel : nat) (tosort : list nat) (pl pr : nat) (cdepth : Z)
    (stack : list (nat * nat * Z)) : list nat :=
  match fuel with
  | O => tosort
  | S fuel' =>
      let '(tosort, stack) :=
        if Z.ltb cdepth 0 then (aheapsort tosort pl pr, stack)
        else
          let '(tosort, pl, pr, stack) :=
            quick_loop (List.length tosort) tosort pl pr cdepth stack in
          (insertion_sort tosort pl pr, stack) in
      match stack with
      | [] => tosort
      | (pl, pr, cdepth) :: stack => outer_loop fuel' tosort pl pr cdepth stack
      end
  end.

Definition aquicksort : list nat :=
  let num := List.length v in
  outer_loop (S num) (seq 0 num) 0 (num - 1) (npy_get_msb num * 2) [].

End Indirect.

End Npysort.

(** ** [np.digitize] *)

Module Np.

(** numpy's sorting order on floats, with NaN after everything else. *)
Definition less (a b : float) : bool :=
  F64.lt a b || (F64.is_nan b && negb (F64.is_nan a)).

(** [check_array_monotonic]: 1 for non-decreasing, -1 for non-increasing,
    0 for neither. *)
Fixpoint skip_repeated (last : float) (a : list float) : list float :=
  match a with
  | x :: a' => if F64.eq x last then skip_repeated last a' else a
  | [] => []
  end.

Fixpoint still_increasing (last : float) (a : list float) : bool :=
  match a with
  | next :: a' => if F64.gt last next then false else still_increasing next a'
  | [] => true
  end.

Fixpoint still_decreasing (last : float) (a : list float) : bool :=
  match a with
  | next :: a' => if F64.lt last next then false else still_decreasing next a'
  | [] => true
  end.

Definition check_array_monotonic (a : list float) : Z :=
  match a with
  | [] => 1
  | last :: a' =>
      match skip_repeated last a' with
      | [] => 1
      | next :: a'' =>
          if F64.lt last next
          then (if still_increasing next a'' then 1 else 0)
          else (if still_decreasing next a'' then -1 else 0)
      end
  end%Z.

(** The binary search of [searchsorted(arr, key, side='right')] between
    [min_idx] and [max_idx]. *)
Fixpoint binsearch_right (fuel : nat) (arr : list float) (key : float)
    (min_idx max_idx : nat) : nat :=
  match fuel with
  | O => min_idx
  | S fuel' =>
      if Nat.ltb min_idx max_idx then
        let mid_idx := min_idx + Nat.div2 (max_idx - min_idx) in
        match arr !! mid_idx with
        | Some mid_val =>
            if less key mid_val
            then binsearch_right fuel' arr key min_idx mid_idx
            else binsearch_right fuel' arr key (mid_idx + 1) max_idx
        | None => min_idx
        end
      else min_idx
  end.

Definition searchsorted_right (arr : list float) (key : float) : nat :=
  binsearch_right (List.length arr) arr key 0 (List.length arr).

(** [np.digitize(x, bins)] for a scalar [x], [right=False]. *)
Definition digitize (x : float) (bins : list float) : result Z :=
  let mono := check_array_monotonic bins in
  if Z.eqb mono 0 then Raise ValueError
  else if Z.eqb mono (-1) then
    Ok (Z.of_nat (List.length bins) - Z.of_nat (searchsorted_right (rev bins) x))%Z
  else Ok (Z.of_nat (searchsorted_right bins x)).

End Np.

(** ** [CosimaSim.to_TTE] *)

(** The arguments handed to [EventList.from_lists]. *)
Record EventList : Type := mkEventList {
  times_list : list float;
  pha_list : list Z;
  chan_lo : list float;
  chan_hi : list float
}.

(** The two statements that compute [energy_channel] for one hit. *)
Definition energy_channel (energy_channel_edges : list float) (e : float) : result Z :=
  let nchannels := (Z.of_nat (List.length energy_channel_edges) - 1)%Z in
  d ← Np.digitize e energy_channel_edges;
  Ok (Z.min (nchannels - 1) (Z.max 0 (d - 1))).

(** The loop [for hit in self.hits], with its two accumulators. *)
Fixpoint to_TTE_loop (energy_channel_edges : list float) (todo : list Hit)
    (times : list float) (energy_channels : list Z) : result (list float * list Z) :=
  match todo with
  | [] => Ok (times, energy_channels)
  | hit :: rest =>
      c ← energy_channel energy_channel_edges (energy hit);
      to_TTE_loop energy_channel_edges rest
        (times ++ [time hit])%list (energy_channels ++ [c])%list
  end.

(** [edges[:-1]] and [edges[1:]] *)
Definition all_but_last (l : list float) : list float := take (List.length l - 1) l.
Definition all_but_first (l : list float) : list float := drop 1 l.

(** The edges are given in keV, so that [e.to(u.keV).value] is the edge
    itself. *)
Definition to_TTE (h : heap) (self : CosimaSim) (energy_channel_edges : list float)
  : result EventList :=
  '(times, energy_channels) ←
    to_TTE_loop energy_channel_edges (objects h (hits self)) [] [];
  Ok (mkEventList times energy_channels
        (all_but_last energy_channel_edges) (all_but_first energy_channel_edges)).

(** ** The inputs of the notebook and of the scenarios *)

(** Cell 6 of the notebook. *)
Definition detector_dict : gmap string string :=
  <["4.88500,4.88500" := "q0"]> (<["-4.88500,4.88500" := "q1"]>
  (<["-4.88500,-4.88500" := "q2"]> (<["4.88500,-4.88500" := "q3"]> ∅))).

Definition zero_shift : float := S754_zero false.

(** A file given by its lines: each ends with a newline, as [readline]
    returns them. *)
Definition newline : string := String (ascii_of_nat 10) "".
Definition file (ls : list string) : list string := map (fun s => s +:+ newline) ls.

Definition log_A : list string :=
  file ["TB 0"; "TE 10"; "TS 100"; "SE"; "TI 1.5"; "HT ;4.88500;4.88500;;50.0"; "EN"].

Definition log_NF_in_block : list string :=
  file ["TB 0"; "TE 10"; "TS 100"; "SE"; "NF next.sim"; "EN"].

Definition log_IN_in_block : list string :=
  file ["TB 0"; "TE 10"; "TS 100"; "SE"; "IN other.sim"; "EN"].




Definition HT_line : string := "HT ;4.88500;4.88500;;50.0" +:+ newline.

(** Two runs in one store, as two calls of [open] leave them, and the shift
    of cell 6. *)
Definition heap_AB : heap :=
  [mkHit (F64.of_decimal false 15 (-1)) "q0" (F64.of_int 50);
   mkHit (F64.of_decimal false 5 (-1)) "q1" (F64.of_int 20);
   mkHit (F64.of_int 3) "q2" (F64.of_int 30);
   mkHit (F64.of_int 6) "q3" (F64.of_int 10)].
Definition sim_A : CosimaSim :=
  mkSim (Some (F64.of_int 0)) (Some (F64.of_int 10)) (Some 100%Z) [0; 1].
Definition sim_B : CosimaSim :=
  mkSim (Some (F64.of_int 0)) (Some (F64.of_int 10)) (Some 50%Z) [2; 3].
Definition shift_cell6 : float := F64.of_int (-5).

(** Twenty hits that all fall on time 1 once the second run is shifted by -5:
    ten of the first run at time 1, ten of the second at time 6. *)
Definition heap_ties : heap :=
  map (fun i => mkHit (F64.of_int 1) "q0" (F64.of_int (Z.of_nat i))) (seq 0 10)
  ++ map (fun i => mkHit (F64.of_int 6) "q1" (F64.of_int (Z.of_nat i))) (seq 10 10).
Definition sim_ties_A : CosimaSim :=
  mkSim (Some (F64.of_int 0)) (Some (F64.of_int 10)) (Some 100%Z) (seq 0 10).
Definition sim_ties_B : CosimaSim :=
  mkSim (Some (F64.of_int 5)) (Some (F64.of_int 15)) (Some 100%Z) (seq 10 10).

(** Twenty-five hits in no order, with repeated times, to run the sorts on. *)
Definition heap_sample : heap :=
  map (fun t => mkHit (F64.of_int t) "q0" (F64.of_int 1))
    [5; 3; 9; 1; 1; 7; 2; 8; 6; 4; 0; 15; 13; 19; 11; 11; 17; 12; 18; 16; 14; 10; 3; 3; 7]%Z.

(** The edge table of scenario E. *)
Definition edges_E : list float :=
  [F64.of_decimal false 45 (-1); F64.of_int 10; F64.of_int 100; F64.of_int 2000].

(** ** Vocabulary of the statements *)

(** Every address a run holds names an object of the store. *)
Definition allocated (h : heap) (sim : CosimaSim) : Prop :=
  Forall (fun l => l < List.length h) (hits sim).

(** No timestamp is NaN. *)
Definition times_are_numbers (vs : list Hit) : Prop :=
  Forall (fun v => F64.is_nan (time v) = false) vs.

(** Ascending time. *)
Definition sorted_by_time (vs : list Hit) : Prop :=
  StronglySorted (fun x y => F64.le (time x) (time y) = true) vs.

(** [v[p]]: the elements of [v] at the indices [p], in the order of [p]. *)
Definition take_indices {A : Type} (v : list A) (p : list nat) : list A :=
  omap (fun n => v !! n) p.

(** The elements whose timestamp equals [t], in the order they have in [l]. *)
Definition ties {A : Type} (key : A -> option float) (t : float) (l : list A) : list A :=
  List.filter (fun x => match key x with Some k => F64.eq k t | None => false end) l.

(** [after] keeps the elements of equal timestamp in the order of [before]. *)
Definition keeps_ties {A : Type} (key : A -> option float) (before after : list A) : Prop :=
  forall t, ties key t after = ties key t before.

Definition time_at (h : heap) (l : loc) : option float := time <$> h !! l.
Definition time_of_index (v : list Hit) (i : nat) : option float := time <$> v !! i.

(** The order of two indices of [v], by the times found there. *)
Definition index_le (v : list Hit) (i j : nat) : Prop :=
  exists x y, v !! i = Some x /\ v !! j = Some y /\ F64.le (time x) (time y) = true.

(** An edge table: each edge is strictly below the next. *)
Fixpoint strictly_increasing (edges : list float) : bool :=
  match edges with
  | x :: (y :: _) as rest => F64.lt x y && strictly_increasing rest
  | _ => true
  end.

(** What the loop of [merge] leaves in the store. *)
Definition shift_all (shift : float) (todo : list loc) (h : heap) : heap :=
  foldl (fun h l => alter (shift_hit shift) l h) h todo.

(** ** Cell 6 of the notebook *)

(** [sim = open(...); bkg = open(...); sim.merge(bkg, shift=-5*u.second);
    tte = sim.to_TTE(energy_edges, ...)], from an empty store. The two files
    are given by their lines, and the edges ([np.geomspace(4.5, 2000, 129)]
    in the notebook) are a parameter. *)
Definition cell6 (argsort : list Hit -> list nat)
    (signal bkg : list string) (energy_edges : list float) : result EventList :=
  '(sim, h1) ← open detector_dict zero_shift [] signal;
  '(bkg, h2) ← open detector_dict zero_shift h1 bkg;
  '(sim, h3) ← merge argsort h2 sim bkg shift_cell6;
  to_TTE h3 sim energy_edges.

(** ** More vocabulary *)

(** The keys that [open] compares a line's key with. *)
Definition known_keys : list string :=
  ["TB"; "SE"; "TE"; "TS"; "NF"; "IN"; "EN"; "TI"; "HT"].


(** The lines of a log whose key is HT. *)
Definition HT_lines (lines : list string) : list string :=
  List.filter (fun l => String.eqb (Py.prefix2 l) "HT") lines.

(** Two hits, two runs, two frames that differ at most in their times. *)
Definition same_but_time (v v' : Hit) : Prop :=
  detector v = detector v' /\ energy v = energy v'.

Definition same_run_but_times (sim sim' : CosimaSim) : Prop :=
  (is_Some (tstart sim) <-> is_Some (tstart sim'))
  /\ (is_Some (tstop sim) <-> is_Some (tstop sim'))
  /\ nthrown sim = nthrown sim'
  /\ hits sim = hits sim'.

Definition same_frame_but_times (fr fr' : frame) : Prop :=
  Forall2 same_but_time (store fr) (store fr')
  /\ same_run_but_times (obj fr) (obj fr')
  /\ in_events fr = in_events fr'
  /\ (is_Some (local_time fr) <-> is_Some (local_time fr')).

(** Two calls end alike: with the same exception, or with related values. *)
Definition same_outcome {A : Type} (R : A -> A -> Prop) (r r' : result A) : Prop :=
  match r, r' with
  | Ok a, Ok a' => R a a'
  | Raise e, Raise e' => e = e'
  | _, _ => False
  end.

(** ** Vocabulary of the proofs about the default sort *)

(** The positions [lo .. hi - 1] of the index array [t] hold indices of
    elements in ascending order. *)
Definition sorted_range (v : list Hit) (t : list nat) (lo hi : nat) : Prop :=
  forall i j, lo <= i -> i < j -> j < hi ->
    Npysort.lt v (Npysort.get t j) (Npysort.get t i) = false.

(** [t'] is [t] with the positions [pl .. pr] rearranged among themselves. *)
Definition seg_perm (pl pr : nat) (t t' : list nat) : Prop :=
  t' ≡ₚ t
  /\ (forall k, k < pl \/ pr < k -> Npysort.get t' k = Npysort.get t k)
  /\ (forall j, pl <= j <= pr ->
        exists j', pl <= j' <= pr /\ Npysort.get t' j = Npysort.get t j').

(** In the 1-based heap [a] of size [n], no node from [lo] on is below one
    of its two children. *)
Definition heap_order (v : list Hit) (a : list nat) (lo n : nat) : Prop :=
  forall p c, lo <= p -> c = 2 * p \/ c = 2 * p + 1 -> c <= n ->
    Npysort.lt v (Npysort.get a p) (Npysort.get a c) = false.

(** The segment [(pl, pr)] of a stack entry. *)
Definition seg_of (e : nat * nat * Z) : nat * nat := (e.1.1, e.1.2).

(** Two segments [(pl, pr)] that do not overlap. *)
Definition apart (s s' : nat * nat) : Prop := s.2 < s'.1 \/ s'.2 < s.1.

(** The segments still to be sorted, the one at hand and those on the
    stack, are pairwise apart. *)
Fixpoint disjoint_segs (segs : list (nat * nat)) : Prop :=
  match segs with
  | [] => True
  | s :: rest => Forall (apart s) rest /\ disjoint_segs rest
  end.

(** The positions [i <= j] both lie in the segment [s]. *)
Definition within (i j : nat) (s : nat * nat) : Prop := s.1 <= i /\ j <= s.2.

(** The number of positions in the segments. *)
Fixpoint total_size (segs : list (nat * nat)) : nat :=
  match segs with
  | [] => 0
  | s :: rest => S (s.2 - s.1) + total_size rest
  end.

(** What holds between two steps of the sort: the array is a permutation
    of the indices, the pending segments lie in the array and apart from each
    other, and any two positions are in order unless they lie in one pending
    segment. *)
Definition segs_inv (v : list Hit) (t : list nat) (segs : list (nat * nat)) : Prop :=
  t ≡ₚ seq 0 (List.length v)
  /\ Forall (fun s => s.1 <= s.2 /\ s.2 < List.length v) segs
  /\ disjoint_segs segs
  /\ forall i j, i < j -> j < List.length v ->
       Exists (within i j) segs
       \/ Npysort.lt v (Npysort.get t j) (Npysort.get t i) = false.

(** Sorted, and with the indices of equal elements in increasing order. *)
Definition stable_range (v : list Hit) (t : list nat) (lo hi : nat) : Prop :=
  forall i j, lo <= i -> i < j -> j < hi ->
    Npysort.lt v (Npysort.get t j) (Npysort.get t i) = false
    /\ (Npysort.lt v (Npysort.get t i) (Npysort.get t j) = false ->
        Npysort.get t i < Npysort.get t j).

(** Every entry of the index array is an index of [v]. *)
Definition valid_indices (v : list Hit) (t : list nat) : Prop :=
  forall k, Npysort.get t k < List.length v.

(** * Properties *)

(** ** The order on binary64 numbers *)

Module F64Facts.

Ltac cmp_cases :=
  repeat match goal with
  | H : context [Z.compare ?a ?b] |- _ => destruct (Z.compare_spec a b)
  | |- context [Z.compare ?a ?b] => destruct (Z.compare_spec a b)
  | H : context [PosDef.Pos.compare_cont Eq ?a ?b] |- _ =>
      change (PosDef.Pos.compare_cont Eq a b) with (Pos.compare a b) in *;
      destruct (Pos.compare_spec a b)
  | |- context [PosDef.Pos.compare_cont Eq ?a ?b] =>
      change (PosDef.Pos.compare_cont Eq a b) with (Pos.compare a b) in *;
      destruct (Pos.compare_spec a b)
  end.

Ltac sf_order :=
  simpl; try congruence; intros; cmp_cases; simpl in *; try congruence; try lia.

Lemma compare_lt_trans x y z :
  SFcompare x y = Some Lt -> SFcompare y z = Some Lt -> SFcompare x z = Some Lt.
Proof.
  destruct x as [[]|[]| |[] mx ex], y as [[]|[]| |[] my ey], z as [[]|[]| |[] mz ez];
    sf_order.
Qed.

Lemma compare_eq_lt_trans x y z :
  SFcompare x y = Some Eq -> SFcompare y z = Some Lt -> SFcompare x z = Some Lt.
Proof.
  destruct x as [[]|[]| |[] mx ex], y as [[]|[]| |[] my ey], z as [[]|[]| |[] mz ez];
    sf_order.
Qed.

Lemma compare_lt_eq_trans x y z :
  SFcompare x y = Some Lt -> SFcompare y z = Some Eq -> SFcompare x z = Some Lt.
Proof.
  destruct x as [[]|[]| |[] mx ex], y as [[]|[]| |[] my ey], z as [[]|[]| |[] mz ez];
    sf_order.
Qed.

Lemma compare_eq_trans x y z :
  SFcompare x y = Some Eq -> SFcompare y z = Some Eq -> SFcompare x z = Some Eq.
Proof.
  destruct x as [[]|[]| |[] mx ex], y as [[]|[]| |[] my ey], z as [[]|[]| |[] mz ez];
    sf_order.
Qed.

Lemma compare_antisym x y c :
  SFcompare x y = Some c -> SFcompare y x = Some (CompOpp c).
Proof.
  destruct x as [[]|[]| |[] mx ex], y as [[]|[]| |[] my ey];
    simpl; try congruence; intros [= <-]; try reflexivity;
    cmp_cases; simpl in *; try congruence; try lia.
Qed.

Lemma compare_total x y :
  F64.is_nan x = false -> F64.is_nan y = false -> exists c, SFcompare x y = Some c.
Proof.
  destruct x as [[]|[]| |[] mx ex], y as [[]|[]| |[] my ey]; simpl; try congruence; eauto.
Qed.

Lemma compare_not_nan x y c :
  SFcompare x y = Some c -> F64.is_nan x = false /\ F64.is_nan y = false.
Proof. destruct x as [[]|[]| |[] mx ex], y as [[]|[]| |[] my ey]; simpl; try congruence; auto. Qed.

(** The boolean tests, through [SFcompare]. *)
Lemma lt_compare x y : F64.lt x y = true <-> SFcompare x y = Some Lt.
Proof.
  unfold F64.lt, SFltb. destruct (SFcompare x y) as [[]|]; split; congruence.
Qed.

Lemma le_compare x y :
  F64.le x y = true <-> SFcompare x y = Some Lt \/ SFcompare x y = Some Eq.
Proof.
  unfold F64.le, SFleb. destruct (SFcompare x y) as [[]|]; split; try congruence; auto;
    intros [?|?]; congruence.
Qed.

Lemma eq_compare x y : F64.eq x y = true <-> SFcompare x y = Some Eq.
Proof.
  unfold F64.eq, SFeqb. destruct (SFcompare x y) as [[]|]; split; congruence.
Qed.

Lemma lt_not_nan x y : F64.lt x y = true -> F64.is_nan x = false /\ F64.is_nan y = false.
Proof. rewrite lt_compare. apply compare_not_nan. Qed.

Lemma le_not_nan x y : F64.le x y = true -> F64.is_nan x = false /\ F64.is_nan y = false.
Proof. rewrite le_compare. intros [H|H]; exact (compare_not_nan _ _ _ H). Qed.

Lemma lt_irrefl x : F64.lt x x = false.
Proof.
  destruct (F64.lt x x) eqn:E; [|done]. apply lt_compare in E.
  pose proof (compare_antisym _ _ _ E) as E'. simpl in E'. congruence.
Qed.

Lemma lt_asym x y : F64.lt x y = true -> F64.lt y x = false.
Proof.
  intros H. apply lt_compare in H. apply compare_antisym in H. simpl in H.
  unfold F64.lt, SFltb. by rewrite H.
Qed.

Lemma lt_trans x y z : F64.lt x y = true -> F64.lt y z = true -> F64.lt x z = true.
Proof. rewrite !lt_compare. apply compare_lt_trans. Qed.

Lemma lt_le x y : F64.lt x y = true -> F64.le x y = true.
Proof. rewrite lt_compare, le_compare. auto. Qed.

Lemma le_trans x y z : F64.le x y = true -> F64.le y z = true -> F64.le x z = true.
Proof.
  rewrite !le_compare. intros [H1|H1] [H2|H2].
  - left. eapply compare_lt_trans; eauto.
  - left. eapply compare_lt_eq_trans; eauto.
  - left. eapply compare_eq_lt_trans; eauto.
  - right. eapply compare_eq_trans; eauto.
Qed.

Lemma le_lt_false x y : F64.le x y = true -> F64.lt y x = false.
Proof.
  rewrite le_compare. intros [H|H]; apply compare_antisym in H; simpl in H;
    unfold F64.lt, SFltb; by rewrite H.
Qed.

(** Without NaN the order is total. *)
Lemma not_lt_le x y :
  F64.is_nan x = false -> F64.is_nan y = false -> F64.lt y x = false -> F64.le x y = true.
Proof.
  intros Hx Hy H. destruct (compare_total x y Hx Hy) as [c Hc].
  apply le_compare. destruct c; auto.
  apply compare_antisym in Hc. simpl in Hc. apply lt_compare in Hc. congruence.
Qed.

Lemma le_refl x : F64.is_nan x = false -> F64.le x x = true.
Proof. intros H. apply not_lt_le; auto using lt_irrefl. Qed.

Lemma eq_lt_false x y : F64.eq x y = true -> F64.lt x y = false.
Proof.
  rewrite eq_compare. intros H. unfold F64.lt, SFltb. by rewrite H.
Qed.

Lemma eq_sym x y : F64.eq x y = true -> F64.eq y x = true.
Proof. rewrite !eq_compare. intros H. by apply compare_antisym in H. Qed.

End F64Facts.

(** ** The scan of [open] *)

Section ScanFacts.

Context (detector_dict : gmap string string) (time_shift : float).

Lemma key_nonempty (line k : string) : Py.prefix2 line = k -> k <> "" -> line <> "".
Proof. intros <- H ->. by apply H. Qed.

Lemma eqb_empty_false (line : string) : line <> "" -> String.eqb line "" = false.
Proof. intros H. by apply String.eqb_neq. Qed.

Lemma scan_cons fr line rest :
  line <> "" ->
  scan detector_dict time_shift fr (line :: rest)
  = step detector_dict time_shift fr line ≫= fun fr' => scan detector_dict time_shift fr' rest.
Proof. intros H. simpl. by rewrite eqb_empty_false. Qed.

Lemma scan_app fr p q :
  Forall (fun x => x <> "") p ->
  scan detector_dict time_shift fr (p ++ q)
  = scan detector_dict time_shift fr p ≫= fun fr' => scan detector_dict time_shift fr' q.
Proof.
  intros Hp. revert fr. induction Hp as [|x p Hx Hp IH]; intros fr; [done|].
  rewrite <- app_comm_cons, !scan_cons by done.
  destruct (step detector_dict time_shift fr x) as [fr'|e]; simpl; [apply IH|done].
Qed.

(** Outside an event block the loop body is the chain of global keys. *)
Lemma step_outside fr line :
  in_events fr = false ->
  step detector_dict time_shift fr line = global_keys time_shift (Py.prefix2 line) line fr.
Proof. intros H. unfold step. by rewrite H. Qed.

(** Inside an event block every key but EN, TI and HT is skipped. *)
Lemma step_inside_skip fr line :
  in_events fr = true ->
  Py.prefix2 line <> "EN" -> Py.prefix2 line <> "TI" -> Py.prefix2 line <> "HT" ->
  step detector_dict time_shift fr line = Ok fr.
Proof.
  intros H H1 H2 H3. unfold step. rewrite H.
  apply String.eqb_neq in H1, H2, H3. by rewrite H1, H2, H3.
Qed.


(** A hit that is read carries the current value of the local [time]. *)
Lemma read_hit_inv line fr fr' :
  read_hit detector_dict line fr = Ok fr' ->
  exists v, fr' = append_hit v fr /\ local_time fr = Some (time v).
Proof.
  unfold read_hit. destruct (take_1_2_4 _) as [[[x y] e]|]; simpl; [|done].
  destruct (detector_dict !! _); simpl; [|done].
  destruct (Py.float_of_string e); simpl; [|done].
  destruct (local_time fr) eqn:E; simpl; [|done]. intros [= <-]. eauto.
Qed.




(** Only a TS record outside an event block writes [nthrown]. *)
Lemma global_keys_nthrown key line fr fr' :
  global_keys time_shift key line fr = Ok fr' -> key <> "TS" ->
  nthrown (obj fr') = nthrown (obj fr).
Proof.
  unfold global_keys. intros H Hk. apply String.eqb_neq in Hk. rewrite Hk in H.
  repeat case_match; try discriminate;
    try (destruct (float_field line); simpl in H; [|discriminate]);
    by injection H as <-.
Qed.

Lemma read_hit_nthrown line fr fr' :
  read_hit detector_dict line fr = Ok fr' -> nthrown (obj fr') = nthrown (obj fr).
Proof. intros (v & -> & _)%read_hit_inv. done. Qed.

Lemma step_nthrown fr line fr' :
  step detector_dict time_shift fr line = Ok fr' ->
  Py.prefix2 line <> "TS" -> nthrown (obj fr') = nthrown (obj fr).
Proof.
  unfold step. intros H Hk.
  destruct (in_events fr); [|by eapply global_keys_nthrown].
  destruct (String.eqb _ "EN"); [by injection H as <-|]. simpl in H.
  assert (forall fr1,
    (if String.eqb (Py.prefix2 line) "TI"
     then float_field line ≫= fun t => Ok (set_local_time (F64.add t time_shift) fr)
     else Ok fr) = Ok fr1 -> nthrown (obj fr1) = nthrown (obj fr)) as Hti.
  { intros fr1. destruct (String.eqb _ "TI"); [|by intros [= <-]].
    destruct (float_field line); simpl; [|done]. by intros [= <-]. }
  destruct (if String.eqb _ "TI" then _ else _) as [fr1|] eqn:E1; simpl in H; [|done].
  specialize (Hti _ eq_refl).
  destruct (String.eqb _ "HT"); simpl in H; [|by injection H as <-].
  destruct (read_hit _ _ _) as [fr2|] eqn:E; simpl in H; [|done].
  apply global_keys_nthrown in H; [|done]. apply read_hit_nthrown in E. congruence.
Qed.

Lemma scan_nthrown fr lines fr' :
  scan detector_dict time_shift fr lines = Ok fr' ->
  Forall (fun x => Py.prefix2 x <> "TS") lines -> nthrown (obj fr') = nthrown (obj fr).
Proof.
  intros H Hl. revert fr H. induction Hl as [|x l Hx Hl IH]; intros fr H; simpl in H.
  - by injection H as <-.
  - destruct (String.eqb x ""); [by injection H as <-|].
    destruct (step _ _ fr x) as [fr1|] eqn:E; simpl in H; [|done].
    rewrite (IH _ H). by eapply step_nthrown.
Qed.

(** The loop body never fails an [assert]. *)
Lemma global_keys_not_assert key line fr k :
  global_keys time_shift key line fr <> Raise (AssertionError k).
Proof.
  unfold global_keys, float_field, int_field. repeat case_match; try congruence;
    destruct (Py.split line !! 1); simpl; try congruence;
    try (destruct (Py.float_of_string _); simpl; congruence);
    try (destruct (Py.int _); simpl; congruence).
Qed.

Lemma step_not_assert fr line k :
  step detector_dict time_shift fr line <> Raise (AssertionError k).
Proof.
  unfold step. destruct (in_events fr); [|apply global_keys_not_assert].
  destruct (String.eqb _ "EN"); [done|].
  destruct (String.eqb _ "TI").
  - unfold float_field. destruct (Py.split line !! 1); simpl; [|done].
    destruct (Py.float_of_string _); simpl; [|done].
    destruct (negb _); [done|].
    unfold read_hit. destruct (take_1_2_4 _) as [[[x y] e]|[]] eqn:E; simpl; try done.
    + destruct (detector_dict !! _); simpl; [|done].
      destruct (Py.float_of_string e); simpl; [|done]. apply global_keys_not_assert.
    + unfold take_1_2_4 in E. repeat case_match; congruence.
  - simpl. destruct (negb _); [done|].
    unfold read_hit. destruct (take_1_2_4 _) as [[[x y] e]|[]] eqn:E; simpl; try done.
    + destruct (detector_dict !! _); simpl; [|done].
      destruct (Py.float_of_string e); simpl; [|done].
      destruct (local_time fr); simpl; [|done]. apply global_keys_not_assert.
    + unfold take_1_2_4 in E. repeat case_match; congruence.
Qed.

Lemma scan_not_assert fr lines k :
  scan detector_dict time_shift fr lines <> Raise (AssertionError k).
Proof.
  revert fr. induction lines as [|x l IH]; intros fr; simpl; [done|].
  destruct (String.eqb x ""); [done|].
  destruct (step _ _ fr x) as [fr1|e] eqn:E; simpl; [apply IH|].
  intros [= ->]. by eapply step_not_assert.
Qed.

End ScanFacts.

(** ** Claims about [open] *)

(** C1, as stated, fails: an NF or IN line between SE and EN is skipped by
    [if key != "HT": continue], and [open] returns the run. *)
Lemma NF_IN_inside_event_block_is_skipped :
  ("NF next.sim" +:+ newline) ∈ log_NF_in_block
  /\ Py.prefix2 ("NF next.sim" +:+ newline) = "NF"
  /\ open detector_dict zero_shift [] log_NF_in_block
     = Ok (mkSim (Some (F64.of_int 0)) (Some (F64.of_int 10)) (Some 100%Z) [], [])
  /\ ("IN other.sim" +:+ newline) ∈ log_IN_in_block
  /\ Py.prefix2 ("IN other.sim" +:+ newline) = "IN"
  /\ open detector_dict zero_shift [] log_IN_in_block
     = Ok (mkSim (Some (F64.of_int 0)) (Some (F64.of_int 10)) (Some 100%Z) [], []).
Proof.
  repeat split; try (vm_compute; reflexivity).
  - unfold log_NF_in_block, file. simpl. rewrite !elem_of_cons. auto 10.
  - unfold log_IN_in_block, file. simpl. rewrite !elem_of_cons. auto 10.
Qed.

(** C1, amended: an NF or IN line that the scan reaches outside an event
    block makes [open] raise [InputError], whatever the frame holds (so also
    when TB, TE and TS were already read); reached inside an event block it
    changes nothing. *)
Theorem NF_IN_outside_event_block detector_dict time_shift h p l rest fr :
  Forall (fun x => x <> "") p ->
  scan detector_dict time_shift (init_frame h) p = Ok fr ->
  Py.prefix2 l = "NF" \/ Py.prefix2 l = "IN" ->
  (in_events fr = false ->
   open detector_dict time_shift h (p ++ l :: rest) = Raise InputError)
  /\ (in_events fr = true ->
      scan detector_dict time_shift (init_frame h) (p ++ [l]) = Ok fr).
Proof.
  intros Hp Hscan Hk.
  assert (l <> "") as Hl by (destruct Hk as [Hk|Hk]; eapply key_nonempty; eauto; done).
  split; intros Hin.
  - unfold open. rewrite scan_app, Hscan by done. simpl.
    rewrite eqb_empty_false by done.
    rewrite step_outside by done. unfold global_keys.
    by destruct Hk as [-> | ->].
  - rewrite scan_app, Hscan by done. simpl. rewrite eqb_empty_false by done.
    rewrite step_inside_skip; [done..| | |]; destruct Hk as [-> | ->]; done.
Qed.

Lemma NF_IN_outside_event_block_witness :
  open detector_dict zero_shift []
    (file ["TB 0"; "TE 10"; "TS 100"] ++ ("NF next.sim" +:+ newline) :: file ["SE"; "EN"])
  = Raise InputError.
Proof.
  refine (proj1 (NF_IN_outside_event_block detector_dict zero_shift []
                   (file ["TB 0"; "TE 10"; "TS 100"]) ("NF next.sim" +:+ newline)
                   (file ["SE"; "EN"])
                   (mkFrame [] (mkSim (Some (F64.of_int 0)) (Some (F64.of_int 10))
                                  (Some 100%Z) []) false None)
                   _ _ _) _).
  - repeat constructor; discriminate.
  - vm_compute. reflexivity.
  - left. vm_compute. reflexivity.
  - reflexivity.
Defined.




(** C7: [open] raises an [AssertionError] exactly when the scan reaches the
    end of the input with [tstart], [tstop] or [nthrown] still unset, and the
    error names a key whose field is unset (the first of TB, TE, TS); a log
    without a TS line never yields a run, and when its scan completes the
    failure is such an [AssertionError]. *)
Theorem missing_field_reported_after_scan detector_dict time_shift h lines :
  ((exists k, open detector_dict time_shift h lines = Raise (AssertionError k))
   <-> exists fr, scan detector_dict time_shift (init_frame h) lines = Ok fr
        /\ (tstart (obj fr) = None \/ tstop (obj fr) = None \/ nthrown (obj fr) = None))
  /\ (forall k, open detector_dict time_shift h lines = Raise (AssertionError k) ->
        exists fr, scan detector_dict time_shift (init_frame h) lines = Ok fr
          /\ ((k = "TB" /\ tstart (obj fr) = None)
              \/ (k = "TE" /\ tstop (obj fr) = None)
              \/ (k = "TS" /\ nthrown (obj fr) = None)))
  /\ (Forall (fun l => Py.prefix2 l <> "TS") lines ->
        (exists e, open detector_dict time_shift h lines = Raise e)
        /\ forall fr, scan detector_dict time_shift (init_frame h) lines = Ok fr ->
             nthrown (obj fr) = None
             /\ exists k, open detector_dict time_shift h lines = Raise (AssertionError k)).
Proof.
  unfold open.
  destruct (scan detector_dict time_shift (init_frame h) lines) as [fr|e] eqn:Hscan; simpl.
  - unfold check_fields.
    destruct (tstart (obj fr)) eqn:E1, (tstop (obj fr)) eqn:E2, (nthrown (obj fr)) eqn:E3;
      simpl; (split; [split|split]).
    all: try solve [intros [k Hk]; first [discriminate | eauto 10]].
    all: try solve [intros (fr' & [= <-] & Hor);
                    first [destruct Hor as [?|[?|?]]; congruence | eauto]].
    all: try solve [intros k Hk; first [discriminate | injection Hk as <-; eauto 10]].
    all: intros Hts; pose proof (scan_nthrown _ _ _ _ _ Hscan Hts) as Hn; simpl in Hn;
      try congruence.
    all: split; [eauto|]; intros fr' [= <-]; eauto.
  - split; [split|split].
    + intros [k [= ->]]. exfalso. by eapply scan_not_assert.
    + intros (fr & ? & _). done.
    + intros k [= ->]. exfalso. by eapply scan_not_assert.
    + intros _. split; [eauto|]. intros fr ?. done.
Qed.

Lemma missing_field_reported_after_scan_witness :
  Forall (fun l => Py.prefix2 l <> "TS") (file ["TB 0"; "TE 10"; "SE"; "EN"])
  /\ exists k, open detector_dict zero_shift [] (file ["TB 0"; "TE 10"; "SE"; "EN"])
              = Raise (AssertionError k).
Proof.
  assert (Forall (fun l => Py.prefix2 l <> "TS") (file ["TB 0"; "TE 10"; "SE"; "EN"])) as Hts
    by (repeat constructor; discriminate).
  split; [exact Hts|].
  pose proof (missing_field_reported_after_scan detector_dict zero_shift []
                (file ["TB 0"; "TE 10"; "SE"; "EN"])) as (_ & _ & H).
  destruct (H Hts) as [_ H'].
  apply (H' (mkFrame [] (mkSim (Some (F64.of_int 0)) (Some (F64.of_int 10)) None [])
               false None)).
  vm_compute. reflexivity.
Defined.

(** C9: scenario A. The log TB 0, TE 10, TS 100, SE, TI 1.5,
    HT ;4.88500;4.88500;;50.0, EN, read with the notebook's detector map and
    no time shift, gives a run with tstart 0, tstop 10, nthrown 100 and one
    hit: detector q0, time 1.5, energy 50; x, y and the energy are the
    second, third and fifth fields of the HT record split at ';'. *)
Theorem scenario_A :
  open detector_dict zero_shift [] log_A
  = Ok (mkSim (Some (F64.of_int 0)) (Some (F64.of_int 10)) (Some 100%Z) [0],
        [mkHit (F64.of_decimal false 15 (-1)) "q0" (F64.of_int 50)])
  /\ take_1_2_4 (Py.split_on ";" HT_line) = Ok ("4.88500", "4.88500", "50.0" +:+ newline)
  /\ detector_dict !! (Py.strip "4.88500" +:+ "," +:+ Py.strip "4.88500") = Some "q0"
  /\ Py.float_of_string ("50.0" +:+ newline) = Some (F64.of_int 50).
Proof. repeat split; vm_compute; reflexivity. Qed.



(** ** Lists read through indices *)

Section ListFacts.

Context {A : Type}.

Lemma take_indices_seq (l : list A) : take_indices l (seq 0 (List.length l)) = l.
Proof.
  unfold take_indices. induction l as [|x l IH] using rev_ind; [done|].
  rewrite length_app. simpl. rewrite Nat.add_1_r, seq_S, omap_app. simpl.
  rewrite lookup_app_r, Nat.sub_diag by lia. simpl. f_equal.
  rewrite <- IH at 2. apply list_omap_ext. apply Forall2_same_length_lookup_2; [done|].
  intros i x1 x2 [-> Hi]%lookup_seq [-> _]%lookup_seq. simpl.
  by rewrite lookup_app_l.
Qed.

Lemma take_indices_Permutation (l : list A) (p : list nat) :
  p ≡ₚ seq 0 (List.length l) -> take_indices l p ≡ₚ l.
Proof.
  intros Hp. unfold take_indices. rewrite Hp. fold (take_indices l (seq 0 (List.length l))).
  by rewrite take_indices_seq.
Qed.

Lemma mapM_take_indices (l : list A) (p : list nat) :
  Forall (fun n => n < List.length l) p ->
  mapM (fun n => l !! n) p = Some (take_indices l p).
Proof.
  intros Hp. apply mapM_Some. unfold take_indices.
  induction Hp as [|n p Hn Hp IH]; simpl; [constructor|].
  destruct (lookup_lt_is_Some_2 l n Hn) as [x Hx]. rewrite Hx. by constructor.
Qed.

Lemma Permutation_seq_bound (p : list nat) (n : nat) :
  p ≡ₚ seq 0 n -> Forall (fun i => i < n) p.
Proof.
  intros Hp. apply Forall_forall. intros i Hi. rewrite Hp in Hi.
  apply elem_of_seq in Hi. lia.
Qed.

End ListFacts.

(** Reading through indices commutes with a map that cannot fail on the
    elements read. *)
Lemma take_indices_omap {A B : Type} (f : A -> option B) (l : list A) (p : list nat) :
  Forall (fun x => is_Some (f x)) l ->
  omap f (take_indices l p) = take_indices (omap f l) p.
Proof.
  intros Hl.
  assert (forall n, (omap f l) !! n = l !! n ≫= f) as Hlook.
  { induction Hl as [|x l [y Hy] Hl IH]; intros n; [by destruct n|].
    simpl. rewrite Hy. destruct n; simpl; [done|apply IH]. }
  unfold take_indices. induction p as [|n p IH]; [done|]. simpl.
  rewrite Hlook. destruct (l !! n) as [x|] eqn:E; simpl; [|apply IH].
  destruct (f x); [f_equal|]; apply IH.
Qed.

(** Ties among the elements read at [p] are the ties among the indices. *)
Lemma ties_take_indices {A : Type} (key : A -> option float) t (l : list A) (p : list nat) :
  Forall (fun n => n < List.length l) p ->
  ties key t (take_indices l p) = take_indices l (ties (fun n => l !! n ≫= key) t p).
Proof.
  intros Hp. unfold take_indices, ties.
  induction Hp as [|n p Hn Hp IH]; [done|]. simpl.
  destruct (lookup_lt_is_Some_2 l n Hn) as [x Hx]. rewrite Hx. simpl.
  destruct (key x) as [k|]; [destruct (F64.eq k t)|]; simpl; rewrite ?Hx; simpl;
    try f_equal; apply IH.
Qed.

Lemma ties_ext {A : Type} (key key' : A -> option float) t (l : list A) :
  Forall (fun x => key x = key' x) l -> ties key t l = ties key' t l.
Proof.
  intros Hl. unfold ties. induction Hl as [|x l Hx Hl IH]; [done|].
  simpl. rewrite Hx, IH. done.
Qed.

(** ** The loop of [merge] *)

Lemma merge_loop_spec shift todo h self_hits :
  merge_loop shift todo h self_hits = (shift_all shift todo h, self_hits ++ todo).
Proof.
  revert h self_hits. induction todo as [|l todo IH]; intros h self_hits; simpl.
  - by rewrite app_nil_r.
  - rewrite IH. unfold shift_all. simpl. by rewrite <- app_assoc.
Qed.

Lemma length_shift_all shift todo h : List.length (shift_all shift todo h) = List.length h.
Proof.
  revert h. induction todo as [|l todo IH]; intros h; [done|].
  unfold shift_all in *. simpl. by rewrite IH, length_alter.
Qed.

(** A hit that is not in [sim2.hits] is not written. *)
Lemma shift_all_other shift todo h (l : loc) :
  l ∉ todo -> shift_all shift todo h !! l = h !! l.
Proof.
  revert h. induction todo as [|l' todo IH]; intros h Hl; [done|].
  apply not_elem_of_cons in Hl as [Hne Hl].
  unfold shift_all in *. simpl. rewrite IH by done. by apply list_lookup_alter_ne.
Qed.

(** A hit of [sim2.hits] is written once per occurrence: once when the
    sequence has no duplicates. *)
Lemma shift_all_member shift todo h (l : loc) :
  NoDup todo -> l ∈ todo -> shift_all shift todo h !! l = shift_hit shift <$> h !! l.
Proof.
  intros Hnd. revert h. induction Hnd as [|l' todo Hnotin Hnd IH]; intros h Hl.
  - by apply elem_of_nil in Hl.
  - unfold shift_all in *. simpl. apply elem_of_cons in Hl as [->|Hl].
    + fold (shift_all shift todo (alter (shift_hit shift) l' h)).
      rewrite shift_all_other by done. apply list_lookup_alter_eq.
    + rewrite IH by done. rewrite list_lookup_alter_ne; [done|]. intros ->. done.
Qed.

Lemma objects_app h l1 l2 : objects h (l1 ++ l2) = objects h l1 ++ objects h l2.
Proof. apply omap_app. Qed.

Lemma objects_ext h h' ls :
  Forall (fun l => h' !! l = h !! l) ls -> objects h' ls = objects h ls.
Proof.
  intros H. unfold objects. apply list_omap_ext. induction H; constructor; auto.
Qed.

Lemma objects_shift_all_other shift todo h ls :
  (forall l, l ∈ ls -> l ∉ todo) ->
  objects (shift_all shift todo h) ls = objects h ls.
Proof.
  intros H. apply objects_ext. apply Forall_forall. intros l Hl.
  apply shift_all_other. auto.
Qed.

Lemma objects_shift_all_self shift todo h :
  NoDup todo ->
  objects (shift_all shift todo h) todo = map (shift_hit shift) (objects h todo).
Proof.
  intros Hnd.
  assert (forall ls, (forall l, l ∈ ls -> l ∈ todo) ->
    objects (shift_all shift todo h) ls = map (shift_hit shift) (objects h ls)) as H.
  { induction ls as [|l ls IH]; intros Hls; [done|].
    unfold objects in *. simpl.
    rewrite shift_all_member by (done || apply Hls; left).
    destruct (h !! l); simpl; [f_equal|]; apply IH; intros; apply Hls; by right. }
  by apply H.
Qed.

Lemma objects_allocated (h : heap) (ls : list loc) :
  Forall (fun l => l < List.length h) ls ->
  Forall (fun l => is_Some (h !! l)) ls.
Proof.
  intros H. eapply Forall_impl; [exact H|]. intros l. apply lookup_lt_is_Some_2.
Qed.

Lemma length_objects h ls :
  Forall (fun l => l < List.length h) ls -> List.length (objects h ls) = List.length ls.
Proof.
  intros H. unfold objects. induction H as [|l ls Hl H IH]; [done|].
  destruct (lookup_lt_is_Some_2 h l Hl) as [v Hv]. simpl. rewrite Hv. simpl.
  f_equal. apply IH.
Qed.

(** ** The insertion sort meets what [merge] needs of [np.argsort] *)

Section InsertionFacts.

Variable v : list Hit.

Lemma insert_Permutation i l : Npysort.insert v i l ≡ₚ i :: l.
Proof.
  induction l as [|j l IH]; simpl; [done|].
  destruct (Npysort.lt v j i); [|done]. rewrite IH. apply Permutation_swap.
Qed.

Lemma insertion_argsort_Permutation :
  Npysort.insertion_argsort v ≡ₚ seq 0 (List.length v).
Proof.
  unfold Npysort.insertion_argsort. generalize (seq 0 (List.length v)).
  induction l as [|i l IH]; simpl; [done|]. by rewrite insert_Permutation, IH.
Qed.

Lemma index_le_trans i j k : index_le v i j -> index_le v j k -> index_le v i k.
Proof.
  intros (x & y & Hx & Hy & Hxy) (y' & z & Hy' & Hz & Hyz). simplify_eq.
  exists x, z. eauto using F64Facts.le_trans.
Qed.

Lemma lt_index_le i j : Npysort.lt v i j = true -> index_le v i j.
Proof.
  unfold Npysort.lt, index_le, Hit_lt.
  destruct (v !! i) as [x|], (v !! j) as [y|]; try done.
  intros H. exists x, y. eauto using F64Facts.lt_le.
Qed.

Lemma not_lt_index_le i j :
  times_are_numbers v -> i < List.length v -> j < List.length v ->
  Npysort.lt v j i = false -> index_le v i j.
Proof.
  intros Hv Hi Hj. unfold Npysort.lt, index_le, Hit_lt.
  destruct (lookup_lt_is_Some_2 v i Hi) as [x Hx].
  destruct (lookup_lt_is_Some_2 v j Hj) as [y Hy]. rewrite Hx, Hy.
  intros H. exists x, y. repeat split; [done..|].
  unfold times_are_numbers in Hv. rewrite Forall_forall in Hv.
  apply F64Facts.not_lt_le; [apply Hv|apply Hv|done]; by eapply list_elem_of_lookup_2.
Qed.

Lemma insert_sorted i l :
  times_are_numbers v -> i < List.length v -> Forall (fun j => j < List.length v) l ->
  StronglySorted (index_le v) l -> StronglySorted (index_le v) (Npysort.insert v i l).
Proof.
  intros Hv Hi Hl Hs. induction Hs as [|j l Hs IH Hj]; simpl.
  - repeat constructor.
  - apply Forall_cons in Hl as [Hjv Hl].
    destruct (Npysort.lt v j i) eqn:E.
    + constructor; [by apply IH|]. rewrite insert_Permutation.
      constructor; [by apply lt_index_le|done].
    + assert (index_le v i j) as Hij by by apply not_lt_index_le.
      constructor; [by constructor|]. constructor; [done|].
      eapply Forall_impl; [exact Hj|]. intros k. by apply index_le_trans.
Qed.

Lemma insertion_argsort_index_sorted :
  times_are_numbers v -> StronglySorted (index_le v) (Npysort.insertion_argsort v).
Proof.
  intros Hv. unfold Npysort.insertion_argsort.
  assert (Forall (fun j => j < List.length v) (seq 0 (List.length v))) as Hb
    by (apply Forall_forall; intros j Hj%elem_of_seq; lia).
  revert Hb. generalize (seq 0 (List.length v)).
  induction l as [|i l IH]; intros Hb; simpl; [constructor|].
  apply Forall_cons in Hb as [Hi Hb]. apply insert_sorted; [done..| |by apply IH].
  apply Forall_forall. intros j Hj.
  assert (foldr (Npysort.insert v) [] l ≡ₚ l) as Hp.
  { clear. induction l as [|i l IH]; simpl; [done|]. by rewrite insert_Permutation, IH. }
  rewrite Hp in Hj. rewrite Forall_forall in Hb. auto.
Qed.

Lemma index_sorted_by_time p :
  StronglySorted (index_le v) p -> sorted_by_time (take_indices v p).
Proof.
  unfold sorted_by_time, take_indices. induction 1 as [|i p Hs IH Hi]; simpl; [constructor|].
  destruct (v !! i) as [x|] eqn:Hx; [|done].
  constructor; [done|]. apply Forall_forall. intros y Hy.
  apply list_elem_of_omap in Hy as (j & Hj & Hy).
  rewrite Forall_forall in Hi. destruct (Hi j Hj) as (x' & y' & ? & ? & ?). by simplify_eq.
Qed.

Lemma insertion_argsort_sorted :
  times_are_numbers v -> sorted_by_time (take_indices v (Npysort.insertion_argsort v)).
Proof. intros Hv. by apply index_sorted_by_time, insertion_argsort_index_sorted. Qed.

(** The insertion sort is stable. *)
Lemma insert_ties t i l :
  ties (time_of_index v) t (Npysort.insert v i l) = ties (time_of_index v) t (i :: l).
Proof.
  induction l as [|j l IH]; [done|]. simpl.
  destruct (Npysort.lt v j i) eqn:E; [|done].
  change (ties (time_of_index v) t (j :: Npysort.insert v i l)
          = ties (time_of_index v) t (i :: j :: l)).
  unfold ties in *. simpl in *. rewrite IH.
  unfold Npysort.lt, time_of_index, Hit_lt in *.
  destruct (v !! j) as [y|], (v !! i) as [x|]; simpl; try done.
  destruct (F64.eq (time y) t) eqn:Ey, (F64.eq (time x) t) eqn:Ex; try done.
  exfalso. apply F64Facts.eq_compare in Ey, Ex.
  apply F64Facts.compare_antisym in Ex. simpl in Ex.
  pose proof (F64Facts.compare_eq_trans _ _ _ Ey Ex) as Hyx.
  apply F64Facts.lt_compare in E. congruence.
Qed.

Lemma insertion_argsort_keeps_ties :
  keeps_ties (time_of_index v) (seq 0 (List.length v)) (Npysort.insertion_argsort v).
Proof.
  intros t. unfold Npysort.insertion_argsort. generalize (seq 0 (List.length v)).
  induction l as [|i l IH]; [done|]. simpl. rewrite insert_ties.
  unfold ties in *. simpl. by rewrite IH.
Qed.

End InsertionFacts.

(** Whether hits are in ascending time depends on their times only. *)
Lemma sorted_by_time_times l1 l2 :
  map time l1 = map time l2 -> sorted_by_time l1 -> sorted_by_time l2.
Proof.
  unfold sorted_by_time. intros E Hs. revert l2 E.
  induction Hs as [|x l1 Hs IH Hx]; intros [|y l2] E; simpl in E; try discriminate.
  - constructor.
  - injection E as E1 E2. constructor; [by apply IH|].
    rewrite <- E1. apply Forall_forall. intros z Hz.
    assert (time z ∈ map time l1) as Hin.
    { rewrite E2. apply list_elem_of_fmap. eauto. }
    apply list_elem_of_fmap in Hin as (w & Hw1 & Hw). rewrite Hw1.
    rewrite Forall_forall in Hx. by apply Hx.
Qed.

(** On a sample the default sort returns a permutation of the indices that
    puts the times in ascending order, as the insertion sort does. *)
Lemma aquicksort_sorts_a_sample :
  Npysort.aquicksort heap_sample ≡ₚ seq 0 (List.length heap_sample)
  /\ map time (take_indices heap_sample (Npysort.aquicksort heap_sample))
     = map time (take_indices heap_sample (Npysort.insertion_argsort heap_sample))
  /\ sorted_by_time (take_indices heap_sample (Npysort.aquicksort heap_sample)).
Proof.
  assert (map time (take_indices heap_sample (Npysort.insertion_argsort heap_sample))
          = map time (take_indices heap_sample (Npysort.aquicksort heap_sample))) as E
    by (vm_compute; reflexivity).
  split; [|split].
  - rewrite <- (merge_sort_Permutation le (Npysort.aquicksort heap_sample)).
    by vm_compute.
  - exact (eq_sym E).
  - eapply sorted_by_time_times; [exact E|].
    apply insertion_argsort_sorted. repeat constructor.
Qed.

(** ** The default sort sorts *)

Section SortFacts.

Variable v : list Hit.
Hypothesis Hnum : times_are_numbers v.


Lemma ltb_irrefl i : Npysort.lt v i i = false.
Proof.
  unfold Npysort.lt, Hit_lt. destruct (v !! i); [|done]. apply F64Facts.lt_irrefl.
Qed.

Lemma ltb_trans i j k : Npysort.lt v i j = true -> Npysort.lt v j k = true -> Npysort.lt v i k = true.
Proof.
  unfold Npysort.lt, Hit_lt.
  destruct (v !! i), (v !! j), (v !! k); try done. apply F64Facts.lt_trans.
Qed.

Lemma ltb_asym i j : Npysort.lt v i j = true -> Npysort.lt v j i = false.
Proof.
  unfold Npysort.lt, Hit_lt.
  destruct (v !! i), (v !! j); try done. apply F64Facts.lt_asym.
Qed.

Lemma ltb_negtrans i j k :
  j < List.length v -> Npysort.lt v i j = false -> Npysort.lt v j k = false -> Npysort.lt v i k = false.
Proof using Hnum.
  intros Hj. unfold Npysort.lt, Hit_lt.
  destruct (lookup_lt_is_Some_2 v j Hj) as [y Hy]. rewrite Hy.
  destruct (v !! i) as [x|] eqn:Hx; [|done].
  destruct (v !! k) as [z|] eqn:Hz; [|done].
  unfold times_are_numbers in Hnum. rewrite Forall_forall in Hnum.
  pose proof (Hnum x (list_elem_of_lookup_2 _ _ _ Hx)) as Nx.
  pose proof (Hnum y (list_elem_of_lookup_2 _ _ _ Hy)) as Ny.
  pose proof (Hnum z (list_elem_of_lookup_2 _ _ _ Hz)) as Nz.
  intros H1 H2.
  apply F64Facts.le_lt_false.
  apply (F64Facts.le_trans (time z) (time y) (time x)); by apply F64Facts.not_lt_le.
Qed.

(** [leq]-style transitivity: [c <= b], [b <= a] give [c <= a]. *)
Lemma ltb_false_trans a b c :
  b < List.length v -> Npysort.lt v a b = false -> Npysort.lt v b c = false -> Npysort.lt v a c = false.
Proof using Hnum. apply ltb_negtrans. Qed.

Lemma ltb_lt_false_trans a b c :
  Npysort.lt v a b = true -> Npysort.lt v c b = false -> b < List.length v -> c < List.length v ->
  Npysort.lt v c a = false.
Proof using Hnum.
  intros H1 H2 Hb Hc. destruct (Npysort.lt v c a) eqn:E; [|done].
  by rewrite (ltb_trans c a b) in H2.
Qed.

(** Reading an array that was written. *)
Lemma get_lookup t k : Npysort.get t k = default 0 (t !! k).
Proof. unfold Npysort.get. apply nth_lookup. Qed.

Lemma get_insert_eq t i x : i < List.length t -> Npysort.get (<[i := x]> t) i = x.
Proof. intros H. rewrite get_lookup, list_lookup_insert_eq; done. Qed.

Lemma get_insert_ne t i x k : k <> i -> Npysort.get (<[i := x]> t) k = Npysort.get t k.
Proof. intros H. rewrite !get_lookup, list_lookup_insert_ne; done. Qed.

Lemma get_swap t p q k :
  p < List.length t -> q < List.length t ->
  Npysort.get (Npysort.INTP_SWAP t p q) k
  = if decide (k = q) then Npysort.get t p
    else if decide (k = p) then Npysort.get t q else Npysort.get t k.
Proof.
  intros Hp Hq. unfold Npysort.INTP_SWAP.
  destruct (decide (k = q)) as [->|Hkq].
  - rewrite get_insert_eq; [done|]. by rewrite length_insert.
  - rewrite get_insert_ne by done.
    destruct (decide (k = p)) as [->|Hkp].
    + by rewrite get_insert_eq.
    + by rewrite get_insert_ne.
Qed.

Lemma length_swap t p q : List.length (Npysort.INTP_SWAP t p q) = List.length t.
Proof. unfold Npysort.INTP_SWAP. by rewrite !length_insert. Qed.

Lemma lookup_get t k : k < List.length t -> t !! k = Some (Npysort.get t k).
Proof.
  intros H. rewrite get_lookup. destruct (lookup_lt_is_Some_2 t k H) as [x ->]. done.
Qed.

Lemma swap_Permutation t p q :
  p < List.length t -> q < List.length t -> Npysort.INTP_SWAP t p q ≡ₚ t.
Proof.
  intros Hp Hq. unfold Npysort.INTP_SWAP.
  apply Permutation_insert_swap; by apply lookup_get.
Qed.

(** ** Segments *)

Lemma seg_perm_refl pl pr t : seg_perm pl pr t t.
Proof. split; [done|]. split; [done|]. intros j Hj. eauto. Qed.

Lemma seg_perm_trans pl pr t1 t2 t3 :
  seg_perm pl pr t1 t2 -> seg_perm pl pr t2 t3 -> seg_perm pl pr t1 t3.
Proof.
  intros (P1 & O1 & F1) (P2 & O2 & F2). split; [by rewrite P2|]. split.
  - intros k Hk. by rewrite O2, O1.
  - intros j Hj. destruct (F2 j Hj) as (j' & Hj' & ->). apply F1, Hj'.
Qed.

Lemma seg_perm_weaken pl pr pl' pr' t t' :
  pl' <= pl -> pr <= pr' -> seg_perm pl pr t t' -> seg_perm pl' pr' t t'.
Proof.
  intros Hl Hr (P & O & F). split; [done|]. split.
  - intros k Hk. apply O. lia.
  - intros j Hj. destruct (decide (pl <= j <= pr)) as [Hin|Hout].
    + destruct (F j Hin) as (j' & Hj' & ->). exists j'. split; [lia|done].
    + exists j. split; [done|]. apply O. lia.
Qed.

Lemma seg_perm_swap pl pr t p q :
  pl <= p <= pr -> pl <= q <= pr -> p < List.length t -> q < List.length t ->
  seg_perm pl pr t (Npysort.INTP_SWAP t p q).
Proof.
  intros Hp Hq Hpl Hql. split; [by apply swap_Permutation|]. split.
  - intros k Hk. rewrite get_swap by done. repeat case_decide; lia || done.
  - intros j Hj. rewrite get_swap by done. repeat case_decide; eauto.
Qed.

Lemma seg_perm_length pl pr t t' : seg_perm pl pr t t' -> List.length t' = List.length t.
Proof. intros (P & _). by rewrite P. Qed.

Lemma valid_indices_Permutation t t' :
  valid_indices v t -> t' ≡ₚ t -> valid_indices v t'.
Proof.
  intros Hv P k. rewrite get_lookup.
  destruct (t' !! k) as [x|] eqn:E; simpl.
  - apply list_elem_of_lookup_2 in E. rewrite P in E.
    apply list_elem_of_lookup in E as [k' E].
    specialize (Hv k'). rewrite get_lookup, E in Hv. done.
  - specialize (Hv (List.length t)). rewrite get_lookup, lookup_ge_None_2 in Hv by lia. done.
Qed.

Lemma valid_indices_seg_perm pl pr t t' :
  valid_indices v t -> seg_perm pl pr t t' -> valid_indices v t'.
Proof. intros Hv (P & _). by eapply valid_indices_Permutation. Qed.

(** ** The insertion sort of a segment *)

Lemma insertion_shift_spec t pl pj vi :
  pl <= pj -> pj < List.length t ->
  exists q,
    pl <= q <= pj
    /\ Npysort.insertion_shift v t pl pj vi ≡ₚ <[pj := vi]> t
    /\ Npysort.get (Npysort.insertion_shift v t pl pj vi) q = vi
    /\ (forall k, k < q \/ pj < k ->
          Npysort.get (Npysort.insertion_shift v t pl pj vi) k = Npysort.get t k)
    /\ (forall k, q < k <= pj ->
          Npysort.get (Npysort.insertion_shift v t pl pj vi) k = Npysort.get t (k - 1)
          /\ Npysort.lt v vi (Npysort.get t (k - 1)) = true)
    /\ (q = pl \/ (pl < q /\ Npysort.lt v vi (Npysort.get t (q - 1)) = false)).
Proof.
  revert t. induction pj as [|pk IH]; intros t Hle Hlt.
  - simpl. exists 0. split; [lia|]. split; [done|]. split; [by apply get_insert_eq|].
    split; [|split; [|left; lia]].
    + intros k Hk. apply get_insert_ne. lia.
    + intros k Hk. lia.
  - simpl. destruct (Nat.ltb_spec pl (S pk)) as [Hpl|Hpl]; simpl.
    2:{ exists (S pk). split; [lia|]. split; [done|]. split; [by apply get_insert_eq|].
        split; [|split; [|left; lia]].
        - intros k Hk. apply get_insert_ne. lia.
        - intros k Hk. lia. }
    destruct (Npysort.lt v vi (Npysort.get t pk)) eqn:Elt.
    2:{ exists (S pk). split; [lia|]. split; [done|]. split; [by apply get_insert_eq|].
        split; [|split].
        - intros k Hk. apply get_insert_ne. lia.
        - intros k Hk. lia.
        - right. split; [done|]. simpl. by rewrite Nat.sub_0_r. }
    set (t1 := <[S pk := Npysort.get t pk]> t).
    assert (List.length t1 = List.length t) as Hlen1 by (unfold t1; by rewrite length_insert).
    destruct (IH t1 ltac:(lia) ltac:(lia)) as (q & Hq & HP & Hvi & Hout & Hsh & Hb).
    assert (forall k, k <> S pk -> Npysort.get t1 k = Npysort.get t k) as Hne
      by (intros k Hk; unfold t1; by rewrite get_insert_ne).
    exists q. split; [lia|]. split; [|split; [done|split; [|split]]].
    + rewrite HP. unfold t1.
      set (F := <[S pk := vi]> t).
      assert (List.length F = List.length t) as HlenF by (unfold F; by rewrite length_insert).
      assert (<[pk := vi]> (<[S pk := Npysort.get t pk]> t) = Npysort.INTP_SWAP F (S pk) pk) as ->.
      { unfold Npysort.INTP_SWAP, F.
        rewrite get_insert_eq by done. rewrite get_insert_ne by lia.
        by rewrite list_insert_insert_eq. }
      apply swap_Permutation; lia.
    + intros k Hk. rewrite Hout by lia. apply Hne. lia.
    + intros k Hk. destruct (decide (k = S pk)) as [->|Hk'].
      * rewrite Hout by lia. unfold t1. rewrite get_insert_eq by done.
        simpl. rewrite Nat.sub_0_r. done.
      * destruct (Hsh k ltac:(lia)) as [E1 E2]. rewrite Hne in E1, E2 by lia. done.
    + destruct Hb as [Hb|[Hb1 Hb2]]; [by left|]. right. split; [done|].
      rewrite Hne in Hb2 by lia. done.
Qed.

Lemma insertion_shift_sorted t pl pj :
  valid_indices v t -> pl <= pj -> pj < List.length t ->
  sorted_range v t pl pj ->
  sorted_range v (Npysort.insertion_shift v t pl pj (Npysort.get t pj)) pl (S pj)
  /\ seg_perm pl pj t (Npysort.insertion_shift v t pl pj (Npysort.get t pj)).
Proof using Hnum.
  intros Hv Hle Hlt Hs.
  destruct (insertion_shift_spec t pl pj (Npysort.get t pj) Hle Hlt)
    as (q & Hq & HP & Hvi & Hout & Hsh & Hb).
  set (R := Npysort.insertion_shift v t pl pj (Npysort.get t pj)) in *.
  assert (forall i, pl <= i -> i < q -> Npysort.lt v (Npysort.get t pj) (Npysort.get t i) = false) as Hleft.
  { intros i Hi1 Hi2. destruct Hb as [->|[Hb1 Hb2]]; [lia|].
    destruct (decide (i = q - 1)) as [->|Hne]; [done|].
    apply (ltb_negtrans _ (Npysort.get t (q - 1))); [apply Hv|done|].
    apply Hs; lia. }
  split.
  - intros i j Hi Hij Hj.
    destruct (decide (j < q)) as [Hjq|Hjq].
    { rewrite !Hout by lia. apply Hs; lia. }
    destruct (decide (j = q)) as [->|Hjq'].
    { rewrite Hvi, Hout by lia. by apply Hleft. }
    destruct (Hsh j ltac:(lia)) as [Ej Hj'].
    destruct (decide (i < q)) as [Hiq|Hiq].
    { rewrite Ej, Hout by lia. apply Hs; lia. }
    destruct (decide (i = q)) as [->|Hiq'].
    { rewrite Ej, Hvi. by apply ltb_asym. }
    destruct (Hsh i ltac:(lia)) as [Ei Hi'].
    rewrite Ei, Ej. apply Hs; lia.
  - split; [|split].
    + rewrite HP. rewrite list_insert_id; [done|]. by apply lookup_get.
    + intros k Hk. apply Hout. lia.
    + intros j Hj. destruct (decide (j < q)) as [Hjq|Hjq].
      { exists j. split; [done|]. apply Hout. lia. }
      destruct (decide (j = q)) as [->|Hjq'].
      { exists pj. split; [lia|done]. }
      destruct (Hsh j ltac:(lia)) as [Ej _]. exists (j - 1). split; [lia|done].
Qed.

Lemma insertion_loop_spec count t pl pi :
  valid_indices v t -> pl < pi -> pi + count <= List.length t ->
  sorted_range v t pl pi ->
  sorted_range v (Npysort.insertion_loop v count t pl pi) pl (pi + count)
  /\ seg_perm pl (pi + count - 1) t (Npysort.insertion_loop v count t pl pi).
Proof using Hnum.
  revert t pi. induction count as [|count IH]; intros t pi Hv Hpl Hlen Hs; simpl.
  - rewrite Nat.add_0_r. split; [done|apply seg_perm_refl].
  - destruct (insertion_shift_sorted t pl pi Hv ltac:(lia) ltac:(lia) Hs) as [Hs1 Hp1].
    set (t1 := Npysort.insertion_shift v t pl pi (Npysort.get t pi)) in *.
    pose proof (seg_perm_length _ _ _ _ Hp1) as Hlen1.
    destruct (IH t1 (S pi)) as [Hs2 Hp2]; try done; try lia.
    { by eapply valid_indices_seg_perm. }
    replace (pi + S count) with (S pi + count) by lia. split; [done|].
    eapply seg_perm_trans; [|exact Hp2].
    eapply seg_perm_weaken; [| |exact Hp1]; lia.
Qed.

Lemma insertion_sort_spec t pl pr :
  valid_indices v t -> pl <= pr -> pr < List.length t ->
  sorted_range v (Npysort.insertion_sort v t pl pr) pl (S pr)
  /\ seg_perm pl pr t (Npysort.insertion_sort v t pl pr).
Proof using Hnum.
  intros Hv Hle Hlt. unfold Npysort.insertion_sort.
  destruct (insertion_loop_spec (pr - pl) t pl (S pl) Hv) as [Hs Hp]; try lia.
  { intros i j Hi Hij Hj. lia. }
  replace (S pl + (pr - pl)) with (S pr) in * by lia.
  replace (S pr - 1) with pr in Hp by lia. done.
Qed.

(** ** The partition step *)

Lemma scan_up_spec fuel t vp pi q :
  pi < q -> q <= S (pi + fuel) -> Npysort.lt v (Npysort.get t q) vp = false ->
  pi < Npysort.scan_up v fuel t vp pi <= q
  /\ Npysort.lt v (Npysort.get t (Npysort.scan_up v fuel t vp pi)) vp = false
  /\ (forall k, pi < k -> k < Npysort.scan_up v fuel t vp pi -> Npysort.lt v (Npysort.get t k) vp = true).
Proof.
  revert pi. induction fuel as [|fuel IH]; intros pi Hq Hf Hs; simpl.
  - assert (q = S pi) as -> by lia. split; [lia|]. split; [done|]. intros k; lia.
  - destruct (Npysort.lt v (Npysort.get t (S pi)) vp) eqn:E.
    + assert (q <> S pi) as Hne by (intros ->; congruence).
      destruct (IH (S pi)) as (H1 & H2 & H3); [lia|lia|done|].
      split; [lia|]. split; [done|]. intros k Hk1 Hk2.
      destruct (decide (k = S pi)) as [->|?]; [done|]. apply H3; lia.
    + split; [lia|]. split; [done|]. intros k; lia.
Qed.

Lemma scan_down_spec fuel t vp pj q :
  q < pj -> pj <= S (q + fuel) -> Npysort.lt v vp (Npysort.get t q) = false ->
  q <= Npysort.scan_down v fuel t vp pj < pj
  /\ Npysort.lt v vp (Npysort.get t (Npysort.scan_down v fuel t vp pj)) = false
  /\ (forall k, Npysort.scan_down v fuel t vp pj < k -> k < pj -> Npysort.lt v vp (Npysort.get t k) = true).
Proof.
  revert pj. induction fuel as [|fuel IH]; intros pj Hq Hf Hs; simpl.
  - assert (pj = S q) as -> by lia. simpl. split; [lia|]. split; [done|]. intros k; lia.
  - destruct pj as [|pj']; [lia|]. simpl.
    destruct (Npysort.lt v vp (Npysort.get t pj')) eqn:E.
    + assert (q <> pj') as Hne by (intros ->; congruence).
      destruct (IH pj') as (H1 & H2 & H3); [lia|lia|done|].
      split; [lia|]. split; [done|]. intros k Hk1 Hk2.
      destruct (decide (k = pj')) as [->|?]; [done|]. apply H3; lia.
    + split; [lia|]. split; [done|]. intros k; lia.
Qed.

Lemma partition_loop_spec fuel t vp pl pr pi pj :
  pl <= pi -> pi < pj -> pj <= pr - 1 -> pr < List.length t -> pj - pi <= fuel ->
  (forall k, pl <= k -> k <= pi -> Npysort.lt v vp (Npysort.get t k) = false) ->
  (forall k, pj <= k -> k <= pr -> Npysort.lt v (Npysort.get t k) vp = false) ->
  Npysort.get t (pr - 1) = vp ->
  exists t' pi',
    Npysort.partition_loop v fuel t vp pi pj = (t', pi')
    /\ seg_perm pl pr t t'
    /\ pi < pi' /\ pi' <= pr - 1
    /\ (forall k, pl <= k -> k < pi' -> Npysort.lt v vp (Npysort.get t' k) = false)
    /\ (forall k, pi' <= k -> k <= pr -> Npysort.lt v (Npysort.get t' k) vp = false)
    /\ Npysort.get t' (pr - 1) = vp.
Proof.
  revert t pi pj. induction fuel as [|fuel IH];
    intros t pi pj Hpl Hij Hpr Hlen Hfuel Hlow Hhigh Hvp; [lia|].
  simpl.
  destruct (scan_up_spec (List.length t) t vp pi pj) as (U1 & U2 & U3);
    [lia|lia|apply Hhigh; lia|].
  destruct (scan_down_spec (List.length t) t vp pj pi) as (D1 & D2 & D3);
    [lia|lia|apply Hlow; lia|].
  set (pi' := Npysort.scan_up v (List.length t) t vp pi) in *.
  set (pj' := Npysort.scan_down v (List.length t) t vp pj) in *.
  destruct (Nat.leb_spec pj' pi') as [Hbreak|Hcont].
  - exists t, pi'. split; [done|]. split; [apply seg_perm_refl|].
    split; [lia|]. split; [lia|]. split; [|split; [|done]].
    + intros k Hk1 Hk2. destruct (decide (k <= pi)) as [?|?]; [by apply Hlow|].
      apply ltb_asym, U3; lia.
    + intros k Hk1 Hk2. destruct (decide (k = pi')) as [->|?]; [done|].
      destruct (decide (pj <= k)) as [?|?]; [by apply Hhigh|].
      apply ltb_asym, D3; lia.
  - assert (forall k, Npysort.get (Npysort.INTP_SWAP t pi' pj') k
              = if decide (k = pj') then Npysort.get t pi'
                else if decide (k = pi') then Npysort.get t pj' else Npysort.get t k) as Hsw
      by (intros k; apply get_swap; lia).
    destruct (IH (Npysort.INTP_SWAP t pi' pj') pi' pj') as (t' & pi2 & E & HP & H1 & H2 & H3 & H4 & H5).
    + lia.
    + lia.
    + lia.
    + rewrite length_swap. lia.
    + lia.
    + intros k Hk1 Hk2. rewrite Hsw.
      destruct (decide (k = pj')); [lia|].
      destruct (decide (k = pi')); [done|].
      destruct (decide (k <= pi)) as [?|?]; [by apply Hlow|].
      apply ltb_asym, U3; lia.
    + intros k Hk1 Hk2. rewrite Hsw.
      destruct (decide (k = pj')); [done|].
      destruct (decide (k = pi')); [lia|].
      destruct (decide (pj <= k)) as [?|?]; [by apply Hhigh|].
      apply ltb_asym, D3; lia.
    + rewrite Hsw. rewrite !decide_False by lia. done.
    + exists t', pi2. split; [done|]. split.
      { eapply seg_perm_trans; [|exact HP]. apply seg_perm_swap; lia. }
      split; [lia|]. done.
Qed.

Lemma partition_spec t pl pr :
  valid_indices v t -> pl + 2 <= pr -> pr < List.length t ->
  exists t' pi,
    Npysort.partition v t pl pr = (t', pi)
    /\ seg_perm pl pr t t'
    /\ pl < pi /\ pi < pr
    /\ (forall k, pl <= k -> k < pi -> Npysort.lt v (Npysort.get t' pi) (Npysort.get t' k) = false)
    /\ (forall k, pi < k -> k <= pr -> Npysort.lt v (Npysort.get t' k) (Npysort.get t' pi) = false).
Proof using Hnum.
  intros Hv Hle Hlen. unfold Npysort.partition.
  pose proof (Nat.lt_div2 (pr - pl) ltac:(lia)) as Hdiv.
  assert (1 <= Nat.div2 (pr - pl)) as Hdiv1.
  { destruct (pr - pl) as [|[|d]] eqn:E; [lia|lia|]. simpl. apply le_n_S, Nat.le_0_l. }
  generalize dependent (Nat.div2 (pr - pl)). intros d Hdiv Hdiv1.
  set (pm := pl + d).
  assert (pl < pm /\ pm < pr) as [Hpm1 Hpm2] by (unfold pm; lia).
  (* median of three *)
  set (t1 := if Npysort.lt v (Npysort.get t pm) (Npysort.get t pl) then Npysort.INTP_SWAP t pm pl else t).
  assert (seg_perm pl pr t t1 /\ Npysort.lt v (Npysort.get t1 pm) (Npysort.get t1 pl) = false) as [P1 M1].
  { unfold t1. destruct (Npysort.lt v (Npysort.get t pm) (Npysort.get t pl)) eqn:E.
    - split; [apply seg_perm_swap; lia|].
      rewrite !get_swap by lia. repeat case_decide; try lia. by apply ltb_asym.
    - split; [apply seg_perm_refl|done]. }
  pose proof (seg_perm_length _ _ _ _ P1) as L1.
  pose proof (valid_indices_seg_perm _ _ _ _ Hv P1) as V1.
  set (t2 := if Npysort.lt v (Npysort.get t1 pr) (Npysort.get t1 pm) then Npysort.INTP_SWAP t1 pr pm else t1).
  assert (seg_perm pl pr t1 t2 /\ Npysort.lt v (Npysort.get t2 pr) (Npysort.get t2 pm) = false
          /\ Npysort.lt v (Npysort.get t2 pr) (Npysort.get t2 pl) = false) as (P2 & M2 & M2').
  { unfold t2. destruct (Npysort.lt v (Npysort.get t1 pr) (Npysort.get t1 pm)) eqn:E.
    - split; [apply seg_perm_swap; lia|].
      rewrite !get_swap by lia. repeat case_decide; try lia.
      split; [by apply ltb_asym|done].
    - split; [apply seg_perm_refl|]. split; [done|].
      apply (ltb_negtrans _ (Npysort.get t1 pm)); [apply V1|done|done]. }
  pose proof (seg_perm_length _ _ _ _ P2) as L2.
  pose proof (valid_indices_seg_perm _ _ _ _ V1 P2) as V2.
  set (t3 := if Npysort.lt v (Npysort.get t2 pm) (Npysort.get t2 pl) then Npysort.INTP_SWAP t2 pm pl else t2).
  assert (seg_perm pl pr t2 t3 /\ Npysort.lt v (Npysort.get t3 pm) (Npysort.get t3 pl) = false
          /\ Npysort.lt v (Npysort.get t3 pr) (Npysort.get t3 pm) = false) as (P3 & M3 & M3').
  { unfold t3. destruct (Npysort.lt v (Npysort.get t2 pm) (Npysort.get t2 pl)) eqn:E.
    - split; [apply seg_perm_swap; lia|].
      rewrite !get_swap by lia. repeat case_decide; try lia.
      split; [by apply ltb_asym|done].
    - split; [apply seg_perm_refl|]. done. }
  pose proof (seg_perm_length _ _ _ _ P3) as L3.
  clearbody t1 t2 t3.
  set (vp := Npysort.get t3 pm).
  set (t4 := Npysort.INTP_SWAP t3 pm (pr - 1)).
  assert (seg_perm pl pr t3 t4) as P4 by (apply seg_perm_swap; lia).
  assert (forall k, Npysort.get t4 k
            = if decide (k = pr - 1) then Npysort.get t3 pm
              else if decide (k = pm) then Npysort.get t3 (pr - 1) else Npysort.get t3 k) as Hsw
    by (intros k; apply get_swap; lia).
  pose proof (seg_perm_length _ _ _ _ P4) as L4.
  destruct (partition_loop_spec (List.length t4) t4 vp pl pr pl (pr - 1))
    as (t5 & pi & E & P5 & H1 & H2 & H3 & H4 & H5).
  { lia. } { lia. } { lia. } { lia. } { lia. }
  { intros k Hk1 Hk2. assert (k = pl) as -> by lia.
    rewrite Hsw. repeat case_decide; try lia. done. }
  { intros k Hk1 Hk2. rewrite Hsw. repeat case_decide; try lia.
    - apply ltb_irrefl.
    - assert (k = pr) as -> by lia. done. }
  { rewrite Hsw. by rewrite decide_True. }
  rewrite E.
  pose proof (seg_perm_length _ _ _ _ P5) as L5.
  exists (Npysort.INTP_SWAP t5 pi (pr - 1)), pi. split; [done|]. split.
  { eapply seg_perm_trans; [exact P1|]. eapply seg_perm_trans; [exact P2|].
    eapply seg_perm_trans; [exact P3|]. eapply seg_perm_trans; [exact P4|].
    eapply seg_perm_trans; [exact P5|]. apply seg_perm_swap; lia. }
  split; [lia|]. split; [lia|].
  assert (forall k, Npysort.get (Npysort.INTP_SWAP t5 pi (pr - 1)) k
            = if decide (k = pr - 1) then Npysort.get t5 pi
              else if decide (k = pi) then Npysort.get t5 (pr - 1) else Npysort.get t5 k) as Hsw5
    by (intros k; apply get_swap; lia).
  assert (Npysort.get (Npysort.INTP_SWAP t5 pi (pr - 1)) pi = vp) as Hpiv.
  { rewrite Hsw5. destruct (decide (pi = pr - 1)) as [->|]; [exact H5|].
    rewrite decide_True by done. exact H5. }
  split.
  - intros k Hk1 Hk2. rewrite Hpiv, Hsw5, !decide_False by lia. apply H3; lia.
  - intros k Hk1 Hk2. rewrite Hpiv, Hsw5.
    destruct (decide (k = pr - 1)); [apply H4; lia|].
    rewrite decide_False by lia. apply H4; lia.
Qed.

(** ** The heap sort of a segment *)

Lemma valid_indices_insert a i x :
  valid_indices v a -> x < List.length v -> valid_indices v (<[i := x]> a).
Proof.
  intros Hv Hx k. destruct (decide (k = i)) as [->|Hne].
  - destruct (decide (i < List.length a)).
    + by rewrite get_insert_eq.
    + rewrite list_insert_ge by lia. apply Hv.
  - rewrite get_insert_ne by done. apply Hv.
Qed.

Lemma sift_spec fuel a tmp lo i j n :
  valid_indices v a ->
  1 <= lo -> lo <= i -> i <= n -> n < List.length a -> j = 2 * i -> n < j + fuel ->
  (forall p c, lo <= p -> p <> i -> c = 2 * p \/ c = 2 * p + 1 -> c <= n ->
     Npysort.lt v (Npysort.get a p) (Npysort.get a c) = false) ->
  (forall p c, lo <= p -> i = 2 * p \/ i = 2 * p + 1 ->
     c = 2 * i \/ c = 2 * i + 1 -> c <= n -> Npysort.lt v (Npysort.get a p) (Npysort.get a c) = false) ->
  (forall p, lo <= p -> i = 2 * p \/ i = 2 * p + 1 -> Npysort.lt v (Npysort.get a p) tmp = false) ->
  heap_order v (Npysort.sift v fuel a tmp i j n) lo n
  /\ Npysort.sift v fuel a tmp i j n ≡ₚ <[i := tmp]> a
  /\ (forall k, k < i \/ n < k -> Npysort.get (Npysort.sift v fuel a tmp i j n) k = Npysort.get a k)
  /\ (forall k, i <= k -> k <= n ->
        Npysort.get (Npysort.sift v fuel a tmp i j n) k = tmp
        \/ exists k', i < k' /\ k' <= n
             /\ Npysort.get (Npysort.sift v fuel a tmp i j n) k = Npysort.get a k').
Proof using Hnum.
  revert a i j.
  assert (forall a i,
    valid_indices v a -> 1 <= lo -> lo <= i -> i <= n -> n < List.length a ->
    (forall p c, lo <= p -> p <> i -> c = 2 * p \/ c = 2 * p + 1 -> c <= n ->
       Npysort.lt v (Npysort.get a p) (Npysort.get a c) = false) ->
    (forall p, lo <= p -> i = 2 * p \/ i = 2 * p + 1 -> Npysort.lt v (Npysort.get a p) tmp = false) ->
    (forall c, c = 2 * i \/ c = 2 * i + 1 -> c <= n -> Npysort.lt v tmp (Npysort.get a c) = false) ->
    heap_order v (<[i := tmp]> a) lo n
    /\ <[i := tmp]> a ≡ₚ <[i := tmp]> a
    /\ (forall k, k < i \/ n < k -> Npysort.get (<[i := tmp]> a) k = Npysort.get a k)
    /\ (forall k, i <= k -> k <= n ->
          Npysort.get (<[i := tmp]> a) k = tmp
          \/ exists k', i < k' /\ k' <= n /\ Npysort.get (<[i := tmp]> a) k = Npysort.get a k'))
    as Hstop.
  { intros a i Hv Hlo Hi Hin Hn H1 H2 HC.
    split; [|split; [done|split]].
    - intros p c Hp Hc Hcn.
      destruct (decide (p = i)) as [->|Hpi].
      + rewrite get_insert_eq by lia. rewrite get_insert_ne by lia. by apply HC.
      + rewrite (get_insert_ne _ _ _ p) by done.
        destruct (decide (c = i)) as [->|Hci].
        * rewrite get_insert_eq by lia. by apply H2.
        * rewrite get_insert_ne by done. by apply H1.
    - intros k Hk. apply get_insert_ne. lia.
    - intros k Hk1 Hk2. destruct (decide (k = i)) as [->|Hne].
      + left. apply get_insert_eq. lia.
      + right. exists k. split; [lia|]. split; [done|]. by apply get_insert_ne. }
  induction fuel as [|fuel IH]; intros a i j Hv Hlo Hi Hin Hn Hj Hfuel H1 H3 H2.
  - simpl. apply Hstop; try done. intros c Hc Hcn. lia.
  - simpl. destruct (Nat.leb_spec j n) as [Hjn|Hjn].
    2:{ apply Hstop; try done. intros c Hc Hcn. lia. }
    set (jm := if Nat.ltb j n && Npysort.lt v (Npysort.get a j) (Npysort.get a (S j)) then S j else j).
    assert ((jm = 2 * i \/ jm = 2 * i + 1) /\ jm <= n
            /\ forall c, c = 2 * i \/ c = 2 * i + 1 -> c <= n ->
                 Npysort.lt v (Npysort.get a jm) (Npysort.get a c) = false) as (Hjm & Hjmn & Hmax).
    { unfold jm. destruct (Nat.ltb_spec j n) as [Hlt|Hge].
      - destruct (Npysort.lt v (Npysort.get a j) (Npysort.get a (S j))) eqn:E; cbn [andb].
        + split; [lia|]. split; [lia|]. intros c Hc Hcn.
          assert (c = j \/ c = S j) as [-> | ->] by lia.
          * by apply ltb_asym.
          * apply ltb_irrefl.
        + split; [lia|]. split; [lia|]. intros c Hc Hcn.
          assert (c = j \/ c = S j) as [-> | ->] by lia.
          * apply ltb_irrefl.
          * done.
      - cbn [andb]. split; [lia|]. split; [lia|]. intros c Hc Hcn.
        assert (c = j) as -> by lia. apply ltb_irrefl. }
    clearbody jm.
    destruct (Npysort.lt v tmp (Npysort.get a jm)) eqn:Etmp.
    2:{ apply Hstop; try done. intros c Hc Hcn.
        apply (ltb_negtrans _ (Npysort.get a jm)); [apply Hv|done|by apply Hmax]. }
    set (a1 := <[i := Npysort.get a jm]> a).
    assert (forall k, Npysort.get a1 k = if decide (k = i) then Npysort.get a jm else Npysort.get a k) as Ha1.
    { intros k. unfold a1. destruct (decide (k = i)) as [->|?].
      - apply get_insert_eq. lia.
      - by apply get_insert_ne. }
    destruct (IH a1 jm (jm + jm)) as (R1 & R2 & R3 & R4).
    + unfold a1. apply valid_indices_insert; [done|apply Hv].
    + done.
    + lia.
    + done.
    + unfold a1. rewrite length_insert. done.
    + lia.
    + lia.
    + intros p c Hp Hpj Hc Hcn. rewrite !Ha1.
      destruct (decide (p = i)) as [->|Hpi].
      * rewrite decide_False by lia. by apply Hmax.
      * destruct (decide (c = i)) as [->|Hci].
        -- apply (H3 p jm); try done. 
        -- by apply H1.
    + intros p c Hp Hpar Hc Hcn.
      assert (p = i) as -> by lia.
      rewrite !Ha1. rewrite decide_True by done. rewrite decide_False by lia.
      apply H1; try done; lia.
    + intros p Hp Hpar. assert (p = i) as -> by lia.
      rewrite Ha1, decide_True by done. by apply ltb_asym.
    + split; [done|]. split; [|split].
      * rewrite R2. unfold a1.
        set (F := <[i := tmp]> a).
        assert (List.length F = List.length a) as HlenF by (unfold F; by rewrite length_insert).
        assert (<[jm := tmp]> (<[i := Npysort.get a jm]> a) = Npysort.INTP_SWAP F i jm) as ->.
        { unfold Npysort.INTP_SWAP, F.
          rewrite get_insert_eq by lia. rewrite get_insert_ne by lia.
          by rewrite list_insert_insert_eq. }
        apply swap_Permutation; lia.
      * intros k Hk. rewrite R3 by lia. rewrite Ha1. rewrite decide_False by lia. done.
      * intros k Hk1 Hk2. destruct (decide (jm <= k)) as [Hge|Hlt].
        -- destruct (R4 k Hge Hk2) as [?|(k' & Hk'1 & Hk'2 & E)]; [by left|].
           right. exists k'. split; [lia|]. split; [done|].
           rewrite E, Ha1. rewrite decide_False by lia. done.
        -- right. rewrite R3 by lia. rewrite Ha1.
           destruct (decide (k = i)) as [->|Hne].
           ++ exists jm. split; [lia|]. done.
           ++ exists k. split; [lia|]. done.
Qed.

Lemma heapify_spec l a n :
  valid_indices v a -> l <= n -> n < List.length a ->
  heap_order v a (S l) n ->
  heap_order v (Npysort.heapify v l a n) 1 n
  /\ Npysort.heapify v l a n ≡ₚ a
  /\ (forall k, k = 0 \/ n < k -> Npysort.get (Npysort.heapify v l a n) k = Npysort.get a k).
Proof using Hnum.
  revert a. induction l as [|l IH]; intros a Hv Hl Hn Hh; simpl.
  - done.
  - assert (forall p c, S l <= p -> p <> S l -> c = 2 * p \/ c = 2 * p + 1 -> c <= n ->
              Npysort.lt v (Npysort.get a p) (Npysort.get a c) = false) as H1.
    { intros p c Hp Hpi Hc Hcn. apply Hh; try done. lia. }
    destruct (sift_spec n a (Npysort.get a (S l)) (S l) (S l) (S l + S l) n)
      as (S1 & S2 & S3 & _); [done|lia|lia|lia|lia|lia|lia|done| | |].
    { intros p c Hp Hpar. lia. }
    { intros p Hp Hpar. lia. }
    rewrite list_insert_id in S2 by (apply lookup_get; lia).
    destruct (IH (Npysort.sift v n a (Npysort.get a (S l)) (S l) (S l + S l) n))
      as (I1 & I2 & I3); [by eapply valid_indices_Permutation|lia|by rewrite S2|done|].
    split; [done|]. split; [by rewrite I2|].
    intros k Hk. rewrite I3 by done. apply S3. lia.
Qed.

Lemma heap_root_max a n k :
  valid_indices v a -> heap_order v a 1 n -> 1 <= k -> k <= n ->
  Npysort.lt v (Npysort.get a 1) (Npysort.get a k) = false.
Proof using Hnum.
  intros Hv Hh. induction (lt_wf k) as [k _ IH]. intros Hk1 Hkn.
  destruct (decide (k = 1)) as [->|Hne]; [apply ltb_irrefl|].
  pose proof (Nat.div2_odd k) as Hk. 
  assert (k = 2 * Nat.div2 k \/ k = 2 * Nat.div2 k + 1) as Hc.
  { destruct (Nat.odd k); simpl in Hk; lia. }
  generalize dependent (Nat.div2 k). intros p _ Hc.
  apply (ltb_negtrans _ (Npysort.get a p)); [apply Hv| |].
  - apply IH; lia.
  - apply Hh; try done. lia.
Qed.

Lemma heap_extract_spec m a N :
  valid_indices v a -> 1 <= m -> m <= N -> N < List.length a ->
  heap_order v a 1 m ->
  sorted_range v a (S m) (S N) ->
  (forall k k', 1 <= k -> k <= m -> m < k' -> k' <= N ->
     Npysort.lt v (Npysort.get a k') (Npysort.get a k) = false) ->
  sorted_range v (Npysort.heap_extract v m a) 1 (S N)
  /\ Npysort.heap_extract v m a ≡ₚ a
  /\ (forall k, k = 0 \/ N < k -> Npysort.get (Npysort.heap_extract v m a) k = Npysort.get a k).
Proof using Hnum.
  revert a. induction m as [|m' IH]; intros a Hv Hm HmN HN Hh Hs Hcross; [lia|].
  destruct m' as [|m''].
  - simpl. split; [|done]. intros i j Hi Hij Hj.
    destruct (decide (i = 1)) as [->|Hne].
    + apply Hcross; lia.
    + apply Hs; lia.
  - set (m := S (S m'')) in *. set (m' := S m'') in *.
    change (Npysort.heap_extract v m a)
      with (Npysort.heap_extract v m'
              (Npysort.sift v m' (<[m := Npysort.get a 1]> a) (Npysort.get a m) 1 2 m')).
    set (a1 := <[m := Npysort.get a 1]> a).
    assert (forall k, Npysort.get a1 k = if decide (k = m) then Npysort.get a 1 else Npysort.get a k) as Ha1.
    { intros k. unfold a1. destruct (decide (k = m)) as [->|?].
      - apply get_insert_eq. lia.
      - by apply get_insert_ne. }
    assert (List.length a1 = List.length a) as Hlen1 by (unfold a1; by rewrite length_insert).
    assert (valid_indices v a1) as Hv1 by (unfold a1; apply valid_indices_insert; [done|apply Hv]).
    assert (forall p c, 1 <= p -> p <> 1 -> c = 2 * p \/ c = 2 * p + 1 -> c <= m' ->
              Npysort.lt v (Npysort.get a1 p) (Npysort.get a1 c) = false) as H1.
    { intros p c Hp Hpi Hc Hcn. rewrite !Ha1.
      rewrite !decide_False by (unfold m, m' in *; lia).
      apply Hh; try done. unfold m, m' in *; lia. }
    destruct (sift_spec m' a1 (Npysort.get a m) 1 1 2 m') as (S1 & S2 & S3 & S4);
      [done|lia|lia|unfold m'; lia|unfold m, m' in *; lia|lia|lia|done| | |].
    { intros p c Hp Hpar. lia. }
    { intros p Hp Hpar. lia. }
    set (R1 := Npysort.sift v m' a1 (Npysort.get a m) 1 2 m') in *.
    assert (R1 ≡ₚ a) as HP1.
    { rewrite S2. unfold a1.
      assert (<[1 := Npysort.get a m]> (<[m := Npysort.get a 1]> a) = Npysort.INTP_SWAP a m 1) as -> by done.
      apply swap_Permutation; unfold m in *; lia. }
    assert (forall k, 1 <= k -> k <= m' -> exists k', 1 <= k' /\ k' <= m /\ Npysort.get R1 k = Npysort.get a k')
      as Hfrom.
    { intros k Hk1 Hk2. destruct (S4 k Hk1 Hk2) as [E|(k' & Hk'1 & Hk'2 & E)].
      - exists m. split; [unfold m; lia|]. split; [done|]. done.
      - exists k'. split; [lia|]. split; [unfold m, m' in *; lia|].
        rewrite E, Ha1. rewrite decide_False by (unfold m, m' in *; lia). done. }
    assert (forall k, m' < k -> Npysort.get R1 k = if decide (k = m) then Npysort.get a 1 else Npysort.get a k)
      as Htail.
    { intros k Hk. rewrite S3 by lia. apply Ha1. }
    destruct (IH R1) as (I1 & I2 & I3);
      [by apply (valid_indices_Permutation a)|unfold m'; lia|unfold m, m' in *; lia
      |rewrite HP1; done|done| | |].
    { intros i j Hi Hij Hj. rewrite !Htail by (unfold m' in *; lia).
      rewrite (decide_False (P := j = m)) by (unfold m, m' in *; lia).
      destruct (decide (i = m)) as [->|Hne].
      - apply Hcross; unfold m, m' in *; lia.
      - apply Hs; unfold m, m' in *; lia. }
    { intros k k' Hk1 Hk2 Hk'1 Hk'2.
      destruct (Hfrom k Hk1 Hk2) as (k0 & Hk01 & Hk02 & ->).
      rewrite Htail by done.
      destruct (decide (k' = m)) as [->|Hne].
      - by apply heap_root_max with m.
      - apply Hcross; unfold m, m' in *; lia. }
    split; [done|]. split; [by rewrite I2|].
    intros k Hk. rewrite I3 by (unfold m' in *; lia).
    destruct Hk as [->|Hk].
    + rewrite S3 by lia. rewrite Ha1. rewrite decide_False by (unfold m; lia). done.
    + rewrite Htail by (unfold m' in *; lia).
      rewrite decide_False by (unfold m in *; lia). done.
Qed.

Lemma get_app3 (A B C : list nat) k :
  Npysort.get (A ++ B ++ C) k
  = if decide (k < List.length A) then Npysort.get A k
    else if decide (k < List.length A + List.length B) then Npysort.get B (k - List.length A)
    else Npysort.get C (k - List.length A - List.length B).
Proof.
  rewrite !get_lookup. destruct (decide (k < List.length A)) as [H1|H1].
  - by rewrite lookup_app_l.
  - rewrite lookup_app_r by lia.
    destruct (decide (k < List.length A + List.length B)) as [H2|H2].
    + by rewrite lookup_app_l by lia.
    + by rewrite lookup_app_r by lia.
Qed.

Lemma aheapsort_spec t pl pr :
  valid_indices v t -> pl <= pr -> pr < List.length t ->
  sorted_range v (Npysort.aheapsort v t pl pr) pl (S pr)
  /\ seg_perm pl pr t (Npysort.aheapsort v t pl pr).
Proof using Hnum.
  intros Hv Hle Hlt. unfold Npysort.aheapsort.
  set (n := S pr - pl).
  set (seg := take n (drop pl t)).
  assert (List.length seg = n) as Hlseg
    by (unfold seg, n; rewrite length_take, length_drop; lia).
  assert (List.length (take pl t) = pl) as HlA by (rewrite length_take; lia).
  assert (t = take pl t ++ seg ++ drop (pl + n) t) as Ht.
  { unfold seg. rewrite <- drop_drop, take_drop, take_drop. done. }
  set (a := 0 :: seg).
  assert (List.length a = S n) as Hla by (unfold a; simpl; by rewrite Hlseg).
  assert (0 < List.length v) as Hpos by (pose proof (Hv 0); lia).
  assert (valid_indices v a) as Hva.
  { intros k. rewrite get_lookup. destruct (a !! k) as [x|] eqn:E; simpl; [|done].
    destruct k as [|k]; simpl in E; [by injection E as <-|].
    unfold seg in E. apply lookup_take_Some in E as [E _].
    rewrite lookup_drop in E. pose proof (Hv (pl + k)) as Hk.
    rewrite get_lookup, E in Hk. done. }
  pose proof (Nat.div2_odd n) as Hdiv.
  assert (n < 2 * S (Nat.div2 n) /\ Nat.div2 n <= n) as [Hd1 Hd2]
    by (destruct (Nat.odd n); simpl in Hdiv; lia).
  generalize dependent (Nat.div2 n). intros d _ Hd1 Hd2.
  destruct (heapify_spec d a n) as (H1 & H2 & H3); [done|done|lia| |].
  { intros p c Hp Hc Hcn. lia. }
  set (a1 := Npysort.heapify v d a n) in *.
  destruct (heap_extract_spec n a1 n) as (E1 & E2 & E3);
    [by apply (valid_indices_Permutation a)|unfold n; lia|done|rewrite H2; lia|done| | |].
  { intros i j Hi Hij Hj. lia. }
  { intros k k' Hk1 Hk2 Hk3 Hk4. lia. }
  set (a2 := Npysort.heap_extract v n a1) in *.
  assert (a2 ≡ₚ a) as HP2 by (by rewrite E2).
  assert (Npysort.get a2 0 = 0) as Ha20 by (rewrite E3, H3 by (by left); done).
  assert (a2 = 0 :: drop 1 a2) as Ea2.
  { assert (List.length a2 = S n) as Hl2 by (by rewrite HP2).
    destruct a2 as [|x tl]; [done|]. unfold Npysort.get in Ha20. simpl in Ha20.
    by rewrite Ha20. }
  set (tl := drop 1 a2) in *.
  assert (tl ≡ₚ seg) as Htl.
  { apply (Permutation_cons_inv (a := 0)). by rewrite <- Ea2. }
  assert (List.length tl = n) as Hltl by (by rewrite Htl).
  assert (forall k, Npysort.get tl k = Npysort.get a2 (S k)) as Hgtl.
  { intros k. rewrite Ea2. done. }
  set (R := take pl t ++ tl ++ drop (pl + n) t).
  assert (forall k, pl <= k -> k <= pr -> Npysort.get R k = Npysort.get a2 (S (k - pl))) as Hin.
  { intros k Hk1 Hk2. unfold R. rewrite get_app3, HlA, Hltl.
    rewrite decide_False by lia. rewrite decide_True by (unfold n; lia). apply Hgtl. }
  assert (forall k, k < pl \/ pr < k -> Npysort.get R k = Npysort.get t k) as Hout.
  { intros k Hk. unfold R.
    replace (Npysort.get t k) with (Npysort.get (take pl t ++ seg ++ drop (pl + n) t) k)
      by (by rewrite <- Ht).
    rewrite !get_app3, HlA, Hltl, Hlseg.
    destruct (decide (k < pl)); [done|].
    rewrite !decide_False by (unfold n; lia). done. }
  split; [|split; [|split]].
  - intros i j Hi Hij Hj. rewrite !Hin by lia. apply E1; unfold n; lia.
  - unfold R. rewrite Htl. by rewrite <- Ht.
  - done.
  - intros j Hj. rewrite Hin by lia. rewrite <- Hgtl.
    assert (tl !! (j - pl) = Some (Npysort.get tl (j - pl))) as Hx
      by (apply lookup_get; unfold n in *; lia).
    generalize dependent (Npysort.get tl (j - pl)). intros x Hx.
    apply list_elem_of_lookup_2 in Hx. rewrite Htl in Hx.
    apply list_elem_of_lookup in Hx as [idx Hidx].
    unfold seg in Hidx. apply lookup_take_Some in Hidx as [Hidx Hlt'].
    rewrite lookup_drop in Hidx.
    exists (pl + idx). split; [unfold n in *; lia|].
    by rewrite (get_lookup t), Hidx.
Qed.

(** ** The loops of the introsort *)

Lemma valid_indices_of_Permutation t :
  t ≡ₚ seq 0 (List.length v) -> 0 < List.length v -> valid_indices v t.
Proof.
  intros P Hn k. rewrite get_lookup. destruct (t !! k) as [x|] eqn:E; simpl; [|done].
  apply list_elem_of_lookup_2 in E. rewrite P in E. apply elem_of_seq in E. lia.
Qed.

Lemma disjoint_segs_app l1 l2 :
  disjoint_segs l1 -> disjoint_segs l2 ->
  (forall s s', s ∈ l1 -> s' ∈ l2 -> apart s s') ->
  disjoint_segs (l1 ++ l2).
Proof.
  induction l1 as [|s l1 IH]; intros H1 H2 H12; simpl; [done|].
  destruct H1 as [H1 H1']. split.
  - apply Forall_app. split; [done|]. apply Forall_forall. intros s' Hs'.
    apply H12; [left|done].
  - apply IH; [done|done|]. intros s0 s' Hs0 Hs'. apply H12; [by right|done].
Qed.

Lemma segs_inv_replace t t' pl pr news rest :
  segs_inv v t ((pl, pr) :: rest) -> seg_perm pl pr t t' ->
  Forall (fun s => pl <= s.1 /\ s.1 <= s.2 /\ s.2 <= pr) news ->
  disjoint_segs news ->
  (forall i j, pl <= i -> i < j -> j <= pr ->
     Exists (within i j) news \/ Npysort.lt v (Npysort.get t' j) (Npysort.get t' i) = false) ->
  segs_inv v t' (news ++ rest).
Proof.
  intros (P & B & D & O) (P' & Out & From) Hnews Dnews Onews.
  apply Forall_cons in B as [[B1 B2] B]. simpl in B1, B2.
  destruct D as [D1 D]. rewrite Forall_forall in D1.
  split; [by rewrite P'|]. split; [|split].
  - apply Forall_app. split; [|done].
    eapply Forall_impl; [exact Hnews|]. simpl. intros s Hs. lia.
  - apply disjoint_segs_app; [done|done|].
    intros s s' Hs Hs'. rewrite Forall_forall in Hnews.
    specialize (Hnews s Hs). specialize (D1 s' Hs'). unfold apart in *. simpl in *. lia.
  - intros i j Hij Hj.
    assert (forall i' j', i' < j' -> j' < List.length v ->
              ~ (pl <= i' /\ j' <= pr) ->
              (pl <= i' <= pr \/ pl <= j' <= pr) ->
              Npysort.lt v (Npysort.get t j') (Npysort.get t i') = false) as Hcross.
    { intros i' j' Hij' Hj' Hnot Hone.
      destruct (O i' j' Hij' Hj') as [Hex|?]; [|done].
      apply Exists_cons in Hex as [[? ?]|Hex]; [simpl in *; lia|].
      apply Exists_exists in Hex as (s' & Hs' & [? ?]).
      specialize (D1 s' Hs'). unfold apart in D1. simpl in *. lia. }
    destruct (decide (pl <= i <= pr)) as [Hi|Hi], (decide (pl <= j <= pr)) as [Hj'|Hj'].
    + destruct (Onews i j) as [Hex|?]; [lia|lia|lia| |by right].
      left. apply Exists_app. by left.
    + right. rewrite (Out j) by lia.
      destruct (From i Hi) as (i' & Hi' & ->). apply Hcross; lia.
    + right. rewrite (Out i) by lia.
      destruct (From j Hj') as (j' & Hj'' & ->). apply Hcross; lia.
    + rewrite (Out i), (Out j) by lia.
      destruct (O i j Hij Hj) as [Hex|?]; [|by right].
      apply Exists_cons in Hex as [[? ?]|Hex]; [simpl in *; lia|].
      left. apply Exists_app. by right.
Qed.

Lemma quick_loop_spec fuel t pl pr cdepth stack :
  segs_inv v t ((pl, pr) :: map seg_of stack) -> pr - pl <= fuel ->
  exists t' pl' pr' stack',
    Npysort.quick_loop v fuel t pl pr cdepth stack = (t', pl', pr', stack')
    /\ segs_inv v t' ((pl', pr') :: map seg_of stack')
    /\ total_size ((pl', pr') :: map seg_of stack')
       <= total_size ((pl, pr) :: map seg_of stack).
Proof using Hnum.
  revert t pl pr cdepth stack.
  induction fuel as [|fuel IH]; intros t pl pr cdepth stack Hinv Hfuel.
  - simpl. eexists _, _, _, _. split; [done|]. split; [done|]. done.
  - simpl. destruct (Nat.ltb_spec Npysort.SMALL_QUICKSORT (pr - pl)) as [Hbig|Hsmall].
    2:{ eexists _, _, _, _. split; [done|]. split; [done|]. done. }
    unfold Npysort.SMALL_QUICKSORT in Hbig.
    pose proof Hinv as (P & B & _).
    apply Forall_cons in B as [[B1 B2] _]. simpl in B1, B2.
    assert (List.length t = List.length v) as Hlen by (by rewrite P, length_seq).
    assert (valid_indices v t) as Hv by (apply valid_indices_of_Permutation; [done|lia]).
    destruct (partition_spec t pl pr Hv ltac:(lia) ltac:(lia))
      as (t1 & pi & -> & P1 & Hpi1 & Hpi2 & Hleft & Hright).
    assert (valid_indices v t1) as Hv1 by (by eapply valid_indices_seg_perm).
    assert (forall i j, pl <= i -> i < j -> j <= pr ->
              Exists (within i j) [(pl, pi - 1); (pi + 1, pr)]
              \/ Npysort.lt v (Npysort.get t1 j) (Npysort.get t1 i) = false) as Hord.
    { intros i j Hi Hij Hj.
      destruct (decide (j < pi)) as [?|?].
      { left. apply Exists_cons. left. unfold within. simpl. lia. }
      destruct (decide (pi < i)) as [?|?].
      { left. apply Exists_cons. right. apply Exists_cons. left. unfold within. simpl. lia. }
      right. destruct (decide (i = pi)) as [->|?]; [apply Hright; lia|].
      destruct (decide (j = pi)) as [->|?]; [apply Hleft; lia|].
      apply (ltb_negtrans _ (Npysort.get t1 pi)); [apply Hv1|apply Hright; lia|apply Hleft; lia]. }
    destruct (Nat.ltb_spec (pi - pl) (pr - pi)) as [Hside|Hside].
    + destruct (IH t1 pl (pi - 1) (cdepth - 1)%Z ((pi + 1, pr, (cdepth - 1)%Z) :: stack))
        as (t' & pl' & pr' & stack' & E & Hinv' & Hsize); [|lia|].
      { apply (segs_inv_replace t t1 pl pr [(pl, pi - 1); (pi + 1, pr)] (map seg_of stack));
          [done|done| | |done].
        - repeat constructor; simpl; lia.
        - simpl. split; [|done]. constructor; [|constructor]. unfold apart. simpl. lia. }
      eexists _, _, _, _. split; [exact E|]. split; [done|].
      etrans; [exact Hsize|]. simpl. lia.
    + destruct (IH t1 (pi + 1) pr (cdepth - 1)%Z ((pl, pi - 1, (cdepth - 1)%Z) :: stack))
        as (t' & pl' & pr' & stack' & E & Hinv' & Hsize); [|lia|].
      { apply (segs_inv_replace t t1 pl pr [(pi + 1, pr); (pl, pi - 1)] (map seg_of stack));
          [done|done| | |].
        - repeat constructor; simpl; lia.
        - simpl. split; [|done]. constructor; [|constructor]. unfold apart. simpl. lia.
        - intros i j Hi Hij Hj. destruct (Hord i j Hi Hij Hj) as [Hex|?]; [|by right].
          left. rewrite !Exists_cons in *. tauto. }
      eexists _, _, _, _. split; [exact E|]. split; [done|].
      etrans; [exact Hsize|]. simpl. lia.
Qed.

Lemma outer_loop_spec fuel t pl pr cdepth stack :
  segs_inv v t ((pl, pr) :: map seg_of stack) ->
  total_size ((pl, pr) :: map seg_of stack) <= fuel ->
  segs_inv v (Npysort.outer_loop v fuel t pl pr cdepth stack) [].
Proof using Hnum.
  revert t pl pr cdepth stack.
  induction fuel as [|fuel IH]; intros t pl pr cdepth stack Hinv Hfuel.
  { simpl in Hfuel. lia. }
  simpl.
  assert (exists t1 stack1,
    (if Z.ltb cdepth 0 then (Npysort.aheapsort v t pl pr, stack)
     else let '(t0, pl0, pr0, stack0) :=
            Npysort.quick_loop v (List.length t) t pl pr cdepth stack in
          (Npysort.insertion_sort v t0 pl0 pr0, stack0)) = (t1, stack1)
    /\ segs_inv v t1 (map seg_of stack1)
    /\ total_size (map seg_of stack1) <= fuel) as (t1 & stack1 & -> & Hinv1 & Hsize1).
  { destruct (Z.ltb cdepth 0).
    - eexists _, _. split; [done|].
      pose proof Hinv as (P & B & _).
      apply Forall_cons in B as [[B1 B2] _]. simpl in B1, B2.
      assert (List.length t = List.length v) as Hlen by (by rewrite P, length_seq).
      assert (valid_indices v t) as Hv by (apply valid_indices_of_Permutation; [done|lia]).
      destruct (aheapsort_spec t pl pr Hv ltac:(lia) ltac:(lia)) as [Hs Hp].
      split.
      + apply (segs_inv_replace t _ pl pr [] (map seg_of stack)); [done|done|done|done|].
        intros i j Hi Hij Hj. right. apply Hs; lia.
      + simpl in Hfuel. lia.
    - pose proof Hinv as (P0 & B0 & _).
      apply Forall_cons in B0 as [[B01 B02] _]. simpl in B01, B02.
      assert (List.length t = List.length v) as Hlen0 by (by rewrite P0, length_seq).
      destruct (quick_loop_spec (List.length t) t pl pr cdepth stack Hinv ltac:(lia))
        as (t' & pl' & pr' & stack' & -> & Hinv' & Hsize').
      eexists _, _. split; [done|].
      pose proof Hinv' as (P & B & _).
      apply Forall_cons in B as [[B1 B2] _]. simpl in B1, B2.
      assert (List.length t' = List.length v) as Hlen by (by rewrite P, length_seq).
      assert (valid_indices v t') as Hv by (apply valid_indices_of_Permutation; [done|lia]).
      destruct (insertion_sort_spec t' pl' pr' Hv ltac:(lia) ltac:(lia)) as [Hs Hp].
      split.
      + apply (segs_inv_replace t' _ pl' pr' [] (map seg_of stack')); [done|done|done|done|].
        intros i j Hi Hij Hj. right. apply Hs; lia.
      + simpl in Hfuel, Hsize'. lia. }
  destruct stack1 as [|[[pl1 pr1] cd1] stack1]; [done|].
  apply IH; done.
Qed.

Lemma segs_inv_sorted t :
  segs_inv v t [] ->
  t ≡ₚ seq 0 (List.length v) /\ sorted_range v t 0 (List.length v).
Proof.
  intros (P & _ & _ & O). split; [done|]. intros i j _ Hij Hj.
  destruct (O i j Hij Hj) as [Hex|?]; [|done]. by apply Exists_nil in Hex.
Qed.

Lemma aquicksort_spec :
  Npysort.aquicksort v ≡ₚ seq 0 (List.length v)
  /\ sorted_range v (Npysort.aquicksort v) 0 (List.length v).
Proof using Hnum.
  unfold Npysort.aquicksort.
  destruct (decide (List.length v = 0)) as [E|Hn].
  { rewrite E. simpl. split; [done|]. intros i j; lia. }
  apply segs_inv_sorted, (outer_loop_spec _ _ _ _ _ []).
  - split; [done|]. split; [|split].
    + repeat constructor; simpl; lia.
    + simpl. done.
    + intros i j Hij Hj. left. apply Exists_cons. left. unfold within. simpl. lia.
  - simpl. lia.
Qed.

(** ** The insertion sort is stable *)

Lemma insertion_shift_stable t pl pj :
  valid_indices v t -> pl <= pj -> pj < List.length t ->
  stable_range v t pl pj ->
  (forall k, pl <= k -> k < pj -> Npysort.get t k < Npysort.get t pj) ->
  stable_range v (Npysort.insertion_shift v t pl pj (Npysort.get t pj)) pl (S pj).
Proof using Hnum.
  intros Hv Hle Hlt Hs Hidx.
  destruct (insertion_shift_spec t pl pj (Npysort.get t pj) Hle Hlt)
    as (q & Hq & HP & Hvi & Hout & Hsh & Hb).
  set (R := Npysort.insertion_shift v t pl pj (Npysort.get t pj)) in *.
  assert (forall i, pl <= i -> i < q -> Npysort.lt v (Npysort.get t pj) (Npysort.get t i) = false) as Hleft.
  { intros i Hi1 Hi2. destruct Hb as [->|[Hb1 Hb2]]; [lia|].
    destruct (decide (i = q - 1)) as [->|Hne]; [done|].
    apply (ltb_negtrans _ (Npysort.get t (q - 1))); [apply Hv|done|].
    apply Hs; lia. }
  intros i j Hi Hij Hj.
  destruct (decide (j < q)) as [Hjq|Hjq].
  { rewrite !Hout by lia. apply Hs; lia. }
  destruct (decide (j = q)) as [->|Hjq'].
  { rewrite Hvi, Hout by lia. split; [by apply Hleft|]. intros _. apply Hidx; lia. }
  destruct (Hsh j ltac:(lia)) as [Ej Hj'].
  destruct (decide (i < q)) as [Hiq|Hiq].
  { rewrite Ej, Hout by lia. apply Hs; lia. }
  destruct (decide (i = q)) as [->|Hiq'].
  { rewrite Ej, Hvi. split; [by apply ltb_asym|]. congruence. }
  destruct (Hsh i ltac:(lia)) as [Ei Hi'].
  rewrite Ei, Ej. apply Hs; lia.
Qed.

Lemma insertion_loop_stable count t pl pi :
  valid_indices v t -> pl < pi -> pi + count <= List.length t ->
  stable_range v t pl pi ->
  (forall k k', pl <= k -> k < k' -> pi <= k' -> k' < pi + count -> Npysort.get t k < Npysort.get t k') ->
  stable_range v (Npysort.insertion_loop v count t pl pi) pl (pi + count).
Proof using Hnum.
  revert t pi. induction count as [|count IH]; intros t pi Hv Hpl Hlen Hs Hidx; simpl.
  - by rewrite Nat.add_0_r.
  - destruct (insertion_shift_sorted t pl pi Hv ltac:(lia) ltac:(lia)) as [_ Hp1].
    { intros i j Hi Hij Hj. by apply Hs. }
    pose proof (insertion_shift_stable t pl pi Hv ltac:(lia) ltac:(lia) Hs) as Hs1.
    set (t1 := Npysort.insertion_shift v t pl pi (Npysort.get t pi)) in *.
    pose proof (seg_perm_length _ _ _ _ Hp1) as Hlen1.
    destruct Hp1 as (P1 & O1 & F1).
    replace (pi + S count) with (S pi + count) by lia.
    apply IH; try lia.
    + by eapply valid_indices_Permutation.
    + apply Hs1. intros k Hk1 Hk2. apply Hidx; lia.
    + intros k k' Hk Hkk' Hk'1 Hk'2. rewrite (O1 k') by lia.
      destruct (decide (k <= pi)) as [?|?].
      * destruct (F1 k ltac:(lia)) as (k0 & Hk0 & ->). apply Hidx; lia.
      * rewrite (O1 k) by lia. apply Hidx; lia.
Qed.

Lemma insertion_sort_stable t pl pr :
  valid_indices v t -> pl <= pr -> pr < List.length t ->
  (forall k k', pl <= k -> k < k' -> k' <= pr -> Npysort.get t k < Npysort.get t k') ->
  stable_range v (Npysort.insertion_sort v t pl pr) pl (S pr).
Proof using Hnum.
  intros Hv Hle Hlt Hidx. unfold Npysort.insertion_sort.
  replace (S pr) with (S pl + (pr - pl)) by lia.
  apply insertion_loop_stable; try done; try lia.
  - intros i j Hi Hij Hj. lia.
  - intros k k' Hk Hkk' Hk1 Hk2. apply Hidx; lia.
Qed.

(** Up to 16 elements the default sort is the insertion sort. *)
Lemma aquicksort_small :
  List.length v <= 16 ->
  Npysort.aquicksort v
  = Npysort.insertion_sort v (seq 0 (List.length v)) 0 (List.length v - 1).
Proof.
  intros Hn. unfold Npysort.aquicksort. generalize (List.length v) Hn. clear Hn.
  intros n Hn. simpl.
  assert (Z.ltb (Npysort.npy_get_msb n * 2) 0 = false) as ->.
  { apply Z.ltb_ge. unfold Npysort.npy_get_msb. pose proof (Z.log2_nonneg (Z.of_nat n)). lia. }
  assert (Npysort.quick_loop v (List.length (seq 0 n)) (seq 0 n) 0 (n - 1)
            (Npysort.npy_get_msb n * 2) []
          = (seq 0 n, 0, n - 1, [])) as ->; [|done].
  destruct (List.length (seq 0 n)); simpl; [done|].
  destruct (Nat.ltb_spec Npysort.SMALL_QUICKSORT (n - 1 - 0)) as [H|H]; [|done].
  unfold Npysort.SMALL_QUICKSORT in H. lia.
Qed.

Lemma get_seq n k : k < n -> Npysort.get (seq 0 n) k = k.
Proof. intros H. rewrite get_lookup, lookup_seq_lt by done. done. Qed.

Lemma aquicksort_small_stable :
  List.length v <= 16 ->
  stable_range v (Npysort.aquicksort v) 0 (List.length v).
Proof using Hnum.
  intros Hn. rewrite aquicksort_small by done.
  destruct (decide (List.length v = 0)) as [E|Hne].
  { rewrite E. intros i j; lia. }
  pose proof (insertion_sort_stable (seq 0 (List.length v)) 0 (List.length v - 1)) as H.
  replace (S (List.length v - 1)) with (List.length v) in H by lia.
  apply H.
  - apply valid_indices_of_Permutation; [done|lia].
  - lia.
  - rewrite length_seq. lia.
  - intros k k' Hk Hkk' Hk'. rewrite !get_seq by lia. done.
Qed.

(** ** The default sort meets what [merge] needs of [np.argsort] *)

Lemma StronglySorted_pointwise (R : nat -> nat -> Prop) (l : list nat) :
  (forall i j, i < j -> j < List.length l -> R (Npysort.get l i) (Npysort.get l j)) ->
  StronglySorted R l.
Proof.
  induction l as [|x l IH]; intros H; [constructor|].
  constructor.
  - apply IH. intros i j Hij Hj. apply (H (S i) (S j)); simpl; lia.
  - apply Forall_forall. intros y Hy. apply list_elem_of_lookup in Hy as [k Hk].
    pose proof (lookup_lt_Some _ _ _ Hk) as Hlt.
    specialize (H 0 (S k) ltac:(lia) ltac:(simpl; lia)).
    unfold Npysort.get in H. simpl in H. fold (Npysort.get l k) in H.
    rewrite get_lookup, Hk in H. done.
Qed.

Lemma aquicksort_Permutation : Npysort.aquicksort v ≡ₚ seq 0 (List.length v).
Proof using Hnum. apply aquicksort_spec. Qed.

Lemma aquicksort_bound k : k < List.length v -> Npysort.get (Npysort.aquicksort v) k < List.length v.
Proof using Hnum.
  intros Hk. apply valid_indices_of_Permutation; [apply aquicksort_Permutation|lia].
Qed.

Lemma aquicksort_sorted : sorted_by_time (take_indices v (Npysort.aquicksort v)).
Proof using Hnum.
  apply index_sorted_by_time, StronglySorted_pointwise.
  destruct aquicksort_spec as [P S]. intros i j Hij Hj.
  rewrite P, length_seq in Hj.
  apply not_lt_index_le; [done|apply aquicksort_bound; lia|apply aquicksort_bound; lia|].
  apply S; lia.
Qed.

Lemma filter_Permutation_list (f : nat -> bool) (l l' : list nat) :
  l ≡ₚ l' -> List.filter f l ≡ₚ List.filter f l'.
Proof.
  induction 1 as [|x l l' _ IH|x y l|l l' l'' _ IH1 _ IH2]; simpl.
  - done.
  - destruct (f x); [by constructor|done].
  - destruct (f x), (f y); try done. apply Permutation_swap.
  - by rewrite IH1.
Qed.

Lemma elem_of_filter_list (f : nat -> bool) (l : list nat) x :
  x ∈ List.filter f l <-> x ∈ l /\ f x = true.
Proof. rewrite !list_elem_of_In. apply filter_In. Qed.

Lemma StronglySorted_filter_list (R : nat -> nat -> Prop) (f : nat -> bool) (l : list nat) :
  StronglySorted R l -> StronglySorted R (List.filter f l).
Proof.
  induction 1 as [|x l Hs IH Hx]; simpl; [constructor|].
  destruct (f x); [|done]. constructor; [done|].
  rewrite Forall_forall in *. intros y Hy. apply Hx.
  by apply elem_of_filter_list in Hy as [? _].
Qed.

Lemma StronglySorted_weaken (R R' : nat -> nat -> Prop) (l : list nat) :
  (forall x y, x ∈ l -> y ∈ l -> R x y -> R' x y) ->
  StronglySorted R l -> StronglySorted R' l.
Proof.
  intros H Hs. induction Hs as [|x l Hs IH Hx]; [constructor|].
  constructor.
  - apply IH. intros a b Ha Hb. apply H; by right.
  - rewrite Forall_forall in *. intros y Hy. apply H; [by left|by right|by apply Hx].
Qed.

Lemma StronglySorted_seq a n : StronglySorted lt (seq a n).
Proof.
  revert a. induction n as [|n IH]; intros a; simpl; [constructor|].
  constructor; [apply IH|]. apply Forall_forall. intros y Hy%elem_of_seq. lia.
Qed.

Lemma tied_not_lt t x y :
  match time_of_index v x with Some k => F64.eq k t | None => false end = true ->
  match time_of_index v y with Some k => F64.eq k t | None => false end = true ->
  Npysort.lt v x y = false.
Proof.
  unfold time_of_index, Npysort.lt, Hit_lt.
  destruct (v !! x) as [hx|]; simpl; [|done]. destruct (v !! y) as [hy|]; simpl; [|done].
  intros Hx Hy. apply F64Facts.eq_lt_false. apply F64Facts.eq_compare.
  apply F64Facts.eq_compare in Hx. apply F64Facts.eq_sym, F64Facts.eq_compare in Hy.
  by eapply F64Facts.compare_eq_trans.
Qed.

Lemma stable_keeps_ties p :
  p ≡ₚ seq 0 (List.length v) -> stable_range v p 0 (List.length v) ->
  keeps_ties (time_of_index v) (seq 0 (List.length v)) p.
Proof.
  intros P Hs t. unfold ties.
  set (f := fun x => match time_of_index v x with Some k => F64.eq k t | None => false end).
  apply (StronglySorted_unique_strong lt).
  - intros; lia.
  - apply (StronglySorted_weaken
             (fun x y => Npysort.lt v y x = false /\ (Npysort.lt v x y = false -> x < y))).
    + intros x y Hx Hy [_ H]. apply H.
      apply elem_of_filter_list in Hx as [_ Hx]. apply elem_of_filter_list in Hy as [_ Hy].
      by apply (tied_not_lt t).
    + apply StronglySorted_filter_list, StronglySorted_pointwise.
      intros i j Hij Hj. rewrite P, length_seq in Hj. apply Hs; lia.
  - apply StronglySorted_filter_list, StronglySorted_seq.
  - by apply filter_Permutation_list.
Qed.

Lemma aquicksort_small_keeps_ties :
  List.length v <= 16 ->
  keeps_ties (time_of_index v) (seq 0 (List.length v)) (Npysort.aquicksort v).
Proof using Hnum.
  intros Hn. apply stable_keeps_ties; [apply aquicksort_Permutation|].
  by apply aquicksort_small_stable.
Qed.

End SortFacts.

(** Seventeen elements are enough for a partition step: seventeen equal
    timestamps come back in another order. *)
Lemma aquicksort_partitions_seventeen :
  Npysort.aquicksort (replicate 17 (mkHit (F64.of_int 1) "q0" (F64.of_int 1)))
  = [0; 14; 13; 12; 11; 10; 9; 15; 8; 6; 5; 4; 3; 2; 1; 7; 16].
Proof. vm_compute. reflexivity. Qed.

(** ** [merge] *)

Lemma lookup_objects (h : heap) (ls : list loc) (n : nat) :
  Forall (fun l => l < List.length h) ls ->
  objects h ls !! n = ls !! n ≫= fun l => h !! l.
Proof.
  intros H. revert n. unfold objects.
  induction H as [|l ls Hl H IH]; intros n; [by destruct n|].
  destruct (lookup_lt_is_Some_2 h l Hl) as [x Hx]. simpl. rewrite Hx.
  destruct n; simpl; [done|apply IH].
Qed.

Lemma objects_take_indices (h : heap) (ls : list loc) (p : list nat) :
  Forall (fun l => l < List.length h) ls ->
  objects h (take_indices ls p) = take_indices (objects h ls) p.
Proof. intros H. apply take_indices_omap. by apply objects_allocated. Qed.

Lemma py_min_spec a b :
  F64.is_nan a = false -> F64.is_nan b = false ->
  (py_min a b = a \/ py_min a b = b)
  /\ F64.le (py_min a b) a = true /\ F64.le (py_min a b) b = true.
Proof.
  intros Ha Hb. unfold py_min. destruct (F64.lt b a) eqn:E.
  - auto using F64Facts.lt_le, F64Facts.le_refl.
  - auto using F64Facts.not_lt_le, F64Facts.le_refl.
Qed.

Lemma py_max_spec a b :
  F64.is_nan a = false -> F64.is_nan b = false ->
  (py_max a b = a \/ py_max a b = b)
  /\ F64.le a (py_max a b) = true /\ F64.le b (py_max a b) = true.
Proof.
  intros Ha Hb. unfold py_max, F64.gt. fold (F64.lt a b). destruct (F64.lt a b) eqn:E.
  - auto using F64Facts.lt_le, F64Facts.le_refl.
  - auto using F64Facts.not_lt_le, F64Facts.le_refl.
Qed.

(** [merge] returns when [np.argsort] returns a permutation of the indices of
    the combined collection. *)
Lemma merge_Ok_for (argsort : list Hit -> list nat) h a b s a1 a2 n1 b1 b2 n2 :
  tstart a = Some a1 -> tstop a = Some a2 -> nthrown a = Some n1 ->
  tstart b = Some b1 -> tstop b = Some b2 -> nthrown b = Some n2 ->
  allocated h a -> allocated h b ->
  argsort (objects (shift_all s (hits b) h) (hits a ++ hits b))
  ≡ₚ seq 0 (List.length (objects (shift_all s (hits b) h) (hits a ++ hits b))) ->
  merge argsort h a b s
  = Ok (mkSim (Some (py_min a1 (F64.add b1 s))) (Some (py_max a2 (F64.add b2 s)))
          (Some (n1 + n2)%Z)
          (take_indices (hits a ++ hits b)
             (argsort (objects (shift_all s (hits b) h) (hits a ++ hits b)))),
        shift_all s (hits b) h).
Proof.
  intros Ha1 Ha2 Hn1 Hb1 Hb2 Hn2 Ha Hb HP. unfold merge.
  rewrite Ha1, Ha2, Hn1, Hb1, Hb2, Hn2. simpl. rewrite merge_loop_spec.
  rewrite mapM_take_indices; [done|].
  rewrite <- (length_objects (shift_all s (hits b) h)).
  - by apply Permutation_seq_bound.
  - rewrite length_shift_all. by apply Forall_app.
Qed.

(** The loop of [merge] adds the shift to a hit once for each time the other
    run lists it. *)
Lemma shift_all_count s todo h (l : loc) :
  shift_all s todo h !! l
  = (fun v => mkHit (Nat.iter (count_occ Nat.eq_dec todo l) (fun t => F64.add t s) (time v))
                (detector v) (energy v)) <$> h !! l.
Proof.
  revert h. induction todo as [|l' todo IH]; intros h.
  - simpl. destruct (h !! l) as [[t d e]|]; done.
  - change (shift_all s (l' :: todo) h) with (shift_all s todo (alter (shift_hit s) l' h)).
    rewrite IH. simpl. destruct (Nat.eq_dec l' l) as [->|Hne].
    + rewrite list_lookup_alter_eq. destruct (h !! l) as [x|]; [|done]. simpl.
      do 2 f_equal.
      exact (eq_sym (Nat.iter_succ_r _ (fun t => F64.add t s) (time x))).
    + by rewrite list_lookup_alter_ne.
Qed.

(** Reading a list without repetitions through indices loses nothing. *)
Lemma take_indices_inj {A : Type} (l : list A) (p q : list nat) :
  NoDup l ->
  Forall (fun n => n < List.length l) p -> Forall (fun n => n < List.length l) q ->
  take_indices l p = take_indices l q -> p = q.
Proof.
  intros Hnd Hp. revert q. unfold take_indices.
  induction Hp as [|n p Hn Hp IH]; intros q Hq E.
  - destruct Hq as [|m q Hm Hq]; [done|].
    destruct (lookup_lt_is_Some_2 l m Hm) as [y Hy]. simpl in E. rewrite Hy in E. done.
  - destruct (lookup_lt_is_Some_2 l n Hn) as [x Hx]. simpl in E. rewrite Hx in E.
    destruct Hq as [|m q Hm Hq]; [done|].
    destruct (lookup_lt_is_Some_2 l m Hm) as [y Hy]. simpl in E. rewrite Hy in E.
    injection E as -> E. f_equal; [|by apply IH].
    by eapply NoDup_lookup.
Qed.

Lemma ties_bound {A : Type} (key : A -> option float) t (l : list A) (P : A -> Prop) :
  Forall P l -> Forall P (ties key t l).
Proof.
  unfold ties. induction 1 as [|x l Hx Hl IH]; simpl; [constructor|].
  destruct (match key x with Some k => F64.eq k t | None => false end); [by constructor|done].
Qed.

(** The hits of equal timestamp, before and after the reordering by a
    permutation [p] of the indices. *)
Lemma ties_merged h' (L : list loc) (p : list nat) t :
  Forall (fun l => l < List.length h') L -> Forall (fun n => n < List.length L) p ->
  ties (time_at h') t (take_indices L p)
  = take_indices L (ties (time_of_index (objects h' L)) t p).
Proof.
  intros Hall Hp. rewrite ties_take_indices by done. f_equal. apply ties_ext.
  apply Forall_forall. intros n _. unfold time_of_index, time_at.
  rewrite lookup_objects by done. by destruct (L !! n).
Qed.

Section MergeFacts.

(** For [merge] to return, [np.argsort] has to return a permutation of the
    indices of its argument. *)
Variable argsort : list Hit -> list nat.
Hypothesis argsort_Permutation : forall v, argsort v ≡ₚ seq 0 (List.length v).

(** The run and the store that [merge] returns. *)
Lemma merge_Ok h a b s a1 a2 n1 b1 b2 n2 :
  tstart a = Some a1 -> tstop a = Some a2 -> nthrown a = Some n1 ->
  tstart b = Some b1 -> tstop b = Some b2 -> nthrown b = Some n2 ->
  allocated h a -> allocated h b ->
  merge argsort h a b s
  = Ok (mkSim (Some (py_min a1 (F64.add b1 s))) (Some (py_max a2 (F64.add b2 s)))
          (Some (n1 + n2)%Z)
          (take_indices (hits a ++ hits b)
             (argsort (objects (shift_all s (hits b) h) (hits a ++ hits b)))),
        shift_all s (hits b) h).
Proof using argsort_Permutation.
  intros Ha1 Ha2 Hn1 Hb1 Hb2 Hn2 Ha Hb. by apply merge_Ok_for.
Qed.

Lemma merged_objects h a b s :
  NoDup (hits b) -> (forall l, l ∈ hits a -> l ∉ hits b) ->
  objects (shift_all s (hits b) h) (hits a ++ hits b)
  = objects h (hits a) ++ map (shift_hit s) (objects h (hits b)).
Proof.
  intros Hnd Hdisj.
  by rewrite objects_app, objects_shift_all_other, objects_shift_all_self.
Qed.

(** C5, amended: [merge] writes the shifted time into the hit objects of the
    other run themselves and appends those same objects to [self.hits]:
    afterwards every hit reached through the other run's [hits] has its time
    increased by the shift, detector and energy unchanged, every one of them
    is also among [self]'s hits, and no other object of the store is
    written. *)
Theorem merge_writes_the_operand_hits h a b s a1 a2 n1 b1 b2 n2 :
  tstart a = Some a1 -> tstop a = Some a2 -> nthrown a = Some n1 ->
  tstart b = Some b1 -> tstop b = Some b2 -> nthrown b = Some n2 ->
  allocated h a -> allocated h b -> NoDup (hits b) ->
  exists a' h',
    merge argsort h a b s = Ok (a', h')
    /\ (forall l, l ∈ hits b ->
          exists v,
            h !! l = Some v
            /\ h' !! l = Some (mkHit (F64.add (time v) s) (detector v) (energy v)))
    /\ (forall l, l ∈ hits b -> l ∈ hits a')
    /\ (forall l, l ∉ hits b -> h' !! l = h !! l).
Proof using argsort_Permutation.
  intros Ha1 Ha2 Hn1 Hb1 Hb2 Hn2 Ha Hb Hnd.
  eexists _, _. split; [by eapply merge_Ok|]. simpl.
  split; [|split].
  - intros l Hl. unfold allocated in Hb. rewrite Forall_forall in Hb.
    destruct (lookup_lt_is_Some_2 h l (Hb l Hl)) as [v Hv].
    exists v. split; [done|]. rewrite shift_all_member by done. by rewrite Hv.
  - intros l Hl. rewrite take_indices_Permutation.
    + apply elem_of_app. by right.
    + rewrite <- (length_objects (shift_all s (hits b) h)); [apply argsort_Permutation|].
      rewrite length_shift_all. by apply Forall_app.
  - intros l Hl. by apply shift_all_other.
Qed.

End MergeFacts.

(** ** [merge] with the default sort *)

(** After the loop of [merge] no time is NaN, when no hit's time becomes NaN
    by the shifts it gets. *)
Lemma merged_times_are_numbers h a b s :
  allocated h a -> allocated h b ->
  (forall l v, l ∈ hits a ++ hits b -> h !! l = Some v ->
     F64.is_nan (Nat.iter (count_occ Nat.eq_dec (hits b) l) (fun t => F64.add t s) (time v))
     = false) ->
  times_are_numbers (objects (shift_all s (hits b) h) (hits a ++ hits b)).
Proof.
  intros Ha Hb Hnan. unfold times_are_numbers, objects. apply Forall_forall. intros x Hx.
  apply list_elem_of_omap in Hx as (l & Hl & Hx). rewrite shift_all_count in Hx.
  destruct (h !! l) as [v|] eqn:Hv; [|done]. injection Hx as <-. simpl. by eapply Hnan.
Qed.

Lemma merge_default_Ok h a b s a1 a2 n1 b1 b2 n2 :
  tstart a = Some a1 -> tstop a = Some a2 -> nthrown a = Some n1 ->
  tstart b = Some b1 -> tstop b = Some b2 -> nthrown b = Some n2 ->
  allocated h a -> allocated h b ->
  times_are_numbers (objects (shift_all s (hits b) h) (hits a ++ hits b)) ->
  merge Npysort.aquicksort h a b s
  = Ok (mkSim (Some (py_min a1 (F64.add b1 s))) (Some (py_max a2 (F64.add b2 s)))
          (Some (n1 + n2)%Z)
          (take_indices (hits a ++ hits b)
             (Npysort.aquicksort (objects (shift_all s (hits b) h) (hits a ++ hits b)))),
        shift_all s (hits b) h).
Proof.
  intros Ha1 Ha2 Hn1 Hb1 Hb2 Hn2 Ha Hb Hnum.
  apply merge_Ok_for; try done. by apply aquicksort_Permutation.
Qed.

(** C3, amended: for two runs whose bounds and counts are set and whose hits
    are in the store, and a shift that makes no time NaN, [merge] with the
    default sort returns; the new [tstart] is the other run's shifted
    [tstart] if that is below [self]'s and [self]'s otherwise, the new
    [tstop] likewise with above (the minimum and the maximum when neither is
    NaN), [nthrown] is the sum; the new hit list is a reordering of the
    addresses of [self]'s hits followed by the other run's; no object is
    allocated, and every object has the shift added to its time once for
    each time the other run lists it, detector and energy unchanged; the
    hits are in ascending time. When the other run lists no hit twice and
    the runs share none, the hit values are those of [self], unchanged, and
    those of the other run with the shift added to their time. *)
Theorem merge_bounds_count_and_sorted_hits h a b s a1 a2 n1 b1 b2 n2 :
  tstart a = Some a1 -> tstop a = Some a2 -> nthrown a = Some n1 ->
  tstart b = Some b1 -> tstop b = Some b2 -> nthrown b = Some n2 ->
  allocated h a -> allocated h b ->
  (forall l v, l ∈ hits a ++ hits b -> h !! l = Some v ->
     F64.is_nan (Nat.iter (count_occ Nat.eq_dec (hits b) l) (fun t => F64.add t s) (time v))
     = false) ->
  exists a' h' lo hi,
    merge Npysort.aquicksort h a b s = Ok (a', h')
    /\ lo = (if F64.lt (F64.add b1 s) a1 then F64.add b1 s else a1)
    /\ hi = (if F64.lt a2 (F64.add b2 s) then F64.add b2 s else a2)
    /\ tstart a' = Some lo /\ tstop a' = Some hi
    /\ (F64.is_nan a1 = false -> F64.is_nan (F64.add b1 s) = false ->
        F64.le lo a1 = true /\ F64.le lo (F64.add b1 s) = true)
    /\ (F64.is_nan a2 = false -> F64.is_nan (F64.add b2 s) = false ->
        F64.le a2 hi = true /\ F64.le (F64.add b2 s) hi = true)
    /\ nthrown a' = Some (n1 + n2)%Z
    /\ hits a' ≡ₚ hits a ++ hits b
    /\ List.length h' = List.length h
    /\ (forall l v, h !! l = Some v ->
          h' !! l
          = Some (mkHit (Nat.iter (count_occ Nat.eq_dec (hits b) l)
                           (fun t => F64.add t s) (time v))
                    (detector v) (energy v)))
    /\ sorted_by_time (objects h' (hits a'))
    /\ (NoDup (hits b) -> (forall l, l ∈ hits a -> l ∉ hits b) ->
        objects h' (hits a')
        ≡ₚ objects h (hits a)
           ++ map (fun v => mkHit (F64.add (time v) s) (detector v) (energy v))
                (objects h (hits b))).
Proof.
  intros Ha1 Ha2 Hn1 Hb1 Hb2 Hn2 Ha Hb Hnan.
  pose proof (merged_times_are_numbers h a b s Ha Hb Hnan) as Hnum.
  eexists _, _, _, _. split; [by eapply merge_default_Ok|]. simpl.
  split; [reflexivity|]. split; [reflexivity|].
  split; [done|]. split; [done|].
  split.
  { intros N1 N2. destruct (py_min_spec a1 (F64.add b1 s) N1 N2) as (_ & ? & ?). done. }
  split.
  { intros N1 N2. destruct (py_max_spec a2 (F64.add b2 s) N1 N2) as (_ & ? & ?). done. }
  split; [done|].
  assert (Forall (fun l => l < List.length (shift_all s (hits b) h)) (hits a ++ hits b)) as Hall
    by (rewrite length_shift_all; by apply Forall_app).
  pose proof (aquicksort_Permutation _ Hnum) as HP.
  split.
  { apply take_indices_Permutation. by rewrite <- (length_objects (shift_all s (hits b) h)). }
  split; [apply length_shift_all|].
  split.
  { intros l v Hv. by rewrite shift_all_count, Hv. }
  rewrite objects_take_indices by done.
  split; [by apply aquicksort_sorted|].
  intros Hnd Hdisj. rewrite take_indices_Permutation by done.
  by rewrite objects_app, objects_shift_all_other, objects_shift_all_self.
Qed.

(** C4, amended: [merge] puts the combined collection ([self]'s hits, then
    the other run's) in the order of the indices that [np.argsort] returns
    for it with its default sort. The hits of equal timestamp keep their
    relative order when that call returns the indices of equal timestamps in
    increasing order, and, for a collection that lists no hit twice, only
    then. The default sort does so for a collection of at most 16 hits,
    where only its insertion sort runs. *)
Theorem merge_order_is_argsort_order h a b s a1 a2 n1 b1 b2 n2 :
  tstart a = Some a1 -> tstop a = Some a2 -> nthrown a = Some n1 ->
  tstart b = Some b1 -> tstop b = Some b2 -> nthrown b = Some n2 ->
  allocated h a -> allocated h b ->
  (forall l v, l ∈ hits a ++ hits b -> h !! l = Some v ->
     F64.is_nan (Nat.iter (count_occ Nat.eq_dec (hits b) l) (fun t => F64.add t s) (time v))
     = false) ->
  exists a' h',
    merge Npysort.aquicksort h a b s = Ok (a', h')
    /\ hits a'
       = take_indices (hits a ++ hits b)
           (Npysort.aquicksort (objects h' (hits a ++ hits b)))
    /\ hits a' ≡ₚ hits a ++ hits b
    /\ (keeps_ties (time_of_index (objects h' (hits a ++ hits b)))
          (seq 0 (List.length (objects h' (hits a ++ hits b))))
          (Npysort.aquicksort (objects h' (hits a ++ hits b)))
        -> keeps_ties (time_at h') (hits a ++ hits b) (hits a'))
    /\ (NoDup (hits a ++ hits b) ->
        keeps_ties (time_at h') (hits a ++ hits b) (hits a')
        -> keeps_ties (time_of_index (objects h' (hits a ++ hits b)))
             (seq 0 (List.length (objects h' (hits a ++ hits b))))
             (Npysort.aquicksort (objects h' (hits a ++ hits b))))
    /\ (List.length (hits a ++ hits b) <= 16 ->
        keeps_ties (time_at h') (hits a ++ hits b) (hits a')).
Proof.
  intros Ha1 Ha2 Hn1 Hb1 Hb2 Hn2 Ha Hb Hnan.
  pose proof (merged_times_are_numbers h a b s Ha Hb Hnan) as Hnum.
  eexists _, _. split; [by eapply merge_default_Ok|]. simpl.
  set (h' := shift_all s (hits b) h) in *. set (L := hits a ++ hits b) in *.
  assert (Forall (fun l => l < List.length h') L) as Hall
    by (unfold h'; rewrite length_shift_all; by apply Forall_app).
  assert (List.length (objects h' L) = List.length L) as Hlen by by apply length_objects.
  pose proof (aquicksort_Permutation _ Hnum) as Hp.
  set (p := Npysort.aquicksort (objects h' L)) in *.
  assert (Forall (fun n => n < List.length L) p) as Hpb
    by (rewrite <- Hlen; by apply Permutation_seq_bound).
  assert (Forall (fun n => n < List.length L) (seq 0 (List.length L))) as Hsb
    by (apply Forall_forall; intros n Hn%elem_of_seq; lia).
  assert (forall t, ties (time_at h') t L
            = take_indices L (ties (time_of_index (objects h' L)) t (seq 0 (List.length L))))
    as HL.
  { intros t. rewrite <- ties_merged by done. by rewrite take_indices_seq. }
  assert (keeps_ties (time_of_index (objects h' L)) (seq 0 (List.length (objects h' L))) p
          -> keeps_ties (time_at h') L (take_indices L p)) as Hfwd.
  { intros Hk t. rewrite ties_merged, HL by done. by rewrite Hk, Hlen. }
  split; [done|]. split; [apply take_indices_Permutation; by rewrite <- Hlen|].
  split; [done|]. split.
  - intros Hnd Hk t. specialize (Hk t). rewrite ties_merged, HL in Hk by done.
    rewrite Hlen. eapply take_indices_inj; [exact Hnd| | |exact Hk]; by apply ties_bound.
  - intros Hsmall. apply Hfwd, aquicksort_small_keeps_ties; [done|]. by rewrite Hlen.
Qed.


Lemma merge_bounds_count_and_sorted_hits_witness :
  exists a' h' lo hi,
    merge Npysort.aquicksort heap_AB sim_A sim_B shift_cell6 = Ok (a', h')
    /\ lo = (if F64.lt (F64.add (F64.of_int 0) shift_cell6) (F64.of_int 0)
            then F64.add (F64.of_int 0) shift_cell6 else F64.of_int 0)
    /\ hi = (if F64.lt (F64.of_int 10) (F64.add (F64.of_int 10) shift_cell6)
            then F64.add (F64.of_int 10) shift_cell6 else F64.of_int 10)
    /\ tstart a' = Some lo /\ tstop a' = Some hi
    /\ (F64.is_nan (F64.of_int 0) = false ->
        F64.is_nan (F64.add (F64.of_int 0) shift_cell6) = false ->
        F64.le lo (F64.of_int 0) = true
        /\ F64.le lo (F64.add (F64.of_int 0) shift_cell6) = true)
    /\ (F64.is_nan (F64.of_int 10) = false ->
        F64.is_nan (F64.add (F64.of_int 10) shift_cell6) = false ->
        F64.le (F64.of_int 10) hi = true
        /\ F64.le (F64.add (F64.of_int 10) shift_cell6) hi = true)
    /\ nthrown a' = Some (100 + 50)%Z
    /\ hits a' ≡ₚ hits sim_A ++ hits sim_B
    /\ List.length h' = List.length heap_AB
    /\ (forall l v, heap_AB !! l = Some v ->
          h' !! l
          = Some (mkHit (Nat.iter (count_occ Nat.eq_dec (hits sim_B) l)
                           (fun t => F64.add t shift_cell6) (time v))
                    (detector v) (energy v)))
    /\ sorted_by_time (objects h' (hits a'))
    /\ (NoDup (hits sim_B) -> (forall l, l ∈ hits sim_A -> l ∉ hits sim_B) ->
        objects h' (hits a')
        ≡ₚ objects heap_AB (hits sim_A)
           ++ map (fun v => mkHit (F64.add (time v) shift_cell6) (detector v) (energy v))
                (objects heap_AB (hits sim_B))).
Proof.
  apply (merge_bounds_count_and_sorted_hits heap_AB sim_A sim_B shift_cell6
           (F64.of_int 0) (F64.of_int 10) 100%Z (F64.of_int 0) (F64.of_int 10) 50%Z);
    try reflexivity.
  - repeat constructor; simpl; lia.
  - repeat constructor; simpl; lia.
  - intros l v Hl Hv. change (l ∈ [0; 1; 2; 3]) in Hl.
    repeat (apply elem_of_cons in Hl as [->|Hl];
            [vm_compute in Hv; injection Hv as <-; vm_compute; reflexivity|]).
    by apply elem_of_nil in Hl.
Defined.

(** C3, as stated, fails for runs that share hits. Merging the run at
    addresses 2 and 3 into the first run a second time moves the two hits
    that the first run already holds (from -2 s and 1 s to -7 s and -4 s):
    the merged run does not contain its old hits at -2 s and 1 s. The run
    now lists these two hits twice, and merging it into a third run with the
    same shift moves them by twice the shift (to -17 s and -14 s). *)
Lemma merge_again_moves_hits_already_merged :
  exists a' h1 a'' h2 c' h3,
    merge Npysort.aquicksort heap_AB sim_A sim_B shift_cell6 = Ok (a', h1)
    /\ merge Npysort.aquicksort h1 a' sim_B shift_cell6 = Ok (a'', h2)
    /\ map time (objects h1 (hits a'))
       = [F64.of_int (-2); F64.of_decimal false 5 (-1); F64.of_int 1;
          F64.of_decimal false 15 (-1)]
    /\ map time (objects h1 (hits sim_B)) = [F64.of_int (-2); F64.of_int 1]
    /\ map time (objects h2 (hits a''))
       = [F64.of_int (-7); F64.of_int (-7); F64.of_int (-4); F64.of_int (-4);
          F64.of_decimal false 5 (-1); F64.of_decimal false 15 (-1)]
    /\ ~ (objects h2 (hits a'')
          ≡ₚ objects h1 (hits a')
             ++ map (fun v => mkHit (F64.add (time v) shift_cell6) (detector v) (energy v))
                  (objects h1 (hits sim_B)))
    /\ merge Npysort.aquicksort h2
         (mkSim (Some (F64.of_int 0)) (Some (F64.of_int 10)) (Some 7%Z) [])
         a'' shift_cell6 = Ok (c', h3)
    /\ map time (objects h3 (hits a''))
       = [F64.of_int (-17); F64.of_int (-17); F64.of_int (-14); F64.of_int (-14);
          F64.of_decimal true 45 (-1); F64.of_decimal true 35 (-1)].
Proof.
  eexists _, _, _, _, _, _. split; [vm_compute; reflexivity|].
  split; [vm_compute; reflexivity|]. split; [vm_compute; reflexivity|].
  split; [vm_compute; reflexivity|]. split; [vm_compute; reflexivity|].
  split.
  { intros HP. apply (Permutation_map time), Permutation_sym in HP.
    apply (Permutation_in (F64.of_int (-2))) in HP; [|vm_compute; auto].
    vm_compute in HP. intuition discriminate. }
  split; vm_compute; reflexivity.
Qed.

(** C4, as stated, fails: with the sort that [np.argsort] runs by default,
    twenty hits that share one timestamp after the shift come out of [merge]
    in another order than they went in; the hits at addresses 1 and 2, in
    this order before the sort, are in the order 2, 1 after it. Seventeen
    hits are enough: the hits at addresses 1 and 14 change places. *)
Lemma default_argsort_reorders_equal_times :
  (exists a' h',
     merge Npysort.aquicksort heap_ties sim_ties_A sim_ties_B shift_cell6 = Ok (a', h')
     /\ hits sim_ties_A ++ hits sim_ties_B = seq 0 20
     /\ hits a' = [0; 17; 16; 15; 14; 13; 12; 11; 10; 9; 8; 7; 6; 5; 4; 3; 2; 1; 18; 19]
     /\ Forall (fun l => time_at h' l = Some (F64.of_int 1)) (hits a')
     /\ ~ keeps_ties (time_at h') (hits sim_ties_A ++ hits sim_ties_B) (hits a'))
  /\ (exists a' h',
        merge Npysort.aquicksort heap_ties sim_ties_A
          (mkSim (Some (F64.of_int 5)) (Some (F64.of_int 15)) (Some 100%Z) (seq 10 7))
          shift_cell6 = Ok (a', h')
        /\ hits sim_ties_A ++ seq 10 7 = seq 0 17
        /\ hits a' = [0; 14; 13; 12; 11; 10; 9; 15; 8; 6; 5; 4; 3; 2; 1; 7; 16]
        /\ Forall (fun l => time_at h' l = Some (F64.of_int 1)) (hits a')
        /\ ~ keeps_ties (time_at h') (hits sim_ties_A ++ seq 10 7) (hits a')).
Proof.
  split.
  - eexists _, _. split; [vm_compute; reflexivity|].
    split; [reflexivity|]. split; [reflexivity|]. split.
    + repeat constructor.
    + intros H. specialize (H (F64.of_int 1)). vm_compute in H. discriminate.
  - eexists _, _. split; [vm_compute; reflexivity|].
    split; [reflexivity|]. split; [reflexivity|]. split.
    + repeat constructor.
    + intros H. specialize (H (F64.of_int 1)). vm_compute in H. discriminate.
Qed.

Lemma merge_order_is_argsort_order_witness :
  exists a' h',
    merge Npysort.aquicksort heap_ties
      (mkSim (Some (F64.of_int 0)) (Some (F64.of_int 10)) (Some 100%Z) (seq 0 5))
      (mkSim (Some (F64.of_int 5)) (Some (F64.of_int 15)) (Some 100%Z) (seq 10 5))
      shift_cell6 = Ok (a', h')
    /\ hits a' ≡ₚ seq 0 5 ++ seq 10 5
    /\ Forall (fun l => time_at h' l = Some (F64.of_int 1)) (hits a')
    /\ keeps_ties (time_at h') (seq 0 5 ++ seq 10 5) (hits a').
Proof.
  destruct (merge_order_is_argsort_order heap_ties
              (mkSim (Some (F64.of_int 0)) (Some (F64.of_int 10)) (Some 100%Z) (seq 0 5))
              (mkSim (Some (F64.of_int 5)) (Some (F64.of_int 15)) (Some 100%Z) (seq 10 5))
              shift_cell6
              (F64.of_int 0) (F64.of_int 10) 100%Z (F64.of_int 5) (F64.of_int 15) 100%Z)
    as (a' & h' & H1 & H2 & H3 & _ & _ & H6); try reflexivity.
  - apply Forall_forall. intros l Hl. change (l ∈ [0; 1; 2; 3; 4]) in Hl.
    rewrite !elem_of_cons, elem_of_nil in Hl. vm_compute. lia.
  - apply Forall_forall. intros l Hl. change (l ∈ [10; 11; 12; 13; 14]) in Hl.
    rewrite !elem_of_cons, elem_of_nil in Hl. vm_compute. lia.
  - intros l v Hl Hv. change (l ∈ [0; 1; 2; 3; 4; 10; 11; 12; 13; 14]) in Hl.
    repeat (apply elem_of_cons in Hl as [->|Hl];
            [vm_compute in Hv; injection Hv as <-; vm_compute; reflexivity|]).
    by apply elem_of_nil in Hl.
  - exists a', h'. split; [exact H1|]. split; [exact H3|]. split.
    + assert (merge Npysort.aquicksort heap_ties
               (mkSim (Some (F64.of_int 0)) (Some (F64.of_int 10)) (Some 100%Z) (seq 0 5))
               (mkSim (Some (F64.of_int 5)) (Some (F64.of_int 15)) (Some 100%Z) (seq 10 5))
               shift_cell6
             = Ok (a', h') -> Forall (fun l => time_at h' l = Some (F64.of_int 1)) (hits a'))
        as Hall; [|by apply Hall].
      vm_compute. intros [= <- <-]. repeat constructor.
    + apply H6. simpl. lia.
Defined.

(** C5, as stated, fails: after [merge] the hits of the other run carry the
    shifted times, and its hit at address 2 is also a hit of [self]. *)
Lemma merge_writes_and_shares_operand_hits :
  exists a' h',
    merge Npysort.aquicksort heap_AB sim_A sim_B shift_cell6 = Ok (a', h')
    /\ map time (objects heap_AB (hits sim_B)) = [F64.of_int 3; F64.of_int 6]
    /\ map time (objects h' (hits sim_B)) = [F64.of_int (-2); F64.of_int 1]
    /\ 2 ∈ hits a' /\ 2 ∈ hits sim_B.
Proof.
  eexists _, _. split; [vm_compute; reflexivity|].
  split; [vm_compute; reflexivity|]. split; [vm_compute; reflexivity|].
  split; simpl; rewrite !elem_of_cons; auto.
Qed.

Lemma merge_writes_the_operand_hits_witness :
  exists a' h',
    merge Npysort.insertion_argsort heap_AB sim_A sim_B shift_cell6 = Ok (a', h')
    /\ (forall l, l ∈ hits sim_B ->
          exists v,
            heap_AB !! l = Some v
            /\ h' !! l
               = Some (mkHit (F64.add (time v) shift_cell6) (detector v) (energy v)))
    /\ (forall l, l ∈ hits sim_B -> l ∈ hits a')
    /\ (forall l, l ∉ hits sim_B -> h' !! l = heap_AB !! l).
Proof.
  apply (merge_writes_the_operand_hits Npysort.insertion_argsort
           insertion_argsort_Permutation
           heap_AB sim_A sim_B shift_cell6
           (F64.of_int 0) (F64.of_int 10) 100%Z (F64.of_int 0) (F64.of_int 10) 50%Z);
    try reflexivity.
  - repeat constructor; simpl; lia.
  - repeat constructor; simpl; lia.
  - simpl. apply NoDup_cons. split; [|apply NoDup_singleton].
    rewrite list_elem_of_singleton. lia.
Defined.

(** ** [np.digitize] on an edge table *)

Lemma strictly_increasing_cons x edges :
  strictly_increasing (x :: edges) = true -> strictly_increasing edges = true.
Proof. destruct edges as [|y edges]; [done|]. simpl. by intros [_ ?]%andb_true_iff. Qed.

Lemma strictly_increasing_head x edges :
  strictly_increasing (x :: edges) = true -> Forall (fun y => F64.lt x y = true) edges.
Proof.
  revert x. induction edges as [|y edges IH]; intros x H; [constructor|].
  simpl in H. apply andb_true_iff in H as [Hxy H]. constructor; [done|].
  eapply Forall_impl; [apply (IH y H)|]. intros z. by apply F64Facts.lt_trans.
Qed.

(** Any two edges are ordered as their positions are. *)
Lemma strictly_increasing_lookup edges i j x y :
  strictly_increasing edges = true -> i < j ->
  edges !! i = Some x -> edges !! j = Some y -> F64.lt x y = true.
Proof.
  revert i j. induction edges as [|z edges IH]; intros i j H Hij Hi Hj; [done|].
  destruct j as [|j]; [lia|]. destruct i as [|i]; simpl in *.
  - simplify_eq. pose proof (strictly_increasing_head _ _ H) as Hall.
    rewrite Forall_forall in Hall. apply Hall. by eapply list_elem_of_lookup_2.
  - eapply (IH i j); eauto using strictly_increasing_cons. lia.
Qed.

Lemma still_increasing_of_strict x edges :
  strictly_increasing (x :: edges) = true -> Np.still_increasing x edges = true.
Proof.
  revert x. induction edges as [|y edges IH]; intros x H; [done|].
  simpl in H. apply andb_true_iff in H as [Hxy H]. simpl.
  unfold F64.gt. fold (F64.lt y x). rewrite (F64Facts.lt_asym _ _ Hxy). by apply IH.
Qed.

Lemma check_array_monotonic_of_strict edges :
  strictly_increasing edges = true -> Np.check_array_monotonic edges = 1%Z.
Proof.
  destruct edges as [|x [|y edges]]; [done..|]. intros H.
  pose proof H as H'. simpl in H'. apply andb_true_iff in H' as [Hxy H'].
  unfold Np.check_array_monotonic. simpl.
  assert (F64.eq y x = false) as ->.
  { destruct (F64.eq y x) eqn:E; [|done]. apply F64Facts.eq_sym, F64Facts.eq_lt_false in E.
    congruence. }
  rewrite Hxy. by rewrite (still_increasing_of_strict y edges).
Qed.

Lemma digitize_of_strict x edges :
  strictly_increasing edges = true ->
  Np.digitize x edges = Ok (Z.of_nat (Np.searchsorted_right edges x)).
Proof. intros H. unfold Np.digitize. by rewrite check_array_monotonic_of_strict. Qed.

(** For an edge that is a number, numpy's order is the order of the
    numbers. *)
Lemma less_number key x : F64.is_nan x = false -> Np.less key x = F64.lt key x.
Proof. intros H. unfold Np.less. rewrite H. simpl. by rewrite orb_false_r. Qed.

Lemma less_trans_r key a b :
  Np.less key a = true -> F64.lt a b = true -> Np.less key b = true.
Proof.
  intros H Hab. destruct (F64Facts.lt_not_nan _ _ Hab) as [Ha Hb].
  rewrite less_number in * by done. by eapply F64Facts.lt_trans.
Qed.

Lemma less_false_trans_l key a b :
  Np.less key b = false -> F64.lt a b = true -> Np.less key a = false.
Proof.
  intros H Hab. destruct (Np.less key a) eqn:E; [|done].
  by rewrite (less_trans_r key a b) in H.
Qed.

(** The binary search returns the position that splits the edges not above
    the key from the edges above it. *)
Lemma binsearch_right_spec fuel arr key lo hi :
  strictly_increasing arr = true ->
  lo <= hi -> hi <= List.length arr -> hi - lo <= fuel ->
  (forall i x, i < lo -> arr !! i = Some x -> Np.less key x = false) ->
  (forall i x, hi <= i -> arr !! i = Some x -> Np.less key x = true) ->
  (forall i x, i < Np.binsearch_right fuel arr key lo hi ->
     arr !! i = Some x -> Np.less key x = false)
  /\ (forall i x, Np.binsearch_right fuel arr key lo hi <= i ->
        arr !! i = Some x -> Np.less key x = true).
Proof.
  intros Harr. revert lo hi. induction fuel as [|fuel IH]; intros lo hi Hle Hhi Hfuel Hlo Hup.
  - simpl. assert (lo = hi) as -> by lia. done.
  - simpl. destruct (Nat.ltb_spec lo hi) as [Hlt|Hge].
    + pose proof (Nat.lt_div2 (hi - lo) ltac:(lia)) as Hdiv.
      generalize dependent (Nat.div2 (hi - lo)). intros d Hdiv.
      remember (lo + d) as mid eqn:Hmid.
      destruct (lookup_lt_is_Some_2 arr mid ltac:(lia)) as [mv Hmv]. rewrite Hmv.
      destruct (Np.less key mv) eqn:E.
      * apply IH; [lia..|done|].
        intros i x Hi Hx. destruct (decide (i = mid)) as [->|Hne]; [congruence|].
        eapply less_trans_r; [exact E|].
        eapply (strictly_increasing_lookup arr mid i); eauto. lia.
      * apply IH; [lia..| |done].
        intros i x Hi Hx. destruct (decide (i = mid)) as [->|Hne]; [congruence|].
        eapply less_false_trans_l; [exact E|].
        eapply (strictly_increasing_lookup arr i mid); eauto. lia.
    + assert (lo = hi) as -> by lia. done.
Qed.

Lemma binsearch_right_bound fuel arr key lo hi :
  lo <= hi -> Np.binsearch_right fuel arr key lo hi <= hi.
Proof.
  revert lo hi. induction fuel as [|fuel IH]; intros lo hi Hle; simpl; [done|].
  destruct (Nat.ltb_spec lo hi); [|done].
  pose proof (Nat.lt_div2 (hi - lo) ltac:(lia)) as Hdiv.
  generalize dependent (Nat.div2 (hi - lo)). intros d Hdiv.
  destruct (arr !! _); [|lia]. destruct (Np.less key _).
  - etrans; [apply IH|]; lia.
  - apply IH. lia.
Qed.

Lemma searchsorted_right_spec arr key :
  strictly_increasing arr = true ->
  Np.searchsorted_right arr key <= List.length arr
  /\ (forall i x, i < Np.searchsorted_right arr key -> arr !! i = Some x ->
        Np.less key x = false)
  /\ (forall i x, Np.searchsorted_right arr key <= i -> arr !! i = Some x ->
        Np.less key x = true).
Proof.
  intros Harr. unfold Np.searchsorted_right.
  split; [apply binsearch_right_bound; lia|].
  apply binsearch_right_spec; try done; try lia.
  intros i x Hi Hx. apply lookup_lt_Some in Hx. lia.
Qed.

(** In a table of at least two edges every edge is a number. *)
Lemma edge_is_number edges i x :
  strictly_increasing edges = true -> 2 <= List.length edges ->
  edges !! i = Some x -> F64.is_nan x = false.
Proof.
  intros Hinc Hlen Hx. destruct i as [|i].
  - destruct (lookup_lt_is_Some_2 edges 1 ltac:(lia)) as [y Hy].
    pose proof (strictly_increasing_lookup edges 0 1 x y Hinc ltac:(lia) Hx Hy) as Hlt.
    by destruct (F64Facts.lt_not_nan _ _ Hlt).
  - destruct (lookup_lt_is_Some_2 edges 0 ltac:(lia)) as [y Hy].
    pose proof (strictly_increasing_lookup edges 0 (S i) y x Hinc ltac:(lia) Hy Hx) as Hlt.
    by destruct (F64Facts.lt_not_nan _ _ Hlt).
Qed.

(** The loop of [to_TTE] adds the time and the channel of each hit, in
    order. *)
Lemma to_TTE_loop_spec edges todo times channels :
  strictly_increasing edges = true ->
  exists cs,
    to_TTE_loop edges todo times channels = Ok (times ++ map time todo, channels ++ cs)
    /\ Forall2 (fun hit c => energy_channel edges (energy hit) = Ok c) todo cs.
Proof.
  intros Hinc. revert times channels.
  induction todo as [|hit todo IH]; intros times channels; simpl.
  - exists []. by rewrite !app_nil_r.
  - unfold energy_channel at 1. rewrite digitize_of_strict by done. simpl.
    destruct (IH (times ++ [time hit])
                (channels ++ [Z.min (Z.of_nat (List.length edges) - 1 - 1)
                                (Z.max 0 (Z.of_nat (Np.searchsorted_right edges (energy hit)) - 1))]))
      as (cs & -> & Hcs).
    eexists (_ :: cs). rewrite <- !app_assoc. split; [done|].
    constructor; [|done]. unfold energy_channel. by rewrite digitize_of_strict.
Qed.

(** ** Claims about [to_TTE] *)

(** C6: for a strictly increasing table of N+1 edges, N at least 1, and any
    energy, the channel is computed and lies between 0 and N-1; it is 0 below
    the first edge, N-1 from the last edge on, and for an energy from the
    first edge up to the last it is i exactly when the energy is at or above
    [edges[i]] and below [edges[i+1]]. *)
Theorem channel_is_total_and_clamped edges N e :
  strictly_increasing edges = true -> List.length edges = S N -> 1 <= N ->
  exists c,
    energy_channel edges e = Ok c
    /\ (0 <= c <= Z.of_nat N - 1)%Z
    /\ (forall e0, edges !! 0 = Some e0 -> F64.lt e e0 = true -> c = 0%Z)
    /\ (forall eN, edges !! N = Some eN -> F64.le eN e = true -> c = (Z.of_nat N - 1)%Z)
    /\ (forall e0 eN i lo hi,
          edges !! 0 = Some e0 -> edges !! N = Some eN ->
          F64.le e0 e = true -> F64.lt e eN = true ->
          i < N -> edges !! i = Some lo -> edges !! S i = Some hi ->
          (c = Z.of_nat i <-> F64.le lo e = true /\ F64.lt e hi = true))
    /\ (forall h self, allocated h self ->
          exists ev, to_TTE h self edges = Ok ev
            /\ List.length (pha_list ev) = List.length (hits self)).
Proof.
  intros Hinc Hlen HN.
  destruct (searchsorted_right_spec edges e Hinc) as (Hr & Hlow & Hup).
  assert (forall i x, edges !! i = Some x -> Np.less e x = F64.lt e x) as Hless.
  { intros i x Hx. apply less_number. eapply edge_is_number; eauto. lia. }
  remember (Np.searchsorted_right edges e) as r eqn:Er.
  assert (forall i x, i < r -> edges !! i = Some x -> F64.lt e x = false) as Hlow'.
  { intros i x Hi Hx. rewrite <- (Hless i x Hx). eauto. }
  assert (forall i x, r <= i -> edges !! i = Some x -> F64.lt e x = true) as Hup'.
  { intros i x Hi Hx. rewrite <- (Hless i x Hx). eauto. }
  unfold energy_channel. rewrite digitize_of_strict by done. simpl. rewrite <- Er, Hlen.
  eexists. split; [reflexivity|]. split; [lia|]. split; [|split; [|split]].
  4:{ intros h self Hall. unfold to_TTE.
      destruct (to_TTE_loop_spec edges (objects h (hits self)) [] [] Hinc) as (cs & -> & Hcs).
      simpl. eexists. split; [reflexivity|]. simpl.
      apply Forall2_length in Hcs. rewrite <- Hcs. by apply length_objects. }
  - intros e0 H0 Hlt. assert (r = 0) as ->; [|lia].
    destruct r as [|r]; [done|]. rewrite (Hlow' 0 e0) in Hlt by (done || lia). done.
  - intros eN HeN Hle. apply F64Facts.le_lt_false in Hle.
    assert (r = S N) as ->; [|lia].
    destruct (Nat.le_gt_cases r N) as [Hle'|?]; [|lia].
    rewrite (Hup' N eN) in Hle by done. done.
  - intros e0 eN i lo hi H0 HeN Hge Hlt Hi Hlo Hhi.
    assert (1 <= r) as Hr1.
    { destruct r as [|r]; [|lia].
      apply F64Facts.le_lt_false in Hge. rewrite (Hup' 0 e0) in Hge by (done || lia). done. }
    assert (r <= N) as HrN.
    { destruct (Nat.le_gt_cases r N) as [?|Hgt]; [done|].
      rewrite (Hlow' N eN) in Hlt by done. done. }
    split.
    + intros Hc. assert (r = S i) as -> by lia. split.
      * apply F64Facts.not_lt_le.
        -- eapply edge_is_number; eauto. lia.
        -- by destruct (F64Facts.le_not_nan _ _ Hge).
        -- eapply Hlow'; [|done]. lia.
      * eapply Hup'; [|done]. lia.
    + intros [Hle Hlt']. apply F64Facts.le_lt_false in Hle.
      assert (r = S i) as ->; [|lia].
      destruct (Nat.le_gt_cases r i) as [Hle'|?].
      { rewrite (Hup' i lo) in Hle by done. done. }
      destruct (Nat.le_gt_cases r (S i)) as [?|Hgt]; [lia|].
      rewrite (Hlow' (S i) hi) in Hlt' by done. done.
Qed.

Lemma channel_is_total_and_clamped_witness :
  strictly_increasing edges_E = true
  /\ energy_channel edges_E (F64.of_int 3) = Ok 0%Z
  /\ energy_channel edges_E (F64.of_int 5000) = Ok 2%Z.
Proof.
  assert (strictly_increasing edges_E = true) as Hinc by (vm_compute; reflexivity).
  split; [exact Hinc|]. split.
  - destruct (channel_is_total_and_clamped edges_E 3 (F64.of_int 3) Hinc eq_refl ltac:(lia))
      as (c & -> & _ & Hunder & _).
    f_equal. apply (Hunder (F64.of_decimal false 45 (-1))); vm_compute; reflexivity.
  - destruct (channel_is_total_and_clamped edges_E 3 (F64.of_int 5000) Hinc eq_refl ltac:(lia))
      as (c & -> & _ & _ & Hover & _).
    f_equal. apply (Hover (F64.of_int 2000)); vm_compute; reflexivity.
Defined.

(** C8: for a run whose hits are in the store and for an edge table, the
    event list has one time and one channel per hit, each time is the time
    of the hit at the same position, each channel the channel of that hit's
    energy, and the low and high edges are the table without its last and
    without its first edge. *)
Theorem event_list_has_one_entry_per_hit h self edges :
  strictly_increasing edges = true -> allocated h self ->
  exists ev,
    to_TTE h self edges = Ok ev
    /\ List.length (times_list ev) = List.length (hits self)
    /\ List.length (pha_list ev) = List.length (hits self)
    /\ times_list ev = map time (objects h (hits self))
    /\ Forall2 (fun hit c => energy_channel edges (energy hit) = Ok c)
         (objects h (hits self)) (pha_list ev)
    /\ chan_lo ev = removelast edges
    /\ chan_hi ev = tail edges.
Proof.
  intros Hinc Hall. unfold to_TTE.
  destruct (to_TTE_loop_spec edges (objects h (hits self)) [] [] Hinc) as (cs & -> & Hcs).
  simpl. eexists. split; [reflexivity|]. simpl.
  pose proof (length_objects h (hits self) Hall) as Hlen.
  split; [by rewrite length_map|].
  split; [apply Forall2_length in Hcs; congruence|].
  split; [done|]. split; [done|]. split.
  - unfold all_but_last. rewrite removelast_firstn_len. f_equal. lia.
  - unfold all_but_first. by destruct edges.
Qed.

Lemma event_list_has_one_entry_per_hit_witness :
  exists ev,
    to_TTE heap_AB sim_A edges_E = Ok ev
    /\ List.length (times_list ev) = List.length (hits sim_A)
    /\ List.length (pha_list ev) = List.length (hits sim_A)
    /\ times_list ev = map time (objects heap_AB (hits sim_A))
    /\ Forall2 (fun hit c => energy_channel edges_E (energy hit) = Ok c)
         (objects heap_AB (hits sim_A)) (pha_list ev)
    /\ chan_lo ev = removelast edges_E
    /\ chan_hi ev = tail edges_E.
Proof.
  apply (event_list_has_one_entry_per_hit heap_AB sim_A edges_E).
  - vm_compute. reflexivity.
  - repeat constructor; simpl; lia.
Defined.

(** * Further properties *)

(** ** What [open] does to the store and to the hit list *)

Section OpenStoreFacts.

Context (detector_dict : gmap string string) (time_shift : float).

Lemma global_keys_store key line fr fr' :
  global_keys time_shift key line fr = Ok fr' ->
  store fr' = store fr /\ hits (obj fr') = hits (obj fr).
Proof.
  unfold global_keys. intros H.
  repeat case_match; try discriminate;
    try (destruct (float_field line); simpl in H; [|discriminate]);
    try (destruct (int_field line); simpl in H; [|discriminate]);
    by injection H as <-.
Qed.

Lemma global_keys_in_events key line fr fr' :
  global_keys time_shift key line fr = Ok fr' -> key <> "SE" ->
  in_events fr' = in_events fr.
Proof.
  unfold global_keys. intros H Hk. apply String.eqb_neq in Hk. rewrite Hk in H.
  repeat case_match; try discriminate;
    try (destruct (float_field line); simpl in H; [|discriminate]);
    try (destruct (int_field line); simpl in H; [|discriminate]);
    by injection H as <-.
Qed.

(** One line adds at most one hit, at the next free address, and only an HT
    line read inside an event block adds one. *)
Lemma step_store fr line fr' :
  step detector_dict time_shift fr line = Ok fr' ->
  exists vs,
    store fr' = store fr ++ vs
    /\ hits (obj fr') = hits (obj fr) ++ seq (List.length (store fr)) (List.length vs)
    /\ List.length vs <= (if String.eqb (Py.prefix2 line) "HT" then 1 else 0)
    /\ (in_events fr = false -> vs = []).
Proof.
  unfold step. intros H.
  destruct (in_events fr) eqn:Hin.
  - destruct (String.eqb _ "EN") eqn:HEN.
    { injection H as <-. exists []. simpl. rewrite !app_nil_r. repeat split; lia || done. }
    simpl in H.
    destruct (String.eqb _ "TI") eqn:HTI.
    + assert (String.eqb (Py.prefix2 line) "HT" = false) as HHT.
      { apply String.eqb_eq in HTI. by rewrite HTI. }
      rewrite HHT in *. simpl in H.
      destruct (float_field line); simpl in H; [|done]. injection H as <-.
      exists []. simpl. rewrite !app_nil_r. repeat split; lia || done.
    + simpl in H. destruct (String.eqb _ "HT") eqn:HHT; simpl in H.
      * destruct (read_hit detector_dict line fr) as [fr2|] eqn:E; simpl in H; [|done].
        apply read_hit_inv in E as (v & -> & _).
        apply global_keys_store in H as [-> ->].
        exists [v]. simpl. repeat split; lia || done.
      * injection H as <-. exists []. simpl. rewrite !app_nil_r. repeat split; lia || done.
  - apply global_keys_store in H as [-> ->].
    exists []. simpl. rewrite !app_nil_r. repeat split; lia || done.
Qed.

Lemma scan_store fr lines fr' :
  scan detector_dict time_shift fr lines = Ok fr' ->
  exists vs,
    store fr' = store fr ++ vs
    /\ hits (obj fr') = hits (obj fr) ++ seq (List.length (store fr)) (List.length vs)
    /\ List.length vs <= List.length (HT_lines lines).
Proof.
  revert fr. induction lines as [|line lines IH]; intros fr H; simpl in H.
  - injection H as <-. exists []. simpl. by rewrite !app_nil_r.
  - destruct (String.eqb line "").
    { injection H as <-. exists []. simpl. rewrite !app_nil_r. repeat split; lia. }
    destruct (step detector_dict time_shift fr line) as [fr1|] eqn:E; simpl in H; [|done].
    apply step_store in E as (vs1 & Hs1 & Hh1 & Hl1 & _).
    apply IH in H as (vs2 & Hs2 & Hh2 & Hl2).
    exists (vs1 ++ vs2). rewrite Hs2, Hh2, Hs1, Hh1, !length_app, <- !app_assoc.
    split; [done|]. split.
    + f_equal. by rewrite seq_app.
    + unfold HT_lines in *. simpl. destruct (String.eqb (Py.prefix2 line) "HT"); simpl; lia.
Qed.

(** Outside an event block nothing but SE opens one. *)
Lemma step_stays_outside fr line fr' :
  step detector_dict time_shift fr line = Ok fr' ->
  in_events fr = false -> Py.prefix2 line <> "SE" -> in_events fr' = false.
Proof.
  intros H Hin Hk. rewrite step_outside in H by done.
  apply global_keys_in_events in H; congruence.
Qed.

Lemma scan_without_SE fr lines fr' :
  scan detector_dict time_shift fr lines = Ok fr' ->
  in_events fr = false -> Forall (fun l => Py.prefix2 l <> "SE") lines ->
  store fr' = store fr /\ hits (obj fr') = hits (obj fr).
Proof.
  intros H Hin Hl. revert fr H Hin.
  induction Hl as [|line lines Hk Hl IH]; intros fr H Hin; simpl in H.
  - by injection H as <-.
  - destruct (String.eqb line ""); [by injection H as <-|].
    destruct (step detector_dict time_shift fr line) as [fr1|] eqn:E; simpl in H; [|done].
    pose proof (step_stays_outside _ _ _ E Hin Hk) as Hin1.
    apply step_store in E as (vs & Hs & Hh & _ & Hvs). rewrite (Hvs Hin) in *.
    simpl in *. rewrite app_nil_r in *.
    destruct (IH _ H Hin1) as [-> ->]. done.
Qed.

(** A line whose key is none of the known ones changes nothing, inside or
    outside an event block. *)
Lemma step_unknown_key fr line :
  Py.prefix2 line ∉ known_keys -> step detector_dict time_shift fr line = Ok fr.
Proof.
  intros Hk. unfold known_keys in Hk.
  rewrite !not_elem_of_cons in Hk. destruct Hk as (? & ? & ? & ? & ? & ? & ? & ? & ? & _).
  destruct (in_events fr) eqn:Hin.
  - by apply step_inside_skip.
  - rewrite step_outside by done. unfold global_keys.
    by repeat (rewrite (proj2 (String.eqb_neq _ _)) by done).
Qed.

End OpenStoreFacts.

(** X1: a run returned by [open] holds exactly the hits that this call
    created: the store it returns is the store it was given followed by the
    new hits, and the run's hits are their addresses in the order of
    creation. So the old objects are untouched, the run lists no hit twice,
    all its hits are allocated, and it shares no hit with a run that was
    already in the store. *)
Theorem open_appends_fresh_hits detector_dict time_shift h lines sim h' :
  open detector_dict time_shift h lines = Ok (sim, h') ->
  (exists vs, h' = h ++ vs /\ hits sim = seq (List.length h) (List.length vs))
  /\ allocated h' sim
  /\ NoDup (hits sim)
  /\ (forall sim0, allocated h sim0 -> forall l, l ∈ hits sim0 -> l ∉ hits sim).
Proof.
  unfold open. intros H.
  destruct (scan detector_dict time_shift (init_frame h) lines) as [fr|] eqn:E;
    simpl in H; [|done].
  destruct (check_fields (obj fr)) as [sim1|] eqn:Ec; simpl in H; [|done].
  injection H as <- <-.
  assert (sim1 = obj fr) as ->.
  { unfold check_fields in Ec. repeat case_match; congruence. }
  apply scan_store in E as (vs & Hs & Hh & _). simpl in Hs, Hh.
  split; [eauto|]. unfold allocated. rewrite Hh, Hs. split; [|split].
  - apply Forall_forall. intros l Hl%elem_of_seq. rewrite length_app. lia.
  - apply NoDup_seq.
  - intros sim0 H0 l Hl Hl'. apply elem_of_seq in Hl'.
    unfold allocated in H0. rewrite Forall_forall in H0. specialize (H0 l Hl). lia.
Qed.

Lemma open_appends_fresh_hits_witness :
  (exists vs, [mkHit (F64.of_decimal false 15 (-1)) "q0" (F64.of_int 50)] = [] ++ vs
              /\ [0] = seq (List.length (@nil Hit)) (List.length vs))
  /\ allocated [mkHit (F64.of_decimal false 15 (-1)) "q0" (F64.of_int 50)]
       (mkSim (Some (F64.of_int 0)) (Some (F64.of_int 10)) (Some 100%Z) [0])
  /\ NoDup [0]
  /\ (forall sim0, allocated [] sim0 -> forall l, l ∈ hits sim0 -> l ∉ [0]).
Proof.
  apply (open_appends_fresh_hits detector_dict zero_shift [] log_A
           (mkSim (Some (F64.of_int 0)) (Some (F64.of_int 10)) (Some 100%Z) [0])
           [mkHit (F64.of_decimal false 15 (-1)) "q0" (F64.of_int 50)]).
  vm_compute. reflexivity.
Defined.

(** X2: [open] keeps the order in which the log gives the hits: the hits and
    the store reached after any first part of the log are a prefix of the
    hits and of the store that [open] returns for the whole log. *)
Theorem open_keeps_encounter_order detector_dict time_shift h p q fr sim h' :
  Forall (fun x => x <> "") p ->
  scan detector_dict time_shift (init_frame h) p = Ok fr ->
  open detector_dict time_shift h (p ++ q) = Ok (sim, h') ->
  hits (obj fr) `prefix_of` hits sim /\ store fr `prefix_of` h'.
Proof.
  intros Hp Hscan. unfold open. rewrite scan_app, Hscan by done. simpl. intros H.
  destruct (scan detector_dict time_shift fr q) as [fr2|] eqn:E; simpl in H; [|done].
  destruct (check_fields (obj fr2)) as [sim1|] eqn:Ec; simpl in H; [|done].
  injection H as <- <-.
  assert (sim1 = obj fr2) as ->.
  { unfold check_fields in Ec. repeat case_match; congruence. }
  apply scan_store in E as (vs & -> & -> & _).
  split; by eexists.
Qed.

Lemma open_keeps_encounter_order_witness :
  hits (mkSim (Some (F64.of_int 0)) (Some (F64.of_int 10)) (Some 100%Z) [])
    `prefix_of` [0]
  /\ [] `prefix_of` [mkHit (F64.of_decimal false 15 (-1)) "q0" (F64.of_int 50)].
Proof.
  apply (open_keeps_encounter_order detector_dict zero_shift []
           (file ["TB 0"; "TE 10"; "TS 100"; "SE"; "TI 1.5"])
           (file ["HT ;4.88500;4.88500;;50.0"; "EN"])
           (mkFrame [] (mkSim (Some (F64.of_int 0)) (Some (F64.of_int 10)) (Some 100%Z) [])
              true (Some (F64.of_decimal false 15 (-1))))
           (mkSim (Some (F64.of_int 0)) (Some (F64.of_int 10)) (Some 100%Z) [0])
           [mkHit (F64.of_decimal false 15 (-1)) "q0" (F64.of_int 50)]).
  - repeat constructor; discriminate.
  - vm_compute. reflexivity.
  - vm_compute. reflexivity.
Defined.

(** X3: a run never has more hits than its log has HT lines, and a log
    without an SE line gives a run without hits and leaves the store as it
    was: HT (and TI) records outside an event block are not read. *)
Theorem hits_come_from_HT_lines_in_event_blocks detector_dict time_shift h lines sim h' :
  open detector_dict time_shift h lines = Ok (sim, h') ->
  List.length (hits sim) <= List.length (HT_lines lines)
  /\ (Forall (fun l => Py.prefix2 l <> "SE") lines -> hits sim = [] /\ h' = h).
Proof.
  unfold open. intros H.
  destruct (scan detector_dict time_shift (init_frame h) lines) as [fr|] eqn:E;
    simpl in H; [|done].
  destruct (check_fields (obj fr)) as [sim1|] eqn:Ec; simpl in H; [|done].
  injection H as <- <-.
  assert (sim1 = obj fr) as ->.
  { unfold check_fields in Ec. repeat case_match; congruence. }
  split.
  - apply scan_store in E as (vs & _ & -> & Hl). simpl. by rewrite length_seq.
  - intros HSE. by destruct (scan_without_SE _ _ _ _ _ E eq_refl HSE) as [-> ->].
Qed.

Lemma hits_come_from_HT_lines_in_event_blocks_witness :
  hits (mkSim (Some (F64.of_int 0)) (Some (F64.of_int 10)) (Some 100%Z) []) = []
  /\ @nil Hit = [].
Proof.
  apply (proj2 (hits_come_from_HT_lines_in_event_blocks detector_dict zero_shift []
           (file ["TB 0"; "TE 10"; "TS 100"; "TI 1.5"; "HT ;4.88500;4.88500;;50.0"; "EN"])
           (mkSim (Some (F64.of_int 0)) (Some (F64.of_int 10)) (Some 100%Z) []) []
           ltac:(vm_compute; reflexivity))).
  repeat constructor; discriminate.
Defined.

(** X4: a line whose key is none of TB, SE, TE, TS, NF, IN, EN, TI, HT (a
    blank line, a comment, any other record of the simulator) can be removed
    from or added to a log at any place without changing what [open]
    returns or raises. *)
Theorem unknown_lines_do_not_matter detector_dict time_shift h p l q :
  Forall (fun x => x <> "") p -> l <> "" -> Py.prefix2 l ∉ known_keys ->
  open detector_dict time_shift h (p ++ l :: q) = open detector_dict time_shift h (p ++ q).
Proof.
  intros Hp Hl Hk. unfold open. rewrite !scan_app by done.
  destruct (scan detector_dict time_shift (init_frame h) p) as [fr|]; simpl; [|done].
  by rewrite eqb_empty_false, step_unknown_key by done.
Qed.

Lemma unknown_lines_do_not_matter_witness :
  open detector_dict zero_shift []
    (file ["TB 0"; "TE 10"; "TS 100"; "SE"] ++ newline :: file ["TI 1.5"; "EN"])
  = open detector_dict zero_shift []
      (file ["TB 0"; "TE 10"; "TS 100"; "SE"] ++ file ["TI 1.5"; "EN"]).
Proof.
  apply (unknown_lines_do_not_matter detector_dict zero_shift []
           (file ["TB 0"; "TE 10"; "TS 100"; "SE"]) newline (file ["TI 1.5"; "EN"])).
  - repeat constructor; discriminate.
  - discriminate.
  - unfold known_keys. rewrite !not_elem_of_cons. repeat split; try discriminate.
    apply not_elem_of_nil.
Defined.

(** X5: an event block need not be closed: a final EN line changes neither
    the run nor the store that [open] returns, nor the error it raises. *)
Theorem final_EN_is_optional detector_dict time_shift h p l :
  Forall (fun x => x <> "") p -> Py.prefix2 l = "EN" ->
  open detector_dict time_shift h (p ++ [l]) = open detector_dict time_shift h p.
Proof.
  intros Hp Hk. unfold open. rewrite scan_app by done.
  destruct (scan detector_dict time_shift (init_frame h) p) as [fr|]; simpl; [|done].
  rewrite eqb_empty_false by (by apply (key_nonempty _ "EN")).
  unfold step. rewrite Hk. destruct (in_events fr); simpl; done.
Qed.

Lemma final_EN_is_optional_witness :
  open detector_dict zero_shift []
    (file ["TB 0"; "TE 10"; "TS 100"; "SE"; "TI 1.5"; "HT ;4.88500;4.88500;;50.0"]
     ++ ["EN" +:+ newline])
  = open detector_dict zero_shift []
      (file ["TB 0"; "TE 10"; "TS 100"; "SE"; "TI 1.5"; "HT ;4.88500;4.88500;;50.0"]).
Proof.
  apply (final_EN_is_optional detector_dict zero_shift []
           (file ["TB 0"; "TE 10"; "TS 100"; "SE"; "TI 1.5"; "HT ;4.88500;4.88500;;50.0"])
           ("EN" +:+ newline)).
  - repeat constructor; discriminate.
  - reflexivity.
Defined.

(** ** [time_shift] reaches the times only *)

Section ShiftFacts.

Context (detector_dict : gmap string string) (s s' : float).

Lemma same_frame_refl fr : same_frame_but_times fr fr.
Proof.
  repeat split; try done. apply Forall2_same_length_lookup. split; [done|].
  intros i x y ? ?. by simplify_eq.
Qed.

Lemma global_keys_same_but_times key line fr fr' :
  same_frame_but_times fr fr' ->
  same_outcome same_frame_but_times
    (global_keys s key line fr) (global_keys s' key line fr').
Proof.
  intros (Hst & (Hts & Hte & Hn & Hh) & Hin & Ht). unfold global_keys.
  repeat case_match; try done;
    try (destruct (float_field line); simpl; [|done]);
    try (destruct (int_field line); simpl; [|done]);
    repeat split; simpl; try done; try (intros _; by eexists); tauto.
Qed.

Lemma read_hit_same_but_times line fr fr' :
  same_frame_but_times fr fr' ->
  same_outcome same_frame_but_times
    (read_hit detector_dict line fr) (read_hit detector_dict line fr').
Proof.
  intros (Hst & (Hts & Hte & Hn & Hh) & Hin & Ht). unfold read_hit.
  destruct (take_1_2_4 _) as [[[x y] e]|]; simpl; [|done].
  destruct (detector_dict !! _); simpl; [|done].
  destruct (Py.float_of_string e); simpl; [|done].
  destruct (local_time fr) as [t|] eqn:E1, (local_time fr') as [t'|] eqn:E2;
    simpl; try done.
  - unfold append_hit, alloc. simpl. rewrite E1, E2.
    split; [|split; [|split]]; simpl; try done.
    + apply Forall2_app; [done|]. by repeat constructor.
    + repeat split; simpl; try tauto. by rewrite Hh, (Forall2_length _ _ _ Hst).
  - destruct Ht as [Ht _]. by destruct (Ht ltac:(by eexists)).
  - destruct Ht as [_ Ht]. by destruct (Ht ltac:(by eexists)).
Qed.

Lemma step_same_but_times fr fr' line :
  same_frame_but_times fr fr' ->
  same_outcome same_frame_but_times
    (step detector_dict s fr line) (step detector_dict s' fr' line).
Proof.
  intros H. pose proof H as (Hst & Hobj & Hin & Ht). unfold step. rewrite <- Hin.
  destruct (in_events fr) eqn:E; [|by apply global_keys_same_but_times].
  destruct (String.eqb _ "EN").
  { simpl. unfold same_frame_but_times. simpl. tauto. }
  destruct (String.eqb _ "TI") eqn:HTI.
  - assert (String.eqb (Py.prefix2 line) "HT" = false) as ->.
    { apply String.eqb_eq in HTI. by rewrite HTI. }
    destruct (float_field line); simpl; [|done].
    unfold same_frame_but_times. simpl.
    split; [done|]. split; [done|]. split; [congruence|]. split; intros _; by eexists.
  - simpl. destruct (String.eqb _ "HT"); simpl; [|done].
    pose proof (read_hit_same_but_times line fr fr' H) as Hr.
    destruct (read_hit detector_dict line fr), (read_hit detector_dict line fr');
      simpl in *; try done.
    by apply global_keys_same_but_times.
Qed.

Lemma scan_same_but_times fr fr' lines :
  same_frame_but_times fr fr' ->
  same_outcome same_frame_but_times
    (scan detector_dict s fr lines) (scan detector_dict s' fr' lines).
Proof.
  revert fr fr'. induction lines as [|line lines IH]; intros fr fr' H; simpl; [done|].
  destruct (String.eqb line ""); [done|].
  pose proof (step_same_but_times fr fr' line H) as Hs.
  destruct (step detector_dict s fr line), (step detector_dict s' fr' line);
    simpl in *; try done.
  by apply IH.
Qed.

End ShiftFacts.

(** X6: [time_shift] changes times and nothing else. For any two shifts,
    [open] on the same log and store either raises the same exception or
    returns two runs with the same [nthrown] and the same hits, hit by hit
    with the same detector and the same energy. *)
Theorem time_shift_changes_times_only detector_dict s s' h lines :
  same_outcome
    (fun r r' => same_run_but_times (fst r) (fst r')
                 /\ Forall2 same_but_time (snd r) (snd r'))
    (open detector_dict s h lines) (open detector_dict s' h lines).
Proof.
  unfold open.
  pose proof (scan_same_but_times detector_dict s s' _ _ lines
                (same_frame_refl (init_frame h))) as H.
  destruct (scan detector_dict s (init_frame h) lines) as [fr|],
           (scan detector_dict s' (init_frame h) lines) as [fr'|]; simpl in *; try done.
  destruct H as (Hst & (Hts & Hte & Hn & Hh) & _ & _). unfold check_fields.
  destruct (tstart (obj fr)) eqn:E1, (tstart (obj fr')) eqn:E1'; simpl;
    try done; try (by destruct (proj1 Hts ltac:(by eexists)));
    try (by destruct (proj2 Hts ltac:(by eexists))).
  destruct (tstop (obj fr)) eqn:E2, (tstop (obj fr')) eqn:E2'; simpl;
    try done; try (by destruct (proj1 Hte ltac:(by eexists)));
    try (by destruct (proj2 Hte ltac:(by eexists))).
  rewrite <- Hn. destruct (nthrown (obj fr)) eqn:E3; simpl; [|done].
  split; [|done]. unfold same_run_but_times. rewrite E1, E1', E2, E2', E3.
  split; [done|]. split; [done|]. split; [congruence|done].
Qed.

(** ** The errors of an HT record *)






(** ** More on [merge] *)

Lemma py_min_le_first a b : F64.is_nan a = false -> F64.le (py_min a b) a = true.
Proof.
  intros Ha. unfold py_min. destruct (F64.lt b a) eqn:E.
  - by apply F64Facts.lt_le.
  - by apply F64Facts.le_refl.
Qed.

Lemma py_max_ge_first a b : F64.is_nan a = false -> F64.le a (py_max a b) = true.
Proof.
  intros Ha. unfold py_max, F64.gt. fold (F64.lt a b). destruct (F64.lt a b) eqn:E.
  - by apply F64Facts.lt_le.
  - by apply F64Facts.le_refl.
Qed.

Section MergeMoreFacts.

Variable argsort : list Hit -> list nat.
Hypothesis argsort_Permutation : forall v, argsort v ≡ₚ seq 0 (List.length v).

Lemma merged_hits_Permutation h a b s :
  allocated h a -> allocated h b ->
  take_indices (hits a ++ hits b)
    (argsort (objects (shift_all s (hits b) h) (hits a ++ hits b)))
  ≡ₚ hits a ++ hits b.
Proof using argsort_Permutation.
  intros Ha Hb. apply take_indices_Permutation.
  rewrite <- (length_objects (shift_all s (hits b) h)); [apply argsort_Permutation|].
  rewrite length_shift_all. by apply Forall_app.
Qed.

(** X8: [merge] returns a run of the same store: it allocates nothing, the
    new [self] holds as many hits as the two runs held together, all of them
    allocated, and its three fields are set; so the result can be merged
    again or handed to [to_TTE]. *)
Theorem merge_returns_a_run_of_the_store h a b s a1 a2 n1 b1 b2 n2 :
  tstart a = Some a1 -> tstop a = Some a2 -> nthrown a = Some n1 ->
  tstart b = Some b1 -> tstop b = Some b2 -> nthrown b = Some n2 ->
  allocated h a -> allocated h b ->
  exists a' h',
    merge argsort h a b s = Ok (a', h')
    /\ List.length h' = List.length h
    /\ List.length (hits a') = List.length (hits a) + List.length (hits b)
    /\ allocated h' a'
    /\ allocated h' b
    /\ is_Some (tstart a') /\ is_Some (tstop a') /\ is_Some (nthrown a').
Proof using argsort_Permutation.
  intros Ha1 Ha2 Hn1 Hb1 Hb2 Hn2 Ha Hb.
  eexists _, _. split; [by eapply merge_Ok|]. simpl.
  pose proof (merged_hits_Permutation h a b s Ha Hb) as Hp.
  split; [apply length_shift_all|]. split; [by rewrite Hp, length_app|].
  unfold allocated in *. simpl. rewrite length_shift_all.
  split; [rewrite Hp; by apply Forall_app|]. split; [done|]. by repeat split.
Qed.

(** X9: [merge] keeps the bounds in order: when the run it updates has
    [tstart <= tstop], so has the result, whatever the other run and the
    shift are. *)
Theorem merge_keeps_bounds_ordered h a b s a1 a2 n1 b1 b2 n2 :
  tstart a = Some a1 -> tstop a = Some a2 -> nthrown a = Some n1 ->
  tstart b = Some b1 -> tstop b = Some b2 -> nthrown b = Some n2 ->
  allocated h a -> allocated h b ->
  F64.le a1 a2 = true ->
  exists a' h' lo hi,
    merge argsort h a b s = Ok (a', h')
    /\ tstart a' = Some lo /\ tstop a' = Some hi
    /\ F64.le lo a1 = true /\ F64.le a2 hi = true /\ F64.le lo hi = true.
Proof using argsort_Permutation.
  intros Ha1 Ha2 Hn1 Hb1 Hb2 Hn2 Ha Hb Hle.
  eexists _, _, _, _. split; [by eapply merge_Ok|]. simpl.
  destruct (F64Facts.le_not_nan _ _ Hle) as [N1 N2].
  pose proof (py_min_le_first a1 (F64.add b1 s) N1) as H1.
  pose proof (py_max_ge_first a2 (F64.add b2 s) N2) as H2.
  repeat (split; [done|]).
  eauto using F64Facts.le_trans.
Qed.

(** X10: the hits of the other run are shared, not copied: when the same
    run [b] is merged into [a] and then into [c], the second [merge] moves
    the hits that [a] took from [b] as well. After both calls every hit of
    [b] has both shifts added to its time, first the one and then the other,
    and it is a hit of [a], of [b] and of [c]. *)
Theorem merging_a_run_twice_shifts_it_twice h a b c s1 s2
    a1 a2 n1 b1 b2 n2 c1 c2 n3 :
  tstart a = Some a1 -> tstop a = Some a2 -> nthrown a = Some n1 ->
  tstart b = Some b1 -> tstop b = Some b2 -> nthrown b = Some n2 ->
  tstart c = Some c1 -> tstop c = Some c2 -> nthrown c = Some n3 ->
  allocated h a -> allocated h b -> allocated h c -> NoDup (hits b) ->
  exists a' h1 c' h2,
    merge argsort h a b s1 = Ok (a', h1)
    /\ merge argsort h1 c b s2 = Ok (c', h2)
    /\ (forall l, l ∈ hits b ->
          l ∈ hits a' /\ l ∈ hits c'
          /\ exists v,
               h !! l = Some v
               /\ h1 !! l = Some (mkHit (F64.add (time v) s1) (detector v) (energy v))
               /\ h2 !! l
                  = Some (mkHit (F64.add (F64.add (time v) s1) s2)
                            (detector v) (energy v))).
Proof using argsort_Permutation.
  intros Ha1 Ha2 Hn1 Hb1 Hb2 Hn2 Hc1 Hc2 Hn3 Ha Hb Hc Hnd.
  assert (allocated (shift_all s1 (hits b) h) c /\ allocated (shift_all s1 (hits b) h) b)
    as [Hc' Hb'] by (unfold allocated; by rewrite length_shift_all).
  eexists _, _, _, _. split; [by eapply merge_Ok|]. split; [by eapply merge_Ok|].
  simpl. intros l Hl. split; [|split].
  - rewrite merged_hits_Permutation by done. apply elem_of_app. by right.
  - rewrite merged_hits_Permutation by done. apply elem_of_app. by right.
  - unfold allocated in Hb. rewrite Forall_forall in Hb.
    destruct (lookup_lt_is_Some_2 h l (Hb l Hl)) as [v Hv].
    exists v. split; [done|].
    rewrite !shift_all_member by done. by rewrite Hv.
Qed.

(** X11: the only exception [merge] raises is the TypeError of a run that
    was never opened: it raises it exactly when one of [tstart], [tstop],
    [nthrown] of either run is unset, and returns otherwise. *)
Theorem merge_raises_only_on_unset_fields h a b s :
  allocated h a -> allocated h b ->
  (merge argsort h a b s = Raise TypeError
   <-> tstart a = None \/ tstop a = None \/ nthrown a = None
       \/ tstart b = None \/ tstop b = None \/ nthrown b = None)
  /\ (forall e, merge argsort h a b s = Raise e -> e = TypeError).
Proof using argsort_Permutation.
  intros Ha Hb.
  destruct (tstart a) as [a1|] eqn:Ea1, (tstop a) as [a2|] eqn:Ea2,
           (nthrown a) as [n1|] eqn:En1, (tstart b) as [b1|] eqn:Eb1,
           (tstop b) as [b2|] eqn:Eb2, (nthrown b) as [n2|] eqn:En2.
  1:{ rewrite (merge_Ok argsort argsort_Permutation h a b s a1 a2 n1 b1 b2 n2) by done.
      split; [split|]; [done| |done]. intros [?|[?|[?|[?|[?|?]]]]]; done. }
  all: unfold merge; rewrite Ea1, Eb1, ?Ea2, ?Eb2, ?En1, ?En2; simpl.
  all: split; [split; [intros _; auto 10|done]|by intros e [= <-]].
Qed.

End MergeMoreFacts.

Lemma merge_returns_a_run_of_the_store_witness :
  exists a' h',
    merge Npysort.insertion_argsort heap_AB sim_A sim_B shift_cell6 = Ok (a', h')
    /\ List.length h' = List.length heap_AB
    /\ List.length (hits a') = List.length (hits sim_A) + List.length (hits sim_B)
    /\ allocated h' a'
    /\ allocated h' sim_B
    /\ is_Some (tstart a') /\ is_Some (tstop a') /\ is_Some (nthrown a').
Proof.
  apply (merge_returns_a_run_of_the_store Npysort.insertion_argsort
           insertion_argsort_Permutation heap_AB sim_A sim_B shift_cell6
           (F64.of_int 0) (F64.of_int 10) 100%Z (F64.of_int 0) (F64.of_int 10) 50%Z);
    try reflexivity.
  - repeat constructor; simpl; lia.
  - repeat constructor; simpl; lia.
Defined.

Lemma merge_keeps_bounds_ordered_witness :
  exists a' h' lo hi,
    merge Npysort.insertion_argsort heap_AB sim_A sim_B shift_cell6 = Ok (a', h')
    /\ tstart a' = Some lo /\ tstop a' = Some hi
    /\ F64.le lo (F64.of_int 0) = true /\ F64.le (F64.of_int 10) hi = true
    /\ F64.le lo hi = true.
Proof.
  apply (merge_keeps_bounds_ordered Npysort.insertion_argsort
           insertion_argsort_Permutation heap_AB sim_A sim_B shift_cell6
           (F64.of_int 0) (F64.of_int 10) 100%Z (F64.of_int 0) (F64.of_int 10) 50%Z);
    try reflexivity.
  - repeat constructor; simpl; lia.
  - repeat constructor; simpl; lia.
Defined.

Lemma merging_a_run_twice_shifts_it_twice_witness :
  exists a' h1 c' h2,
    merge Npysort.insertion_argsort heap_AB sim_A sim_B shift_cell6 = Ok (a', h1)
    /\ merge Npysort.insertion_argsort h1
         (mkSim (Some (F64.of_int 0)) (Some (F64.of_int 10)) (Some 7%Z) [])
         sim_B (F64.of_int 2) = Ok (c', h2)
    /\ (forall l, l ∈ hits sim_B ->
          l ∈ hits a' /\ l ∈ hits c'
          /\ exists v,
               heap_AB !! l = Some v
               /\ h1 !! l
                  = Some (mkHit (F64.add (time v) shift_cell6) (detector v) (energy v))
               /\ h2 !! l
                  = Some (mkHit (F64.add (F64.add (time v) shift_cell6) (F64.of_int 2))
                            (detector v) (energy v))).
Proof.
  apply (merging_a_run_twice_shifts_it_twice Npysort.insertion_argsort
           insertion_argsort_Permutation heap_AB sim_A sim_B
           (mkSim (Some (F64.of_int 0)) (Some (F64.of_int 10)) (Some 7%Z) [])
           shift_cell6 (F64.of_int 2)
           (F64.of_int 0) (F64.of_int 10) 100%Z (F64.of_int 0) (F64.of_int 10) 50%Z
           (F64.of_int 0) (F64.of_int 10) 7%Z);
    try reflexivity.
  - repeat constructor; simpl; lia.
  - repeat constructor; simpl; lia.
  - constructor.
  - simpl. apply NoDup_cons. split; [|apply NoDup_singleton].
    rewrite list_elem_of_singleton. lia.
Defined.

Lemma merge_raises_only_on_unset_fields_witness :
  (merge Npysort.insertion_argsort heap_AB sim_A CosimaSim_init shift_cell6
   = Raise TypeError
   <-> tstart sim_A = None \/ tstop sim_A = None \/ nthrown sim_A = None
       \/ tstart CosimaSim_init = None \/ tstop CosimaSim_init = None
       \/ nthrown CosimaSim_init = None)
  /\ (forall e,
        merge Npysort.insertion_argsort heap_AB sim_A CosimaSim_init shift_cell6
        = Raise e -> e = TypeError).
Proof.
  apply (merge_raises_only_on_unset_fields Npysort.insertion_argsort
           insertion_argsort_Permutation heap_AB sim_A CosimaSim_init shift_cell6).
  - repeat constructor; simpl; lia.
  - constructor.
Defined.

(** ** More on [to_TTE] *)

Lemma le_lt_trans x y z :
  F64.le x y = true -> F64.lt y z = true -> F64.lt x z = true.
Proof.
  rewrite F64Facts.le_compare, !F64Facts.lt_compare.
  intros [H|H] H2; eauto using F64Facts.compare_lt_trans, F64Facts.compare_eq_lt_trans.
Qed.

Lemma digitize_raises x bins :
  Np.check_array_monotonic bins = 0%Z -> Np.digitize x bins = Raise ValueError.
Proof. intros H. unfold Np.digitize. by rewrite H. Qed.

Lemma digitize_returns x bins :
  Np.check_array_monotonic bins <> 0%Z -> exists d, Np.digitize x bins = Ok d.
Proof.
  intros H. unfold Np.digitize. apply Z.eqb_neq in H. rewrite H.
  destruct (Z.eqb _ (-1)); eauto.
Qed.

Lemma to_TTE_loop_monotonic edges todo times channels :
  Np.check_array_monotonic edges <> 0%Z ->
  exists cs,
    to_TTE_loop edges todo times channels = Ok (times ++ map time todo, channels ++ cs)
    /\ List.length cs = List.length todo.
Proof.
  intros Hm. revert times channels.
  induction todo as [|hit todo IH]; intros times channels; simpl.
  - exists []. by rewrite !app_nil_r.
  - unfold energy_channel at 1.
    destruct (digitize_returns (energy hit) edges Hm) as [d ->]. simpl.
    destruct (IH (times ++ [time hit])
                (channels ++ [Z.min (Z.of_nat (List.length edges) - 1 - 1) (Z.max 0 (d - 1))]))
      as (cs & -> & Hcs).
    eexists (_ :: cs). rewrite <- !app_assoc. split; [done|]. simpl. by rewrite Hcs.
Qed.

(** X12: up to the call of [EventList.from_lists], the only exception
    [to_TTE] raises is the ValueError of [np.digitize] for bins that are not
    monotonic, and it raises it exactly when the run has a hit and the edge
    table is not monotonic: the table is looked at once per hit, so a run
    without hits is converted whatever the table is. *)
Theorem to_TTE_raises_only_on_non_monotonic_edges h self edges :
  allocated h self ->
  (to_TTE h self edges = Raise ValueError
   <-> hits self <> [] /\ Np.check_array_monotonic edges = 0%Z)
  /\ (forall e, to_TTE h self edges = Raise e -> e = ValueError)
  /\ (hits self = [] ->
      to_TTE h self edges
      = Ok (mkEventList [] [] (all_but_last edges) (all_but_first edges)))
  /\ (Np.check_array_monotonic edges <> 0%Z ->
      exists ev, to_TTE h self edges = Ok ev
        /\ times_list ev = map time (objects h (hits self))
        /\ List.length (pha_list ev) = List.length (hits self)).
Proof.
  intros Hall. pose proof (length_objects h (hits self) Hall) as Hlen.
  assert (Np.check_array_monotonic edges <> 0%Z ->
      exists ev, to_TTE h self edges = Ok ev
        /\ times_list ev = map time (objects h (hits self))
        /\ List.length (pha_list ev) = List.length (hits self)) as Hmono.
  { intros Hm. unfold to_TTE.
    destruct (to_TTE_loop_monotonic edges (objects h (hits self)) [] [] Hm) as (cs & -> & Hcs).
    simpl. eexists. split; [done|]. simpl. split; [done|]. by rewrite Hcs. }
  assert (hits self = [] ->
      to_TTE h self edges
      = Ok (mkEventList [] [] (all_but_last edges) (all_but_first edges))) as Hnil.
  { intros E. unfold to_TTE. by rewrite E. }
  assert (hits self <> [] -> Np.check_array_monotonic edges = 0%Z ->
      to_TTE h self edges = Raise ValueError) as Hraise.
  { intros Hne Hm. unfold to_TTE.
    destruct (objects h (hits self)) as [|hit todo] eqn:E.
    { destruct (hits self); [done|]. simpl in Hlen. lia. }
    simpl. unfold energy_channel. by rewrite digitize_raises. }
  split; [|split; [|split]]; [| |done..].
  - split; [|intros []; auto].
    intros H. destruct (hits self) as [|l ls] eqn:E.
    { rewrite Hnil in H; done. }
    split; [done|]. destruct (Z.eq_dec (Np.check_array_monotonic edges) 0%Z) as [|Hm]; [done|].
    destruct (Hmono Hm) as (ev & Hev & _). congruence.
  - intros e H. destruct (hits self) as [|l ls] eqn:E.
    { rewrite Hnil in H; done. }
    destruct (Z.eq_dec (Np.check_array_monotonic edges) 0%Z) as [Hm|Hm].
    + rewrite Hraise in H by done. congruence.
    + destruct (Hmono Hm) as (ev & Hev & _). congruence.
Qed.

Lemma to_TTE_raises_only_on_non_monotonic_edges_witness :
  (to_TTE heap_AB sim_A [F64.of_int 2; F64.of_int 1; F64.of_int 3] = Raise ValueError
   <-> hits sim_A <> []
       /\ Np.check_array_monotonic [F64.of_int 2; F64.of_int 1; F64.of_int 3] = 0%Z)
  /\ (forall e,
        to_TTE heap_AB sim_A [F64.of_int 2; F64.of_int 1; F64.of_int 3] = Raise e ->
        e = ValueError)
  /\ (hits sim_A = [] ->
      to_TTE heap_AB sim_A [F64.of_int 2; F64.of_int 1; F64.of_int 3]
      = Ok (mkEventList [] []
              (all_but_last [F64.of_int 2; F64.of_int 1; F64.of_int 3])
              (all_but_first [F64.of_int 2; F64.of_int 1; F64.of_int 3])))
  /\ (Np.check_array_monotonic [F64.of_int 2; F64.of_int 1; F64.of_int 3] <> 0%Z ->
      exists ev,
        to_TTE heap_AB sim_A [F64.of_int 2; F64.of_int 1; F64.of_int 3] = Ok ev
        /\ times_list ev = map time (objects heap_AB (hits sim_A))
        /\ List.length (pha_list ev) = List.length (hits sim_A)).
Proof.
  apply (to_TTE_raises_only_on_non_monotonic_edges heap_AB sim_A
           [F64.of_int 2; F64.of_int 1; F64.of_int 3]).
  repeat constructor; simpl; lia.
Defined.

(** X13: the channel grows with the energy: of two energies [e <= e'], the
    second never gets a lower channel than the first. *)
Theorem channel_is_monotone_in_energy edges e e' :
  strictly_increasing edges = true -> F64.le e e' = true ->
  exists c c',
    energy_channel edges e = Ok c /\ energy_channel edges e' = Ok c' /\ (c <= c')%Z.
Proof.
  intros Hinc Hle.
  destruct (searchsorted_right_spec edges e Hinc) as (Hr & Hlow & _).
  destruct (searchsorted_right_spec edges e' Hinc) as (_ & _ & Hup').
  unfold energy_channel. rewrite !digitize_of_strict by done. simpl.
  eexists _, _. split; [done|]. split; [done|].
  assert (Np.searchsorted_right edges e <= Np.searchsorted_right edges e'); [|lia].
  destruct (Nat.le_gt_cases (Np.searchsorted_right edges e) (Np.searchsorted_right edges e'))
    as [|Hgt]; [done|].
  destruct (lookup_lt_is_Some_2 edges (Np.searchsorted_right edges e') ltac:(lia)) as [x Hx].
  pose proof (Hlow _ x Hgt Hx) as H1. pose proof (Hup' _ x (Nat.le_refl _) Hx) as H2.
  destruct (F64Facts.le_not_nan _ _ Hle) as [Ne Ne'].
  unfold Np.less in H1, H2. rewrite Ne in H1. rewrite Ne' in H2. simpl in H1, H2.
  apply orb_false_iff in H1 as [H1 Hx1]. rewrite andb_true_r in Hx1, H2.
  rewrite Hx1, orb_false_r in H2.
  rewrite (le_lt_trans e e' x) in H1; done.
Qed.

Lemma channel_is_monotone_in_energy_witness :
  exists c c',
    energy_channel edges_E (F64.of_int 3) = Ok c
    /\ energy_channel edges_E (F64.of_int 5000) = Ok c' /\ (c <= c')%Z.
Proof.
  apply (channel_is_monotone_in_energy edges_E (F64.of_int 3) (F64.of_int 5000));
    vm_compute; reflexivity.
Defined.

(** X14: an energy that is NaN is counted into the top channel: numpy orders
    NaN after every number, so [np.digitize] puts it past the last edge and
    the clamp brings it back to channel [N - 1]. *)
Theorem nan_energy_goes_to_the_top_channel edges N e :
  strictly_increasing edges = true -> List.length edges = S N -> 1 <= N ->
  F64.is_nan e = true ->
  energy_channel edges e = Ok (Z.of_nat N - 1)%Z.
Proof.
  intros Hinc Hlen HN He.
  destruct (searchsorted_right_spec edges e Hinc) as (Hr & _ & Hup).
  assert (Np.searchsorted_right edges e = S N) as Hs.
  { destruct (Nat.le_gt_cases (S N) (Np.searchsorted_right edges e)) as [|Hlt]; [lia|].
    destruct (lookup_lt_is_Some_2 edges (Np.searchsorted_right edges e) ltac:(lia)) as [x Hx].
    pose proof (Hup _ x (Nat.le_refl _) Hx) as H.
    destruct e; try discriminate. unfold Np.less in H. simpl in H.
    by rewrite andb_false_r in H. }
  unfold energy_channel. rewrite digitize_of_strict by done. simpl. rewrite Hs, Hlen.
  f_equal. lia.
Qed.

Lemma nan_energy_goes_to_the_top_channel_witness :
  energy_channel edges_E S754_nan = Ok (Z.of_nat 3 - 1)%Z.
Proof.
  apply (nan_energy_goes_to_the_top_channel edges_E 3 S754_nan);
    [vm_compute; reflexivity|reflexivity|lia|reflexivity].
Defined.

(** X15: the channel numbers index the channel bounds that [to_TTE] hands
    over with them: for every hit whose energy lies within the table, the
    bounds found in [chan_lo] and [chan_hi] at the hit's channel enclose the
    hit's energy, [lo <= energy < hi]. *)
Theorem events_lie_within_their_channel_bounds h self edges N e0 eN :
  strictly_increasing edges = true -> List.length edges = S N -> 1 <= N ->
  edges !! 0 = Some e0 -> edges !! N = Some eN ->
  allocated h self ->
  exists ev,
    to_TTE h self edges = Ok ev
    /\ List.length (chan_lo ev) = N /\ List.length (chan_hi ev) = N
    /\ forall i hit c,
         objects h (hits self) !! i = Some hit -> pha_list ev !! i = Some c ->
         F64.le e0 (energy hit) = true -> F64.lt (energy hit) eN = true ->
         exists lo hi,
           chan_lo ev !! Z.to_nat c = Some lo /\ chan_hi ev !! Z.to_nat c = Some hi
           /\ F64.le lo (energy hit) = true /\ F64.lt (energy hit) hi = true.
Proof.
  intros Hinc Hlen HN H0 HeN Hall. unfold to_TTE.
  destruct (to_TTE_loop_spec edges (objects h (hits self)) [] [] Hinc) as (cs & -> & Hcs).
  simpl. eexists. split; [reflexivity|]. simpl.
  unfold all_but_last, all_but_first. rewrite length_take, length_drop, Hlen.
  split; [lia|]. split; [lia|].
  intros i hit c Hhit Hc Hge Hlt.
  pose proof (Forall2_lookup_lr _ _ _ _ _ _ Hcs Hhit Hc) as Hch. simpl in Hch.
  clear Hcs Hhit Hc.
  remember (energy hit) as e eqn:Ee. clear Ee.
  destruct (searchsorted_right_spec edges e Hinc) as (Hr & Hlow & Hup).
  assert (forall i x, edges !! i = Some x -> Np.less e x = F64.lt e x) as Hless.
  { intros j x Hx. apply less_number. eapply edge_is_number; eauto. lia. }
  unfold energy_channel in Hch. rewrite digitize_of_strict in Hch by done. simpl in Hch.
  remember (Np.searchsorted_right edges e) as r eqn:Er.
  assert (1 <= r) as Hr1.
  { destruct r as [|r]; [|lia].
    apply F64Facts.le_lt_false in Hge. rewrite <- (Hless 0 e0 H0) in Hge.
    rewrite (Hup 0 e0) in Hge by (done || lia). done. }
  assert (r <= N) as HrN.
  { destruct (Nat.le_gt_cases r N) as [?|Hgt]; [done|].
    rewrite <- (Hless N eN HeN) in Hlt. rewrite (Hlow N eN) in Hlt by done. done. }
  injection Hch as <-. rewrite Hlen.
  replace (Z.to_nat (Z.min (Z.of_nat (S N) - 1 - 1) (Z.max 0 (Z.of_nat r - 1))))
    with (r - 1) by lia.
  destruct (lookup_lt_is_Some_2 edges (r - 1) ltac:(lia)) as [lo Hlo].
  destruct (lookup_lt_is_Some_2 edges (S (r - 1)) ltac:(lia)) as [hi Hhi].
  exists lo, hi. rewrite lookup_take_lt by lia. rewrite lookup_drop. simpl.
  split; [done|]. split; [done|]. split.
  - apply F64Facts.not_lt_le.
    + eapply edge_is_number; eauto. lia.
    + by destruct (F64Facts.le_not_nan _ _ Hge).
    + rewrite <- (Hless _ _ Hlo). eapply Hlow; [|done]. lia.
  - rewrite <- (Hless _ _ Hhi). eapply Hup; [|done]. lia.
Qed.

Lemma events_lie_within_their_channel_bounds_witness :
  exists ev,
    to_TTE heap_AB sim_A edges_E = Ok ev
    /\ List.length (chan_lo ev) = 3 /\ List.length (chan_hi ev) = 3
    /\ forall i hit c,
         objects heap_AB (hits sim_A) !! i = Some hit -> pha_list ev !! i = Some c ->
         F64.le (F64.of_decimal false 45 (-1)) (energy hit) = true ->
         F64.lt (energy hit) (F64.of_int 2000) = true ->
         exists lo hi,
           chan_lo ev !! Z.to_nat c = Some lo /\ chan_hi ev !! Z.to_nat c = Some hi
           /\ F64.le lo (energy hit) = true /\ F64.lt (energy hit) hi = true.
Proof.
  apply (events_lie_within_their_channel_bounds heap_AB sim_A edges_E 3
           (F64.of_decimal false 45 (-1)) (F64.of_int 2000));
    [vm_compute; reflexivity|reflexivity|lia|reflexivity|reflexivity|].
  repeat constructor; simpl; lia.
Defined.

(** ** The whole of cell 6 *)

Lemma open_Ok_inv detector_dict time_shift h lines sim h' :
  open detector_dict time_shift h lines = Ok (sim, h') ->
  exists vs,
    h' = h ++ vs /\ hits sim = seq (List.length h) (List.length vs)
    /\ is_Some (tstart sim) /\ is_Some (tstop sim) /\ is_Some (nthrown sim).
Proof.
  unfold open. intros H.
  destruct (scan detector_dict time_shift (init_frame h) lines) as [fr|] eqn:E;
    simpl in H; [|done].
  destruct (check_fields (obj fr)) as [sim1|] eqn:Ec; simpl in H; [|done].
  injection H as <- <-.
  apply scan_store in E as (vs & Hs & Hh & _). simpl in Hs, Hh.
  unfold check_fields in Ec.
  destruct (tstart (obj fr)) eqn:E1; [|done]. destruct (tstop (obj fr)) eqn:E2; [|done].
  destruct (nthrown (obj fr)) eqn:E3; [|done]. injection Ec as <-.
  exists vs. rewrite E1, E2, E3. eauto 10.
Qed.

Section Cell6Facts.

Variable argsort : list Hit -> list nat.
Hypothesis argsort_Permutation : forall v, argsort v ≡ₚ seq 0 (List.length v).
Hypothesis argsort_sorted :
  forall v, times_are_numbers v -> sorted_by_time (take_indices v (argsort v)).

(** X16: when both logs are read into runs and the edges increase, cell 6
    ends with an event list that has exactly one event per hit of the two
    logs: its times are the times of the signal's hits as read and the times
    of the background's hits moved by the shift of -5 s, in some order, and
    in ascending order when none of them is NaN; there is one channel per
    time. *)
Theorem cell6_makes_one_event_per_hit signal bkg edges sim1 h1 sim2 h2 :
  open detector_dict zero_shift [] signal = Ok (sim1, h1) ->
  open detector_dict zero_shift h1 bkg = Ok (sim2, h2) ->
  strictly_increasing edges = true ->
  exists ev,
    cell6 argsort signal bkg edges = Ok ev
    /\ times_list ev
       ≡ₚ map time (objects h1 (hits sim1))
          ++ map (fun v => F64.add (time v) shift_cell6) (objects h2 (hits sim2))
    /\ List.length (times_list ev) = List.length (hits sim1) + List.length (hits sim2)
    /\ List.length (pha_list ev) = List.length (hits sim1) + List.length (hits sim2)
    /\ (Forall (fun t => F64.is_nan t = false) (times_list ev) ->
        StronglySorted (fun x y => F64.le x y = true) (times_list ev)).
Proof using argsort_Permutation argsort_sorted.
  intros H1 H2 Hinc.
  destruct (open_Ok_inv _ _ _ _ _ _ H1) as (vs1 & Hh1 & Hs1 & [a1 Ea1] & [a2 Ea2] & [n1 En1]).
  destruct (open_Ok_inv _ _ _ _ _ _ H2) as (vs2 & Hh2 & Hs2 & [b1 Eb1] & [b2 Eb2] & [n2 En2]).
  simpl in Hh1, Hs1.
  assert (allocated h1 sim1) as Hal1.
  { unfold allocated. rewrite Hs1, Hh1. apply Forall_forall. intros l Hl%elem_of_seq. lia. }
  assert (allocated h2 sim1) as Hal21.
  { unfold allocated in *. rewrite Hh2, length_app.
    eapply Forall_impl; [exact Hal1|]. simpl. intros; lia. }
  assert (allocated h2 sim2) as Hal2.
  { unfold allocated. rewrite Hs2, Hh2, length_app.
    apply Forall_forall. intros l Hl%elem_of_seq. lia. }
  assert (NoDup (hits sim2)) as Hnd by (rewrite Hs2; apply NoDup_seq).
  assert (forall l, l ∈ hits sim1 -> l ∉ hits sim2) as Hdisj.
  { intros l Hl Hl'. rewrite Hs2 in Hl'. apply elem_of_seq in Hl'.
    unfold allocated in Hal1. rewrite Forall_forall in Hal1. specialize (Hal1 l Hl). lia. }
  assert (objects h2 (hits sim1) = objects h1 (hits sim1)) as Hsame.
  { apply objects_ext. eapply Forall_impl; [exact Hal1|]. simpl. intros l Hl.
    rewrite Hh2. by apply lookup_app_l. }
  unfold cell6. rewrite H1. simpl. rewrite H2. simpl.
  rewrite (merge_Ok argsort argsort_Permutation h2 sim1 sim2 shift_cell6
             a1 a2 n1 b1 b2 n2) by done.
  simpl. unfold to_TTE. simpl.
  set (h3 := shift_all shift_cell6 (hits sim2) h2).
  set (v := objects h3 (hits sim1 ++ hits sim2)).
  assert (Forall (fun l => l < List.length h3) (hits sim1 ++ hits sim2)) as Hal3.
  { unfold h3. rewrite length_shift_all. by apply Forall_app. }
  rewrite (objects_take_indices h3 (hits sim1 ++ hits sim2) (argsort v)) by done.
  fold v.
  destruct (to_TTE_loop_spec edges (take_indices v (argsort v)) [] [] Hinc)
    as (cs & -> & Hcs).
  simpl. eexists. split; [reflexivity|]. simpl.
  assert (take_indices v (argsort v) ≡ₚ v) as Hp
    by apply take_indices_Permutation, argsort_Permutation.
  assert (v = objects h1 (hits sim1) ++ map (shift_hit shift_cell6) (objects h2 (hits sim2)))
    as Hv.
  { unfold v, h3. rewrite merged_objects by done. by rewrite Hsame. }
  assert (List.length v = List.length (hits sim1) + List.length (hits sim2)) as Hlen.
  { unfold v. rewrite length_objects by done. apply length_app. }
  split; [|split; [|split]].
  - rewrite Hp, Hv, map_app, map_map. done.
  - by rewrite length_map, Hp.
  - apply Forall2_length in Hcs. by rewrite <- Hcs, Hp.
  - intros Hnum. apply (StronglySorted_fmap time (fun x y => F64.le (time x) (time y) = true)).
    { done. }
    apply argsort_sorted. unfold times_are_numbers.
    rewrite <- Hp. by apply Forall_fmap in Hnum.
Qed.

End Cell6Facts.

Lemma cell6_makes_one_event_per_hit_witness :
  exists ev,
    cell6 Npysort.insertion_argsort log_A log_A edges_E = Ok ev
    /\ times_list ev
       ≡ₚ map time
            (objects [mkHit (F64.of_decimal false 15 (-1)) "q0" (F64.of_int 50)] [0])
          ++ map (fun v => F64.add (time v) shift_cell6)
               (objects [mkHit (F64.of_decimal false 15 (-1)) "q0" (F64.of_int 50);
                         mkHit (F64.of_decimal false 15 (-1)) "q0" (F64.of_int 50)] [1])
    /\ List.length (times_list ev) = 1 + 1
    /\ List.length (pha_list ev) = 1 + 1
    /\ (Forall (fun t => F64.is_nan t = false) (times_list ev) ->
        StronglySorted (fun x y => F64.le x y = true) (times_list ev)).
Proof.
  apply (cell6_makes_one_event_per_hit Npysort.insertion_argsort
           insertion_argsort_Permutation insertion_argsort_sorted
           log_A log_A edges_E
           (mkSim (Some (F64.of_int 0)) (Some (F64.of_int 10)) (Some 100%Z) [0])
           [mkHit (F64.of_decimal false 15 (-1)) "q0" (F64.of_int 50)]
           (mkSim (Some (F64.of_int 0)) (Some (F64.of_int 10)) (Some 100%Z) [1])
           [mkHit (F64.of_decimal false 15 (-1)) "q0" (F64.of_int 50);
            mkHit (F64.of_decimal false 15 (-1)) "q0" (F64.of_int 50)]);
    vm_compute; reflexivity.
Defined.

(** ** The detectors of the hits *)

Section DetectorFacts.

Variable detector_dict : gmap string string.
Variable time_shift : float.

Lemma read_hit_detector line fr fr' :
  read_hit detector_dict line fr = Ok fr' ->
  exists v k, fr' = append_hit v fr /\ detector_dict !! k = Some (detector v).
Proof.
  unfold read_hit. destruct (take_1_2_4 _) as [[[x y] e]|]; simpl; [|done].
  destruct (detector_dict !! _) as [d|] eqn:Ed; simpl; [|done].
  destruct (Py.float_of_string e); simpl; [|done].
  destruct (local_time fr); simpl; [|done]. intros [= <-]. eauto.
Qed.

Lemma step_detectors fr line fr' :
  step detector_dict time_shift fr line = Ok fr' ->
  exists vs,
    store fr' = store fr ++ vs
    /\ Forall (fun v => exists k, detector_dict !! k = Some (detector v)) vs.
Proof.
  unfold step. intros H.
  destruct (in_events fr).
  - destruct (String.eqb _ "EN").
    { injection H as <-. exists []. simpl. by rewrite app_nil_r. }
    simpl in H.
    destruct (String.eqb _ "TI"); simpl in H.
    + destruct (float_field line); simpl in H; [|done].
      destruct (String.eqb _ "HT"); simpl in H.
      * destruct (read_hit _ _ _) as [fr2|] eqn:E; simpl in H; [|done].
        apply read_hit_detector in E as (v & k & -> & Hk).
        apply global_keys_store in H as [-> _].
        exists [v]. split; [done|]. constructor; eauto.
      * injection H as <-. exists []. simpl. by rewrite app_nil_r.
    + destruct (String.eqb _ "HT"); simpl in H.
      * destruct (read_hit _ _ _) as [fr2|] eqn:E; simpl in H; [|done].
        apply read_hit_detector in E as (v & k & -> & Hk).
        apply global_keys_store in H as [-> _].
        exists [v]. split; [done|]. constructor; eauto.
      * injection H as <-. exists []. simpl. by rewrite app_nil_r.
  - apply global_keys_store in H as [-> _]. exists []. by rewrite app_nil_r.
Qed.

Lemma scan_detectors fr lines fr' :
  scan detector_dict time_shift fr lines = Ok fr' ->
  exists vs,
    store fr' = store fr ++ vs
    /\ Forall (fun v => exists k, detector_dict !! k = Some (detector v)) vs.
Proof.
  revert fr. induction lines as [|line lines IH]; intros fr H; simpl in H.
  - injection H as <-. exists []. by rewrite app_nil_r.
  - destruct (String.eqb line "").
    { injection H as <-. exists []. by rewrite app_nil_r. }
    destruct (step detector_dict time_shift fr line) as [fr1|] eqn:E; simpl in H; [|done].
    apply step_detectors in E as (vs1 & Hs1 & Hd1).
    apply IH in H as (vs2 & Hs2 & Hd2).
    exists (vs1 ++ vs2). rewrite Hs2, Hs1, <- app_assoc. split; [done|]. by apply Forall_app.
Qed.

(** X17: every hit of a run that [open] returns carries a detector name
    taken from the detector dictionary: no hit has a name that the
    dictionary does not give. *)
Theorem hits_carry_detectors_of_the_dictionary h lines sim h' :
  open detector_dict time_shift h lines = Ok (sim, h') ->
  Forall (fun v => exists k, detector_dict !! k = Some (detector v))
    (objects h' (hits sim))
  /\ List.length (objects h' (hits sim)) = List.length (hits sim).
Proof.
  intros H. destruct (open_Ok_inv _ _ _ _ _ _ H) as (vs & Hh & Hs & _).
  unfold open in H.
  destruct (scan detector_dict time_shift (init_frame h) lines) as [fr|] eqn:E;
    simpl in H; [|done].
  destruct (check_fields (obj fr)) as [sim1|]; simpl in H; [|done].
  injection H as _ Hst.
  apply scan_detectors in E as (vs' & Hs' & Hd). simpl in Hs'.
  assert (vs' = vs) as -> by (apply (app_inv_head h); congruence).
  assert (Forall (fun l => l < List.length h') (hits sim)) as Hal.
  { rewrite Hs, Hh, length_app. apply Forall_forall. intros l Hl%elem_of_seq. lia. }
  split; [|by apply length_objects].
  apply Forall_forall. intros v Hv.
  apply list_elem_of_lookup in Hv as [i Hi].
  rewrite lookup_objects in Hi by done.
  destruct (hits sim !! i) as [l|] eqn:El; simpl in Hi; [|done].
  rewrite Hs in El. apply lookup_seq in El as [-> Hlt].
  rewrite Hh, lookup_app_r in Hi by lia.
  rewrite Forall_forall in Hd. apply Hd. eapply list_elem_of_lookup_2. exact Hi.
Qed.

End DetectorFacts.

Lemma hits_carry_detectors_of_the_dictionary_witness :
  Forall (fun v => exists k, detector_dict !! k = Some (detector v))
    (objects [mkHit (F64.of_decimal false 15 (-1)) "q0" (F64.of_int 50)]
       (hits (mkSim (Some (F64.of_int 0)) (Some (F64.of_int 10)) (Some 100%Z) [0])))
  /\ List.length
       (objects [mkHit (F64.of_decimal false 15 (-1)) "q0" (F64.of_int 50)]
          (hits (mkSim (Some (F64.of_int 0)) (Some (F64.of_int 10)) (Some 100%Z) [0])))
     = List.length
         (hits (mkSim (Some (F64.of_int 0)) (Some (F64.of_int 10)) (Some 100%Z) [0])).
Proof.
  apply (hits_carry_detectors_of_the_dictionary detector_dict zero_shift [] log_A
           (mkSim (Some (F64.of_int 0)) (Some (F64.of_int 10)) (Some 100%Z) [0])
           [mkHit (F64.of_decimal false 15 (-1)) "q0" (F64.of_int 50)]).
  vm_compute. reflexivity.
Defined.
